(** * Jyro document analyzer: a shallow embedding of [DocumentAnalyzer]

    The analyzer (class [DocumentAnalyzer], with the function registry of
    shared/src/stdlib.ts) is a line-oriented checker built from JavaScript
    string primitives and regular expressions.  The embedding has three
    layers:

    - JavaScript strings as sequences of UTF-16 code units, with the string
      built-ins the analyzer calls ([trim], [indexOf], [split], ...);
    - a backtracking regular-expression matcher in continuation-passing
      style, following the matcher/continuation semantics of ECMA-262, and
      the [exec]/[test]/[match]/[replace] built-ins on top of it;
    - the analyzer itself, with its mutable fields passed explicitly. *)

From Stdlib Require Import String Ascii.
From Stdlib Require Import NArith ZArith Arith Bool Lia.
From Stdlib Require Import List.
Import ListNotations.

Set Implicit Arguments.

(* ================================================================== *)
(** ** JavaScript strings *)
(* ================================================================== *)

(** A code unit; a JavaScript string is a sequence of them. *)
Definition char := N.
Definition jsstring := list char.

(** String literals of the source, written as Rocq strings. *)
Definition js (t : string) : jsstring := map N_of_ascii (list_ascii_of_string t).
Arguments js t%_string.

(** The double-quote character, U+0022. *)
Definition dq : char := 34%N.

Definition inRange (lo hi c : char) : bool := (lo <=? c)%N && (c <=? hi)%N.
Arguments inRange (lo hi c)%_N.

Definition isUpper (c : char) : bool := inRange 65 90 c.
Definition isLower (c : char) : bool := inRange 97 122 c.
Definition isDigit (c : char) : bool := inRange 48 57 c.
Definition isAlpha (c : char) : bool := isUpper c || isLower c.
Definition isAlnum (c : char) : bool := isAlpha c || isDigit c.

(** [\w] is [A-Za-z0-9_]. *)
Definition isWordChar (c : char) : bool := isAlnum c || (c =? 95)%N.

(** [[a-zA-Z_]] *)
Definition isIdentStart (c : char) : bool := isAlpha c || (c =? 95)%N.

(** LineTerminator: LF, CR, U+2028, U+2029. *)
Definition isLineTerminator (c : char) : bool :=
  (c =? 10)%N || (c =? 13)%N || (c =? 8232)%N || (c =? 8233)%N.

(** WhiteSpace: TAB, VT, FF, SP, NBSP, ZWNBSP and the Unicode space
    separators. *)
Definition isWhiteSpace (c : char) : bool :=
  (c =? 9)%N || (c =? 11)%N || (c =? 12)%N || (c =? 32)%N || (c =? 160)%N ||
  (c =? 5760)%N || inRange 8192 8202 c || (c =? 8239)%N || (c =? 8287)%N ||
  (c =? 12288)%N || (c =? 65279)%N.

(** [\s], also the set that [trim] strips. *)
Definition isSpace (c : char) : bool := isWhiteSpace c || isLineTerminator c.

(** [.] without the [s] flag. *)
Definition isDot (c : char) : bool := negb (isLineTerminator c).

Definition isChar (x c : char) : bool := (c =? x)%N.
Definition notChar (x c : char) : bool := negb (c =? x)%N.
Arguments isChar (x c)%_N.
Arguments notChar (x c)%_N.

(** [toLowerCase] on one code unit.  The analyzer lowers only registry names
    and identifiers matched by [\w], so only the ASCII letters ever change. *)
Definition lowerChar (c : char) : char := if isUpper c then (c + 32)%N else c.
Definition toLowerCase (s : jsstring) : jsstring := map lowerChar s.

(** Comparison under the [i] flag: for the ASCII letters of the analyzer's
    patterns canonicalisation identifies exactly the two cases of a letter. *)
Definition isCharCI (x c : char) : bool := (lowerChar c =? lowerChar x)%N.

Fixpoint jseqb (a b : jsstring) : bool :=
  match a, b with
  | [], [] => true
  | x :: a', y :: b' => (x =? y)%N && jseqb a' b'
  | _, _ => false
  end.

(** [arr.includes(x)] on an array of strings. *)
Definition includes (arr : list jsstring) (x : jsstring) : bool :=
  existsb (jseqb x) arr.

Fixpoint isPrefixOf (p s : jsstring) : bool :=
  match p, s with
  | [], _ => true
  | x :: p', y :: s' => (x =? y)%N && isPrefixOf p' s'
  | _ :: _, [] => false
  end.

(** [s.startsWith(p)] *)
Definition startsWith (p s : jsstring) : bool := isPrefixOf p s.

(** [s.substring(a, b)] for [a <= b]. *)
Definition substring (s : jsstring) (a b : nat) : jsstring :=
  firstn (b - a) (skipn a s).

(** [hay] is the suffix of the subject that starts at index [k]. *)
Fixpoint indexOfGo (needle hay : jsstring) (k : nat) : Z :=
  if isPrefixOf needle hay then Z.of_nat k
  else match hay with
       | [] => (-1)%Z
       | _ :: t => indexOfGo needle t (S k)
       end.

(** [s.indexOf(needle, from)]: the least index at or after [from] where
    [needle] occurs, or -1. *)
Definition indexOfFrom (needle s : jsstring) (from : nat) : Z :=
  let st := Nat.min from (length s) in
  indexOfGo needle (skipn st s) st.

Definition indexOf (needle s : jsstring) : Z := indexOfFrom needle s 0.

(** [s.includes(needle)] on strings. *)
Definition strIncludes (needle s : jsstring) : bool := (0 <=? indexOf needle s)%Z.

Fixpoint trimStart (s : jsstring) : jsstring :=
  match s with
  | c :: t => if isSpace c then trimStart t else s
  | [] => []
  end.

Definition trimEnd (s : jsstring) : jsstring := rev (trimStart (rev s)).

Definition trim (s : jsstring) : jsstring := trimEnd (trimStart s).

(** [s.split(sep)] for a one-character separator: never the empty array. *)
Fixpoint split (sep : char) (s : jsstring) : list jsstring :=
  match s with
  | [] => [[]]
  | c :: t =>
      if (c =? sep)%N then [] :: split sep t
      else match split sep t with
           | l :: ls => (c :: l) :: ls
           | [] => [[c]]
           end
  end.
Arguments split sep%_N s.

(* ================================================================== *)
(** ** Regular expressions *)
(* ================================================================== *)

(** The analyzer's patterns use at most two capturing groups. *)
Inductive group := G1 | G2.

(** Capture spans, [(start, end)] indices into the subject. *)
Record caps := { cap1 : option (nat * nat); cap2 : option (nat * nat) }.

Definition noCaps : caps := {| cap1 := None; cap2 := None |}.

Definition setCap (g : group) (sp : nat * nat) (c : caps) : caps :=
  match g with
  | G1 => {| cap1 := Some sp; cap2 := cap2 c |}
  | G2 => {| cap1 := cap1 c; cap2 := Some sp |}
  end.

Inductive regex : Type :=
| Empty                              (* the empty pattern *)
| Chr (p : char -> bool)             (* one character of a class *)
| Seq (a b : regex)                  (* ab *)
| Alt (a b : regex)                  (* a|b *)
| Star (a : regex)                   (* a*, greedy *)
| Group (g : group) (a : regex)      (* (a) *)
| WordB                              (* \b *)
| Bol                                (* ^ *)
| Eol.                               (* $, no m flag *)

(** a+ *)
Definition Plus (a : regex) : regex := Seq a (Star a).

(** a?, greedy.  Every optional sub-pattern of the analyzer consumes at least
    one character, so the empty-iteration check of the quantifier is moot. *)
Definition Opt (a : regex) : regex := Alt a Empty.

Fixpoint seqOf (l : list regex) : regex :=
  match l with
  | [] => Empty
  | [a] => a
  | a :: l' => Seq a (seqOf l')
  end.

(** A literal word. *)
Definition lit (t : string) : regex := seqOf (map (fun c => Chr (isChar c)) (js t)).
Arguments lit t%_string.

(** A literal word under the [i] flag. *)
Definition litCI (t : string) : regex := seqOf (map (fun c => Chr (isCharCI c)) (js t)).
Arguments litCI t%_string.

Record MatchResult := {
  index : nat;        (* match.index *)
  stop : nat;         (* end of the match; the new lastIndex under g *)
  groups : caps
}.

Section Matcher.

(** The subject string. *)
Variable s : jsstring.

Definition wordAt (i : nat) : bool :=
  match nth_error s i with
  | Some c => isWordChar c
  | None => false
  end.

(** [\b] holds at [i] when exactly one of the characters around [i] is a
    word character. *)
Definition wordBoundary (i : nat) : bool :=
  xorb (match i with O => false | S i' => wordAt i' end) (wordAt i).

(** Continuations receive the end index and the captures so far. *)
Definition K := nat -> caps -> option (nat * caps).

(** Greedy iteration: try the atom once more, refusing an iteration that
    consumes nothing, and fall back to the continuation.  Each iteration
    moves forward, so [S (length s)] rounds of fuel are never used up. *)
Fixpoint starLoop (ma : nat -> caps -> K -> option (nat * caps)) (k : K)
  (n : nat) (i : nat) (c : caps) : option (nat * caps) :=
  match n with
  | O => k i c
  | S n' =>
      match ma i c (fun j c' => if i <? j then starLoop ma k n' j c' else None) with
      | Some x => Some x
      | None => k i c
      end
  end.

(** The backtracking matcher: [m r i c k] matches [r] at index [i] and hands
    the end index to [k]; a failing continuation makes it try the next
    alternative. *)
Fixpoint m (r : regex) (i : nat) (c : caps) (k : K) {struct r} : option (nat * caps) :=
  match r with
  | Empty => k i c
  | Chr p =>
      match nth_error s i with
      | Some ch => if p ch then k (S i) c else None
      | None => None
      end
  | Seq a b => m a i c (fun j c' => m b j c' k)
  | Alt a b =>
      match m a i c k with
      | Some x => Some x
      | None => m b i c k
      end
  | Star a => starLoop (m a) k (S (length s)) i c
  | Group g a => m a i c (fun j c' => k j (setCap g (i, j) c'))
  | WordB => if wordBoundary i then k i c else None
  | Bol => if i =? 0 then k i c else None
  | Eol => if i =? length s then k i c else None
  end.

Definition matchAt (r : regex) (i : nat) : option (nat * caps) :=
  m r i noCaps (fun j c => Some (j, c)).

(** Try the start positions [i], [i+1], ..., [i+n] in turn. *)
Fixpoint search (r : regex) (i n : nat) : option MatchResult :=
  match matchAt r i with
  | Some (j, c) => Some {| index := i; stop := j; groups := c |}
  | None =>
      match n with
      | O => None
      | S n' => search r (S i) n'
      end
  end.

(** [re.exec(s)] with [re.lastIndex = lastIndex] (0 for a pattern without the
    [g] flag): the leftmost match starting at or after [lastIndex]. *)
Definition execFrom (r : regex) (lastIndex : nat) : option MatchResult :=
  if length s <? lastIndex then None
  else search r lastIndex (length s - lastIndex).

(** [re.test(s)] and [s.match(re)] for a pattern without the [g] flag. *)
Definition exec (r : regex) : option MatchResult := execFrom r 0.

Definition test (r : regex) : bool :=
  match exec r with
  | Some _ => true
  | None => false
  end.

(** The text of a capture span. *)
Definition spanText (sp : nat * nat) : jsstring := substring s (fst sp) (snd sp).

(** [match[1]] and [match[2]]; [None] is [undefined]. *)
Definition group1 (mr : MatchResult) : option jsstring := option_map spanText (cap1 (groups mr)).
Definition group2 (mr : MatchResult) : option jsstring := option_map spanText (cap2 (groups mr)).

(** All matches of a [g] pattern as the built-ins [match] and [replace]
    enumerate them: after an empty match the scan moves one unit forward. *)
Fixpoint matchAllFrom (r : regex) (fuel lastIndex : nat) : list MatchResult :=
  match fuel with
  | O => []
  | S f =>
      match execFrom r lastIndex with
      | None => []
      | Some mr =>
          mr :: matchAllFrom r f (if stop mr =? index mr then S (stop mr) else stop mr)
      end
  end.

Definition matchAll (r : regex) : list MatchResult :=
  matchAllFrom r (S (length s)) 0.

(** The subject with the given matches replaced, from position [pos] on. *)
Fixpoint replaceGo (repl : jsstring) (ms : list MatchResult) (pos : nat) : jsstring :=
  match ms with
  | [] => skipn pos s
  | mr :: ms' => substring s pos (index mr) ++ repl ++ replaceGo repl ms' (stop mr)
  end.

(** [s.replace(re, repl)] for a pattern without the [g] flag. *)
Definition replaceFirst (r : regex) (repl : jsstring) : jsstring :=
  match exec r with
  | Some mr => replaceGo repl [mr] 0
  | None => s
  end.

(** [s.replace(re, repl)] for a [g] pattern. *)
Definition replaceAll (r : regex) (repl : jsstring) : jsstring :=
  replaceGo repl (matchAll r) 0.

(** The loop [while ((mt = re.exec(s)) !== null) body] for a [g] pattern:
    [re.lastIndex] starts at 0 and becomes the end of each match.  The
    accumulator carries what the body mutates.  [None] is a loop that does
    not finish within the fuel, or a body that faults. *)
Fixpoint execLoop (A : Type) (r : regex) (body : MatchResult -> A -> option A)
  (fuel lastIndex : nat) (acc : A) : option A :=
  match fuel with
  | O => None
  | S f =>
      match execFrom r lastIndex with
      | None => Some acc
      | Some mr =>
          match body mr acc with
          | Some acc' => execLoop r body f (stop mr) acc'
          | None => None
          end
      end
  end.

End Matcher.

(** The loop run from a fresh pattern object, with fuel for one round more
    than the subject has characters. *)
Definition whileExec (A : Type) (r : regex) (s : jsstring)
  (body : MatchResult -> A -> option A) (acc : A) : option A :=
  execLoop s r body (S (S (length s))) 0 acc.

(** Sequencing of steps that may fault. *)
Notation "'do' x <- c ; k" :=
  (match c with Some x => k | None => None end)
  (at level 10, x name, c at level 100, k at level 200).

(** [arr.forEach((x, i) => ...)] with the mutated state passed along; [i]
    is the index of the head of [l]. *)
Fixpoint forEachFrom (A St : Type) (f : A -> nat -> St -> option St)
  (l : list A) (i : nat) (st : St) : option St :=
  match l with
  | [] => Some st
  | x :: l' => do st' <- f x i st; forEachFrom f l' (S i) st'
  end.

Definition forEach (A St : Type) (f : A -> nat -> St -> option St)
  (l : list A) (st : St) : option St := forEachFrom f l 0 st.

(* ================================================================== *)
(** ** Data model *)
(* ================================================================== *)

Inductive DiagnosticSeverity := Error | Warning | Information | Hint.

Record Position := { line : Z; character : Z }.

Record Range := { start : Position; end_ : Position }.

Record Diagnostic := {
  severity : DiagnosticSeverity;
  range : Range;
  message : jsstring;
  source : jsstring
}.

Module SymbolInfo.
Record t := mk {
  name : jsstring;
  type : option jsstring;      (* [type?: string] *)
  line : Z;
  character : Z
}.
End SymbolInfo.

Record AnalyzerOptions := { warnOnHostFunctions : bool }.

(** An entry of [blockStack]. *)
Module Block.
Record t := mk { type : jsstring; line : nat }.
End Block.

(** The fields of a [DocumentAnalyzer] instance. *)
Record DocumentAnalyzer := {
  text : jsstring;
  uri : jsstring;
  lines : list jsstring;
  diagnostics : list Diagnostic;
  symbols : list SymbolInfo.t;
  options : AnalyzerOptions
}.

(* ================================================================== *)
(** ** The function registry (shared/src/stdlib.ts) *)
(* ================================================================== *)

(** The [name] fields of [STDLIB_FUNCTIONS], in order; the analyzer reads
    nothing else of a signature. *)
Definition STDLIB_FUNCTIONS : list jsstring := map js
  [ "Upper"; "Lower"; "Trim"; "Replace"; "Contains"; "StartsWith"; "EndsWith";
    "Split"; "Join"; "ToNumber"; "RandomString"; "Length"; "First"; "Last";
    "Append"; "Pop"; "IndexOf"; "Insert"; "RemoveAt"; "RemoveLast"; "Clear";
    "Filter"; "CountIf"; "Sort"; "SortByField"; "Reverse"; "MergeArrays";
    "Take"; "GroupBy"; "RandomChoice"; "Min"; "Max"; "Sum"; "Average";
    "Median"; "Mode"; "Abs"; "Round"; "RandomInt"; "Now"; "Today";
    "ParseDate"; "FormatDate"; "DateAdd"; "DateDiff"; "DatePart"; "TypeOf";
    "IsNull"; "Exists"; "Equal"; "NotEqual"; "Base64Encode"; "Base64Decode";
    "NewGuid"; "CallScript"; "Keys"; "InvokeRestMethod" ]%string.

Definition getAllFunctionNames : list jsstring := STDLIB_FUNCTIONS.

(* ================================================================== *)
(** ** The analyzer's constants and patterns

    Each pattern is given with its source text; there a blank separates a
    star from a closing parenthesis that follows it in the source. *)
(* ================================================================== *)

Definition keywords : list jsstring := map js
  [ "var"; "if"; "then"; "else"; "elseif"; "end"; "switch"; "do"; "case";
    "default"; "while"; "foreach"; "in"; "return"; "fail"; "break";
    "continue"; "true"; "false"; "null"; "and"; "or"; "not"; "is"; "Data" ]%string.

Definition typeKeywords : list jsstring := map js
  [ "number"; "string"; "boolean"; "object"; "array" ]%string.

Definition functionNames : list jsstring := getAllFunctionNames.

Definition ws : regex := Chr isSpace.      (* \s *)
Definition wd : regex := Chr isWordChar.   (* \w *)

(** [/\r$/] *)
Definition reTrailingCR : regex := seqOf [Chr (isChar 13); Eol].

(** [/#.*$/] *)
Definition reComment : regex := seqOf [Chr (isChar 35); Star (Chr isDot); Eol].

(** [/Q[^Q]*Q/g], where Q stands for the double quote *)
Definition reStringLiteral : regex :=
  seqOf [Chr (isChar 34); Star (Chr (notChar 34)); Chr (isChar 34)].

(** [/Q/g], where Q stands for the double quote *)
Definition reQuote : regex := Chr (isChar 34).

(** [/^\s*elseif\b/i] *)
Definition reElseif : regex := seqOf [Bol; Star ws; litCI "elseif"; WordB].

(** [/\b(if|while|foreach|switch)\b/] *)
Definition reBlockOpen : regex :=
  seqOf [WordB;
         Group G1 (Alt (lit "if") (Alt (lit "while") (Alt (lit "foreach") (lit "switch"))));
         WordB].

(** [/\bend\b/] *)
Definition reEnd : regex := seqOf [WordB; lit "end"; WordB].

(** [/\b(break|continue)\b/] *)
Definition reBreakContinue : regex :=
  seqOf [WordB; Group G1 (Alt (lit "break") (lit "continue")); WordB].

(** [/^\s*var\s+/] *)
Definition reVarStart : regex := seqOf [Bol; Star ws; lit "var"; Plus ws].

(** [/^var\s+\w+\s*:\s*(\w+)/] *)
Definition reTypeAnnot : regex :=
  seqOf [Bol; lit "var"; Plus ws; Plus wd; Star ws; Chr (isChar 58); Star ws;
         Group G1 (Plus wd)].

(** [/\b([A-Z][a-zA-Z0-9]* )\s*\(/g] *)
Definition reFuncCall : regex :=
  seqOf [WordB; Group G1 (Seq (Chr isUpper) (Star (Chr isAlnum))); Star ws;
         Chr (isChar 40)].

(** [/\bvar\s+(\w+)(?:\s*:\s*(\w+))?/g] *)
Definition reVarDecl : regex :=
  seqOf [WordB; lit "var"; Plus ws; Group G1 (Plus wd);
         Opt (seqOf [Star ws; Chr (isChar 58); Star ws; Group G2 (Plus wd)])].

(** [/\bforeach\s+(\w+)\s+in\b/] *)
Definition reForeach : regex :=
  seqOf [WordB; lit "foreach"; Plus ws; Group G1 (Plus wd); Plus ws; lit "in"; WordB].

(** [/\b([a-zA-Z_]\w*(?:\.[a-zA-Z_]\w* )+)\s*=/g] *)
Definition rePropAssign : regex :=
  seqOf [WordB;
         Group G1 (seqOf [Chr isIdentStart; Star wd;
                          Plus (seqOf [Chr (isChar 46); Chr isIdentStart; Star wd])]);
         Star ws; Chr (isChar 61)].

(** [/\b([a-zA-Z_]\w* )\b/g] *)
Definition reIdent : regex :=
  seqOf [WordB; Group G1 (Seq (Chr isIdentStart) (Star wd)); WordB].

(** [/^\s*\(/] *)
Definition reCallParen : regex := seqOf [Bol; Star ws; Chr (isChar 40)].

(* ================================================================== *)
(** ** The analyzer *)
(* ================================================================== *)

Definition defaultOptions : AnalyzerOptions := {| warnOnHostFunctions := true |}.

(** The constructor: split on LF and drop one trailing CR of each line. *)
Definition new_DocumentAnalyzer (text uri : jsstring) (options : AnalyzerOptions)
  : DocumentAnalyzer :=
  {| text := text;
     uri := uri;
     lines := map (fun line => replaceFirst line reTrailingCR []) (split 10 text);
     diagnostics := [];
     symbols := [];
     options := options |}.

(** The object literal that [addDiagnostic] builds. *)
Definition newDiagnostic (startLine startChar endLine endChar : Z)
  (message : jsstring) (severity : DiagnosticSeverity) : Diagnostic :=
  {| severity := severity;
     range := {| start := {| line := startLine; character := startChar |};
                 end_ := {| line := endLine; character := endChar |} |};
     message := message;
     source := js "jyro" |}.

(** [addDiagnostic]: push onto [this.diagnostics]. *)
Definition addDiagnostic (startLine startChar endLine endChar : Z)
  (message : jsstring) (severity : DiagnosticSeverity)
  (diagnostics : list Diagnostic) : list Diagnostic :=
  diagnostics ++ [newDiagnostic startLine startChar endLine endChar message severity].

(** A comment line or an empty line: every pass skips it. *)
Definition skipped (trimmed : jsstring) : bool :=
  startsWith (js "#") trimmed || (length trimmed =? 0).

(** The copy of a trimmed line that keyword detection looks at: comment
    removed, then every string literal replaced by two quote characters. *)
Definition withoutStrings (trimmed : jsstring) : jsstring :=
  let withoutComments := replaceFirst trimmed reComment [] in
  replaceAll withoutComments reStringLiteral [dq; dq].

(** *** checkSyntax *)

(** The locals of [checkSyntax] together with the diagnostics pushed so
    far.  [blockStack] is the array, its top is the last element. *)
Record SyntaxState := {
  blockStack : list Block.t;
  inLoop : Z;
  emitted : list Diagnostic
}.

Definition isLoop (t : jsstring) : bool :=
  jseqb t (js "while") || jseqb t (js "foreach").

(** [arr[arr.length - 1]] *)
Definition top (A : Type) (arr : list A) : option A := nth_error arr (length arr - 1).

Definition msgUnclosedString : jsstring := js "Unclosed string literal".

Definition msgUnexpectedEnd : jsstring :=
  js "Unexpected " ++ [dq] ++ js "end" ++ [dq] ++ js " without matching block start".

Definition msgLoopControl (kw : jsstring) : jsstring :=
  [dq] ++ kw ++ [dq] ++ js " can only be used inside loops".

Definition msgUnknownType (t : jsstring) : jsstring :=
  js "Unknown type " ++ [dq] ++ t ++ [dq] ++
  js ". Expected: number, string, boolean, object, or array".

Definition msgHostFunction (f : jsstring) : jsstring :=
  js "Referenced function " ++ [dq] ++ f ++ [dq] ++
  js " will need to be made available at runtime".

Definition msgUnclosedBlock (t : jsstring) : jsstring :=
  js "Unclosed " ++ [dq] ++ t ++ [dq] ++ js " block - missing " ++ [dq] ++ js "end" ++ [dq].

Definition msgUndefinedVariable (v : jsstring) : jsstring :=
  js "Undefined variable " ++ [dq] ++ v ++ [dq].

(** An odd number of quote characters on the raw line. *)
Definition checkUnclosedString (lineIndex : nat) (line : jsstring)
  (st : SyntaxState) : SyntaxState :=
  let stringMatches := matchAll line reQuote in
  if negb (length stringMatches mod 2 =? 0) then
    {| blockStack := blockStack st; inLoop := inLoop st;
       emitted := addDiagnostic (Z.of_nat lineIndex) 0 (Z.of_nat lineIndex)
                    (Z.of_nat (length line)) msgUnclosedString Error (emitted st) |}
  else st.

(** A block opener pushes an entry; [elseif] continues a block. *)
Definition checkBlockStart (lineIndex : nat) (trimmed trimmedWithoutStrings : jsstring)
  (st : SyntaxState) : option SyntaxState :=
  let startsWithElseif := test trimmed reElseif in
  if negb startsWithElseif && test trimmedWithoutStrings reBlockOpen then
    match exec trimmedWithoutStrings reBlockOpen with
    | Some mt =>
        do ty <- group1 trimmedWithoutStrings mt;
        Some {| blockStack := blockStack st ++ [Block.mk ty lineIndex];
                inLoop := if isLoop ty then (inLoop st + 1)%Z else inLoop st;
                emitted := emitted st |}
    | None => Some st
    end
  else Some st.

(** [end] pops the innermost block, or is reported when none is open. *)
Definition checkBlockEnd (lineIndex : nat) (trimmed trimmedWithoutStrings : jsstring)
  (st : SyntaxState) : SyntaxState :=
  if test trimmedWithoutStrings reEnd then
    match top (blockStack st) with
    | None =>
        {| blockStack := blockStack st; inLoop := inLoop st;
           emitted := addDiagnostic (Z.of_nat lineIndex) 0 (Z.of_nat lineIndex)
                        (Z.of_nat (length trimmed)) msgUnexpectedEnd Error (emitted st) |}
    | Some block =>
        {| blockStack := removelast (blockStack st);
           inLoop := if isLoop (Block.type block) then (inLoop st - 1)%Z else inLoop st;
           emitted := emitted st |}
    end
  else st.

(** [break] and [continue] need an enclosing loop. *)
Definition checkLoopControl (lineIndex : nat) (trimmed trimmedWithoutStrings : jsstring)
  (st : SyntaxState) : SyntaxState :=
  if test trimmedWithoutStrings reBreakContinue && (inLoop st =? 0)%Z then
    {| blockStack := blockStack st; inLoop := inLoop st;
       emitted := addDiagnostic (Z.of_nat lineIndex) 0 (Z.of_nat lineIndex)
                    (Z.of_nat (length trimmed))
                    (msgLoopControl
                       (if strIncludes (js "break") trimmedWithoutStrings
                        then js "break" else js "continue"))
                    Error (emitted st) |}
  else st.

(** The type of an annotated [var] declaration is one of [typeKeywords]. *)
Definition checkTypeAnnotation (lineIndex : nat) (line trimmed : jsstring)
  (st : SyntaxState) : option SyntaxState :=
  if test trimmed reVarStart then
    match exec trimmed reTypeAnnot with
    | Some typeAnnotMatch =>
        do ty <- group1 trimmed typeAnnotMatch;
        if negb (includes typeKeywords ty) then
          let pos := indexOf ty line in
          Some {| blockStack := blockStack st; inLoop := inLoop st;
                  emitted := addDiagnostic (Z.of_nat lineIndex) pos (Z.of_nat lineIndex)
                               (pos + Z.of_nat (length ty))%Z
                               (msgUnknownType ty) Error (emitted st) |}
        else Some st
    | None => Some st
    end
  else Some st.

(** The body of the loop over [funcCallPattern] matches. *)
Definition hostFunctionBody (lineIndex : nat) (line trimmedWithoutStrings : jsstring)
  (funcMatch : MatchResult) (ds : list Diagnostic) : option (list Diagnostic) :=
  do funcName <- group1 trimmedWithoutStrings funcMatch;
  if includes keywords funcName then Some ds
  else if negb (includes functionNames funcName) then
    let leadingWhitespace := length line - length (trimStart line) in
    let pos := leadingWhitespace + index funcMatch in
    Some (addDiagnostic (Z.of_nat lineIndex) (Z.of_nat pos) (Z.of_nat lineIndex)
            (Z.of_nat (pos + length funcName))
            (msgHostFunction funcName) Information ds)
  else Some ds.

(** PascalCase calls outside the registry, when the option asks for them. *)
Definition checkHostFunctions (options : AnalyzerOptions) (lineIndex : nat)
  (line trimmedWithoutStrings : jsstring) (st : SyntaxState) : option SyntaxState :=
  if warnOnHostFunctions options then
    do ds <- whileExec reFuncCall trimmedWithoutStrings
               (hostFunctionBody lineIndex line trimmedWithoutStrings) (emitted st);
    Some {| blockStack := blockStack st; inLoop := inLoop st; emitted := ds |}
  else Some st.

(** The callback of [this.lines.forEach] in [checkSyntax].  The six bracket
    counts and the test for mixed [=] and [==] are computed by the source
    and used by nothing; they are left out. *)
Definition checkLine (options : AnalyzerOptions) (line : jsstring) (lineIndex : nat)
  (st : SyntaxState) : option SyntaxState :=
  let trimmed := trim line in
  if skipped trimmed then Some st
  else
    let trimmedWithoutStrings := withoutStrings trimmed in
    let st1 := checkUnclosedString lineIndex line st in
    do st2 <- checkBlockStart lineIndex trimmed trimmedWithoutStrings st1;
    let st3 := checkBlockEnd lineIndex trimmed trimmedWithoutStrings st2 in
    let st4 := checkLoopControl lineIndex trimmed trimmedWithoutStrings st3 in
    do st5 <- checkTypeAnnotation lineIndex line trimmed st4;
    checkHostFunctions options lineIndex line trimmedWithoutStrings st5.

(** The report for blocks still open after the last line: only the top of
    the stack.  Reading [length] of a line that does not exist faults. *)
Definition checkUnclosedBlocks (lines : list jsstring) (st : SyntaxState)
  : option (list Diagnostic) :=
  match top (blockStack st) with
  | Some unclosed =>
      do l <- nth_error lines (Block.line unclosed);
      Some (addDiagnostic (Z.of_nat (Block.line unclosed)) 0
              (Z.of_nat (Block.line unclosed)) (Z.of_nat (length l))
              (msgUnclosedBlock (Block.type unclosed)) Error (emitted st))
  | None => Some (emitted st)
  end.

Definition withDiagnostics (this : DocumentAnalyzer) (ds : list Diagnostic)
  : DocumentAnalyzer :=
  {| text := text this; uri := uri this; lines := lines this;
     diagnostics := ds; symbols := symbols this; options := options this |}.

Definition withSymbols (this : DocumentAnalyzer) (syms : list SymbolInfo.t)
  : DocumentAnalyzer :=
  {| text := text this; uri := uri this; lines := lines this;
     diagnostics := diagnostics this; symbols := syms; options := options this |}.

Definition checkSyntax (this : DocumentAnalyzer) : option DocumentAnalyzer :=
  do st <- forEach (checkLine (options this)) (lines this)
             {| blockStack := []; inLoop := 0; emitted := diagnostics this |};
  do ds <- checkUnclosedBlocks (lines this) st;
  Some (withDiagnostics this ds).

(** *** extractSymbols *)

(** What the pass mutates: [this.symbols] and the local set [seenProps]. *)
Record SymbolState := {
  table : list SymbolInfo.t;
  seenProps : list jsstring
}.

(** The body of the loop over [varPattern] matches. *)
Definition varDeclBody (lineIndex : nat) (line trimmed : jsstring)
  (varMatch : MatchResult) (st : SymbolState) : option SymbolState :=
  do varName <- group1 trimmed varMatch;
  let varType := group2 trimmed varMatch in
  let pos := indexOfFrom varName line (index varMatch) in
  Some {| table := table st ++ [SymbolInfo.mk varName varType (Z.of_nat lineIndex) pos];
          seenProps := seenProps st |}.

(** The iteration variable of a [foreach]. *)
Definition extractForeach (lineIndex : nat) (line trimmed : jsstring)
  (st : SymbolState) : option SymbolState :=
  match exec trimmed reForeach with
  | Some foreachMatch =>
      do varName <- group1 trimmed foreachMatch;
      let pos := indexOf varName line in
      Some {| table := table st ++
                       [SymbolInfo.mk varName (Some (js "iterator")) (Z.of_nat lineIndex) pos];
              seenProps := seenProps st |}
  | None => Some st
  end.

(** The body of the loop over [propAssignPattern] matches: only the first
    assignment to a path is recorded. *)
Definition propAssignBody (lineIndex : nat) (line trimmed : jsstring)
  (propMatch : MatchResult) (st : SymbolState) : option SymbolState :=
  do propPath <- group1 trimmed propMatch;
  if negb (includes (seenProps st) propPath) then
    let pos := indexOf propPath line in
    Some {| table := table st ++
                     [SymbolInfo.mk propPath (Some (js "property")) (Z.of_nat lineIndex) pos];
            seenProps := seenProps st ++ [propPath] |}
  else Some st.

(** The callback of [this.lines.forEach] in [extractSymbols]. *)
Definition extractLine (line : jsstring) (lineIndex : nat) (st : SymbolState)
  : option SymbolState :=
  let trimmed := trim line in
  if skipped trimmed then Some st
  else
    do st1 <- whileExec reVarDecl trimmed (varDeclBody lineIndex line trimmed) st;
    do st2 <- extractForeach lineIndex line trimmed st1;
    whileExec rePropAssign trimmed (propAssignBody lineIndex line trimmed) st2.

Definition extractSymbols (this : DocumentAnalyzer) : option DocumentAnalyzer :=
  do st <- forEach extractLine (lines this)
             {| table := symbols this; seenProps := [] |};
  Some (withSymbols this (table st)).

(** *** validateSemantics *)

(** [s[i] === c] *)
Definition charAtIs (s : jsstring) (i : nat) (c : char) : bool :=
  match nth_error s i with
  | Some x => (x =? c)%N
  | None => false
  end.
Arguments charAtIs s i c%_N.

(** The body of the loop over identifier-shaped tokens. *)
Definition identBody (declaredVars : list jsstring) (lineIndex : nat)
  (lineWithoutComments : jsstring) (mt : MatchResult) (ds : list Diagnostic)
  : option (list Diagnostic) :=
  do varName <- group1 lineWithoutComments mt;
  let pos := index mt in
  let endPos := pos + length varName in
  if (0 <? pos) && charAtIs lineWithoutComments (pos - 1) 46 then Some ds
  else if test (skipn endPos lineWithoutComments) reCallParen then Some ds
  else if includes keywords varName || includes typeKeywords varName ||
          existsb (fun f => jseqb (toLowerCase f) (toLowerCase varName)) functionNames
       then Some ds
  else if negb (includes declaredVars varName) then
    Some (addDiagnostic (Z.of_nat lineIndex) (Z.of_nat pos) (Z.of_nat lineIndex)
            (Z.of_nat (pos + length varName))
            (msgUndefinedVariable varName) Warning ds)
  else Some ds.

(** The callback of [this.lines.forEach] in [validateSemantics]. *)
Definition validateLine (declaredVars : list jsstring) (line : jsstring)
  (lineIndex : nat) (ds : list Diagnostic) : option (list Diagnostic) :=
  let trimmed := trim line in
  if skipped trimmed then Some ds
  else
    let lineWithoutStrings := replaceAll line reStringLiteral [dq; dq] in
    let lineWithoutComments := replaceFirst lineWithoutStrings reComment [] in
    whileExec reIdent lineWithoutComments
      (identBody declaredVars lineIndex lineWithoutComments) ds.

Definition validateSemantics (this : DocumentAnalyzer) : option DocumentAnalyzer :=
  let declaredVars := map SymbolInfo.name (symbols this) ++ [js "Data"] in
  do ds <- forEach (validateLine declaredVars) (lines this) (diagnostics this);
  Some (withDiagnostics this ds).

(** *** The public methods *)

(** [analyze()]: the returned list and the instance afterwards. *)
Definition analyze (this : DocumentAnalyzer)
  : option (list Diagnostic * DocumentAnalyzer) :=
  let this0 := withSymbols (withDiagnostics this []) [] in
  do this1 <- checkSyntax this0;
  do this2 <- extractSymbols this1;
  do this3 <- validateSemantics this2;
  Some (diagnostics this3, this3).

(** [getSymbols()]: the table, extracted now when it is still empty. *)
Definition getSymbols (this : DocumentAnalyzer)
  : option (list SymbolInfo.t * DocumentAnalyzer) :=
  if length (symbols this) =? 0 then
    do this1 <- extractSymbols this;
    Some (symbols this1, this1)
  else Some (symbols this, this).

(* ================================================================== *)
(** ** What a match is: the declarative reading of a pattern *)
(* ================================================================== *)

(** [iter R i c j c']: zero or more rounds of [R], each moving forward,
    lead from index [i] with captures [c] to index [j] with captures [c']. *)
Inductive iter (R : nat -> caps -> nat -> caps -> Prop)
  : nat -> caps -> nat -> caps -> Prop :=
| iter_done : forall i c, iter R i c i c
| iter_step : forall i c j c' k c'',
    R i c j c' -> i < j -> iter R j c' k c'' -> iter R i c k c''.

Section Spans.

Variable s : jsstring.

(** [Span r i c j c']: the characters of [s] from [i] up to [j] can be read
    as [r], turning the captures [c] into [c'].  The matcher only ever
    returns such spans. *)
Fixpoint Span (r : regex) (i : nat) (c : caps) (j : nat) (c' : caps) : Prop :=
  match r with
  | Empty => j = i /\ c' = c
  | Chr p => exists ch, nth_error s i = Some ch /\ p ch = true /\ j = S i /\ c' = c
  | Seq a b => exists k ck, Span a i c k ck /\ Span b k ck j c'
  | Alt a b => Span a i c j c' \/ Span b i c j c'
  | Star a => iter (Span a) i c j c'
  | Group g a => exists c0, Span a i c j c0 /\ c' = setCap g (i, j) c0
  | WordB => wordBoundary s i = true /\ j = i /\ c' = c
  | Bol => i = 0 /\ j = i /\ c' = c
  | Eol => i = length s /\ j = i /\ c' = c
  end.

(** Both ends of every capture lie inside the subject, in order. *)
Definition spanOk (sp : option (nat * nat)) : Prop :=
  match sp with
  | Some (a, b) => a <= b <= length s
  | None => True
  end.

Definition capsOk (c : caps) : Prop := spanOk (cap1 c) /\ spanOk (cap2 c).

(** A result of [exec]: a span of the pattern read from fresh captures. *)
Definition IsMatch (r : regex) (mr : MatchResult) : Prop :=
  index mr <= length s /\ Span r (index mr) noCaps (stop mr) (groups mr).

End Spans.

(** The least number of characters a match of the pattern consumes. *)
Fixpoint minLen (r : regex) : nat :=
  match r with
  | Chr _ => 1
  | Seq a b => minLen a + minLen b
  | Alt a b => Nat.min (minLen a) (minLen b)
  | Group _ a => minLen a
  | Empty | Star _ | WordB | Bol | Eol => 0
  end.

(** Whether every match of the pattern sets capture 1. *)
Fixpoint definesG1 (r : regex) : bool :=
  match r with
  | Group G1 _ => true
  | Group G2 a => definesG1 a
  | Seq a b => definesG1 a || definesG1 b
  | Alt a b => definesG1 a && definesG1 b
  | Empty | Chr _ | Star _ | WordB | Bol | Eol => false
  end.

(** A loop body run over a list of matches in order. *)
Fixpoint foldM (A B : Type) (f : B -> A -> option A) (l : list B) (acc : A) : option A :=
  match l with
  | [] => Some acc
  | x :: l' => do acc' <- f x acc; foldM f l' acc'
  end.

(* ================================================================== *)
(** ** The shapes of the diagnostics each pass can push *)
(* ================================================================== *)

(** The checks of [checkSyntax] that look at one line. *)
Inductive DiagKind := KString | KEnd | KLoop | KType | KHost.

(** A diagnostic that the check [k] can push while [checkSyntax] looks at
    line [i], whose raw text is [l]. *)
Inductive SyntaxDiag (options : AnalyzerOptions) (i : nat) (l : jsstring)
  : DiagKind -> Diagnostic -> Prop :=
| SD_string :
    SyntaxDiag options i l KString
      (newDiagnostic (Z.of_nat i) 0 (Z.of_nat i) (Z.of_nat (length l))
         msgUnclosedString Error)
| SD_end :
    SyntaxDiag options i l KEnd
      (newDiagnostic (Z.of_nat i) 0 (Z.of_nat i) (Z.of_nat (length (trim l)))
         msgUnexpectedEnd Error)
| SD_loop : forall kw,
    kw = js "break" \/ kw = js "continue" ->
    SyntaxDiag options i l KLoop
      (newDiagnostic (Z.of_nat i) 0 (Z.of_nat i) (Z.of_nat (length (trim l)))
         (msgLoopControl kw) Error)
| SD_type : forall ty pos,
    (0 <= pos)%Z -> includes typeKeywords ty = false ->
    SyntaxDiag options i l KType
      (newDiagnostic (Z.of_nat i) pos (Z.of_nat i) (pos + Z.of_nat (length ty))
         (msgUnknownType ty) Error)
| SD_host : forall f pos,
    warnOnHostFunctions options = true ->
    includes keywords f = false -> includes functionNames f = false ->
    SyntaxDiag options i l KHost
      (newDiagnostic (Z.of_nat i) (Z.of_nat pos) (Z.of_nat i)
         (Z.of_nat (pos + length f)) (msgHostFunction f) Information).

(** A diagnostic that [validateSemantics] can push while it looks at line [i]. *)
Inductive SemanticDiag (i : nat) : Diagnostic -> Prop :=
| SemD_undefined : forall v pos,
    SemanticDiag i
      (newDiagnostic (Z.of_nat i) (Z.of_nat pos) (Z.of_nat i)
         (Z.of_nat (pos + length v)) (msgUndefinedVariable v) Warning).

(** A diagnostic of [checkSyntax] for one of the lines [lo], ..., [hi - 1]. *)
Definition SyntaxDiagIn (options : AnalyzerOptions) (lines : list jsstring)
  (lo hi : nat) (d : Diagnostic) : Prop :=
  exists j l k, lo <= j < hi /\ nth_error lines j = Some l /\ SyntaxDiag options j l k d.

(** A diagnostic of [validateSemantics] for one of the lines [lo], ..., [hi - 1]. *)
Definition SemanticDiagIn (lo hi : nat) (d : Diagnostic) : Prop :=
  exists j, lo <= j < hi /\ SemanticDiag j d.

(** [ds'] is [ds] with diagnostics of shape [Q] pushed after it. *)
Definition Appends (Q : Diagnostic -> Prop) (ds ds' : list Diagnostic) : Prop :=
  exists D, ds' = ds ++ D /\ Forall Q D.

(** The stack entry [b] was pushed for a line of the document: the first
    block keyword of that line's stripped copy is the entry's kind. *)
Definition OpenedAt (lines : list jsstring) (b : Block.t) : Prop :=
  exists l mt,
    nth_error lines (Block.line b) = Some l /\
    skipped (trim l) = false /\
    test (trim l) reElseif = false /\
    exec (withoutStrings (trim l)) reBlockOpen = Some mt /\
    group1 (withoutStrings (trim l)) mt = Some (Block.type b).

(** The number of [while] and [foreach] entries on the stack. *)
Definition loopEntries (stack : list Block.t) : nat :=
  length (filter (fun b => isLoop (Block.type b)) stack).

(** The invariant of the locals of [checkSyntax] before line [k]. *)
Definition StackOk (lines : list jsstring) (k : nat) (st : SyntaxState) : Prop :=
  Forall (fun b => Block.line b < k /\ OpenedAt lines b) (blockStack st) /\
  inLoop st = Z.of_nat (loopEntries (blockStack st)).

(** The locals of [checkSyntax] before the first line. *)
Definition initialSyntaxState (ds : list Diagnostic) : SyntaxState :=
  {| blockStack := []; inLoop := 0; emitted := ds |}.

(** The state in which line [lineIndex] reaches the loop-control check:
    its own opener and its own [end] have been applied. *)
Definition atLoopCheck (lineIndex : nat) (line : jsstring) (st : SyntaxState)
  : option SyntaxState :=
  let trimmed := trim line in
  if skipped trimmed then Some st
  else
    do st2 <- checkBlockStart lineIndex trimmed (withoutStrings trimmed)
                (checkUnclosedString lineIndex line st);
    Some (checkBlockEnd lineIndex trimmed (withoutStrings trimmed) st2).

(** What the unclosed-string check pushes for a line. *)
Definition stringReport (lineIndex : nat) (line : jsstring) : list Diagnostic :=
  if skipped (trim line) then []
  else if negb (length (matchAll line reQuote) mod 2 =? 0) then
    [newDiagnostic (Z.of_nat lineIndex) 0 (Z.of_nat lineIndex) (Z.of_nat (length line))
       msgUnclosedString Error]
  else [].

(** The keyword that the loop-control message names. *)
Definition loopKeyword (stripped : jsstring) : jsstring :=
  if strIncludes (js "break") stripped then js "break" else js "continue".

(** What the loop-control check pushes for a line that reaches it in state
    [st]. *)
Definition loopReport (lineIndex : nat) (line : jsstring) (st : SyntaxState)
  : list Diagnostic :=
  let trimmed := trim line in
  if skipped trimmed then []
  else if test (withoutStrings trimmed) reBreakContinue && (inLoop st =? 0)%Z then
    [newDiagnostic (Z.of_nat lineIndex) 0 (Z.of_nat lineIndex)
       (Z.of_nat (length trimmed)) (msgLoopControl (loopKeyword (withoutStrings trimmed)))
       Error]
  else [].

(** What one match of [funcCallPattern] contributes: a note for a name that
    is neither a keyword nor in the registry. *)
Definition hostReport (lineIndex : nat) (line stripped : jsstring) (mr : MatchResult)
  : list Diagnostic :=
  match group1 stripped mr with
  | Some funcName =>
      if includes keywords funcName || includes functionNames funcName then []
      else
        let pos := length line - length (trimStart line) + index mr in
        [newDiagnostic (Z.of_nat lineIndex) (Z.of_nat pos) (Z.of_nat lineIndex)
           (Z.of_nat (pos + length funcName)) (msgHostFunction funcName) Information]
  | None => []
  end.

(** The notes of one line: one per call match, in order. *)
Definition hostReports (options : AnalyzerOptions) (lineIndex : nat) (line : jsstring)
  : list Diagnostic :=
  if skipped (trim line) then []
  else if warnOnHostFunctions options then
    flat_map (hostReport lineIndex line (withoutStrings (trim line)))
      (matchAll (withoutStrings (trim line)) reFuncCall)
  else [].

(** The notes of the lines [l], the first of which has index [i]. *)
Fixpoint hostReportsFrom (options : AnalyzerOptions) (l : list jsstring) (i : nat)
  : list Diagnostic :=
  match l with
  | [] => []
  | x :: l' => hostReports options i x ++ hostReportsFrom options l' (S i)
  end.

(** The report for the innermost block still open at the end, if any. *)
Definition unclosedReport (lines : list jsstring) (stack : list Block.t)
  : list Diagnostic :=
  match top stack with
  | Some unclosed =>
      match nth_error lines (Block.line unclosed) with
      | Some l =>
          [newDiagnostic (Z.of_nat (Block.line unclosed)) 0
             (Z.of_nat (Block.line unclosed)) (Z.of_nat (length l))
             (msgUnclosedBlock (Block.type unclosed)) Error]
      | None => []
      end
  | None => []
  end.

Definition isInformation (d : Diagnostic) : bool :=
  match severity d with
  | Information => true
  | _ => false
  end.

(** A message of the unclosed-block report. *)
Definition isUnclosedBlockMsg (msg : jsstring) : bool :=
  startsWith (js "Unclosed " ++ [dq]) msg.


(** Every character a match of the pattern consumes satisfies [P]. *)
Fixpoint CharsIn (P : char -> Prop) (r : regex) : Prop :=
  match r with
  | Chr p => forall ch, p ch = true -> P ch
  | Seq a b | Alt a b => CharsIn P a /\ CharsIn P b
  | Star a | Group _ a => CharsIn P a
  | Empty | WordB | Bol | Eol => True
  end.

(** Every character that a match of the pattern puts in capture 1
    satisfies [P]. *)
Fixpoint G1CharsIn (P : char -> Prop) (r : regex) : Prop :=
  match r with
  | Group G1 a => CharsIn P a
  | Group G2 a | Star a => G1CharsIn P a
  | Seq a b | Alt a b => G1CharsIn P a /\ G1CharsIn P b
  | Empty | Chr _ | WordB | Bol | Eol => True
  end.

(** A name with a dot in it: a property path. *)
Definition isDotted (name : jsstring) : bool := existsb (fun c => (c =? 46)%N) name.

(** A symbol with type tag [property] whose name is a dotted path. *)
Definition isPropertySymbol (sy : SymbolInfo.t) : bool :=
  match SymbolInfo.type sy with
  | Some t => jseqb t (js "property") && isDotted (SymbolInfo.name sy)
  | None => false
  end.

(** The dotted paths that have a [property] symbol, in table order. *)
Definition propertyPaths (syms : list SymbolInfo.t) : list jsstring :=
  map SymbolInfo.name (filter isPropertySymbol syms).

(** The paths that the assignments of a line target, in order. *)
Definition assignedPaths (line : jsstring) : list jsstring :=
  if skipped (trim line) then []
  else flat_map (fun mr => match group1 (trim line) mr with
                           | Some p => [p]
                           | None => []
                           end)
         (matchAll (trim line) rePropAssign).

(** Some symbol of the table has name [p] and type tag [property]. *)
Definition hasPropertySymbol (syms : list SymbolInfo.t) (p : jsstring) : Prop :=
  exists ln ch, In (SymbolInfo.mk p (Some (js "property")) ln ch) syms.

(** The symbol sits on the first line of the document that assigns to its
    name. *)
Definition FirstAssigned (lines : list jsstring) (sy : SymbolInfo.t) : Prop :=
  exists ln l,
    SymbolInfo.line sy = Z.of_nat ln /\
    nth_error lines ln = Some l /\
    In (SymbolInfo.name sy) (assignedPaths l) /\
    forall j l', j < ln -> nth_error lines j = Some l' ->
                 ~ In (SymbolInfo.name sy) (assignedPaths l').

(** The invariant of [extractSymbols] once the lines before [k] are done:
    the dotted property symbols are the dotted members of [seenProps],
    which has no duplicates; every member of [seenProps] has its symbol;
    every path assigned on a line before [k] is in [seenProps]; and every
    dotted property symbol sits on the first line that assigns to it. *)
Definition SymbolsOk (lines : list jsstring) (k : nat) (st : SymbolState) : Prop :=
  propertyPaths (table st) = filter isDotted (seenProps st) /\
  NoDup (seenProps st) /\
  (forall p, In p (seenProps st) -> hasPropertySymbol (table st) p) /\
  (forall j l' p, j < k -> nth_error lines j = Some l' ->
                  In p (assignedPaths l') -> In p (seenProps st)) /\
  (forall sy, In sy (table st) -> isPropertySymbol sy = true ->
              FirstAssigned lines sy).

(* ================================================================== *)
(** ** Well-formed diagnostics and the documents of the examples *)
(* ================================================================== *)

(** A diagnostic that sits on one existing line of the document, with its
    columns in order, tagged with the language. *)
Definition wellFormed (lines : list jsstring) (d : Diagnostic) : Prop :=
  line (start (range d)) = line (end_ (range d)) /\
  (0 <= line (start (range d)) < Z.of_nat (length lines))%Z /\
  (0 <= character (start (range d)) <= character (end_ (range d)))%Z /\
  source d = js "jyro".

(** LF *)
Definition nl : char := 10%N.

Definition exampleUri : jsstring := js "file:///example.jyro".

(** [var x = 5], [if x > 3 then], [  y = 10], [end] *)
Definition docAssign : jsstring :=
  js "var x = 5" ++ [nl] ++ js "if x > 3 then" ++ [nl] ++ js "  y = 10" ++ [nl] ++ js "end".

(** A call that follows a string literal: [x = Qabc Q + Foo(1)], the two Q
    being double quotes around abc. *)
Definition docCallAfterString : jsstring :=
  js "x = " ++ [dq] ++ js "abc" ++ [dq] ++ js " + Foo(1)".

(** A comment line that holds one double quote. *)
Definition docQuoteInComment : jsstring := js "# " ++ [dq].

(** A statement with a string literal that is not closed. *)
Definition docOpenString : jsstring := js "x = " ++ [dq] ++ js "abc".


(** A loop over three lines. *)
Definition docLoop : jsstring :=
  js "foreach x in xs do" ++ [nl] ++ js "  break" ++ [nl] ++ js "end".

(** Two assignments to one path and one to another. *)
Definition docPaths : jsstring :=
  js "Data.orders = 1" ++ [nl] ++ js "Data.orders = 2" ++ [nl] ++ js "Data.customers = 3".

(** An [if] left open inside a [while] left open. *)
Definition docNested : jsstring := js "while a" ++ [nl] ++ js "if b".

(** A [while] that is never closed. *)
Definition docOpenWhile : jsstring :=
  js "while x > 0 do" ++ [nl] ++ js "  x = x - 1".

(* ================================================================== *)
(** ** The passes as reports: what each line contributes *)
(* ================================================================== *)

(** [lines.join(sep)] for a one-character separator: the inverse of
    [split]. *)
Fixpoint joinLines (sep : char) (ls : list jsstring) : jsstring :=
  match ls with
  | [] => []
  | [l] => l
  | l :: ls' => l ++ sep :: joinLines sep ls'
  end.
Arguments joinLines sep%_N ls.

(** CR *)
Definition cr : char := 13%N.

(** The text with every LF turned into CR LF. *)
Fixpoint toCRLF (t : jsstring) : jsstring :=
  match t with
  | [] => []
  | c :: t' => if (c =? nl)%N then cr :: nl :: toCRLF t' else c :: toCRLF t'
  end.

(** The last character of a string. *)
Definition lastChar (s : jsstring) : option char := nth_error s (length s - 1).

(** The state in which line [lineIndex] reaches the check of [end]: its
    own opener has been applied. *)
Definition atEndCheck (lineIndex : nat) (line : jsstring) (st : SyntaxState)
  : option SyntaxState :=
  let trimmed := trim line in
  if skipped trimmed then Some st
  else checkBlockStart lineIndex trimmed (withoutStrings trimmed)
         (checkUnclosedString lineIndex line st).

(** What the check of [end] pushes for a line that reaches it in state
    [st]. *)
Definition endReport (lineIndex : nat) (line : jsstring) (st : SyntaxState)
  : list Diagnostic :=
  let trimmed := trim line in
  if skipped trimmed then []
  else if test (withoutStrings trimmed) reEnd then
    match top (blockStack st) with
    | None =>
        [newDiagnostic (Z.of_nat lineIndex) 0 (Z.of_nat lineIndex)
           (Z.of_nat (length trimmed)) msgUnexpectedEnd Error]
    | Some _ => []
    end
  else [].

(** What the check of type annotations pushes for a line. *)
Definition typeReport (lineIndex : nat) (line : jsstring) : list Diagnostic :=
  let trimmed := trim line in
  if skipped trimmed then []
  else if test trimmed reVarStart then
    match exec trimmed reTypeAnnot with
    | Some typeAnnotMatch =>
        match group1 trimmed typeAnnotMatch with
        | Some ty =>
            if includes typeKeywords ty then []
            else
              [newDiagnostic (Z.of_nat lineIndex) (indexOf ty line) (Z.of_nat lineIndex)
                 (indexOf ty line + Z.of_nat (length ty)) (msgUnknownType ty) Error]
        | None => []
        end
    | None => []
    end
  else [].

(** All that [checkSyntax] pushes for a line that it meets in state [st],
    in the order of the checks. *)
Definition lineReports (options : AnalyzerOptions) (lineIndex : nat) (line : jsstring)
  (st : SyntaxState) : list Diagnostic :=
  match atEndCheck lineIndex line st, atLoopCheck lineIndex line st with
  | Some st2, Some stB =>
      stringReport lineIndex line ++ endReport lineIndex line st2 ++
      loopReport lineIndex line stB ++ typeReport lineIndex line ++
      hostReports options lineIndex line
  | _, _ => []
  end.

(** The state of [checkSyntax] when it has done the lines before [i]. *)
Definition syntaxStateAt (options : AnalyzerOptions) (lines : list jsstring) (i : nat)
  : option SyntaxState :=
  forEachFrom (checkLine options) (firstn i lines) 0 (initialSyntaxState []).

(** The copy of a raw line in which [validateSemantics] looks for
    identifiers: string literals replaced, then the comment removed. *)
Definition semanticCopy (line : jsstring) : jsstring :=
  replaceFirst (replaceAll line reStringLiteral [dq; dq]) reComment [].

(** The test on a registry name that [validateSemantics] makes. *)
Definition isFunctionName (varName : jsstring) : bool :=
  existsb (fun f => jseqb (toLowerCase f) (toLowerCase varName)) functionNames.

(** What one identifier-shaped token contributes. *)
Definition identReport (declaredVars : list jsstring) (lineIndex : nat)
  (copy : jsstring) (mr : MatchResult) : list Diagnostic :=
  match group1 copy mr with
  | Some varName =>
      if (0 <? index mr) && charAtIs copy (index mr - 1) 46 then []
      else if test (skipn (index mr + length varName) copy) reCallParen then []
      else if includes keywords varName || includes typeKeywords varName ||
              isFunctionName varName then []
      else if includes declaredVars varName then []
      else
        [newDiagnostic (Z.of_nat lineIndex) (Z.of_nat (index mr)) (Z.of_nat lineIndex)
           (Z.of_nat (index mr + length varName)) (msgUndefinedVariable varName) Warning]
  | None => []
  end.

(** The warnings of one line: one per token that passes every filter. *)
Definition undefinedReports (declaredVars : list jsstring) (lineIndex : nat)
  (line : jsstring) : list Diagnostic :=
  if skipped (trim line) then []
  else flat_map (identReport declaredVars lineIndex (semanticCopy line))
         (matchAll (semanticCopy line) reIdent).

(** The warnings of the lines [l], the first of which has index [i]. *)
Fixpoint undefinedReportsFrom (declaredVars : list jsstring) (l : list jsstring) (i : nat)
  : list Diagnostic :=
  match l with
  | [] => []
  | x :: l' => undefinedReports declaredVars i x ++ undefinedReportsFrom declaredVars l' (S i)
  end.

(** The set that [validateSemantics] builds from a symbol table. *)
Definition declaredVarsOf (syms : list SymbolInfo.t) : list jsstring :=
  map SymbolInfo.name syms ++ [js "Data"].

(** The line of a diagnostic. *)
Definition lineOf (d : Diagnostic) : Z := line (start (range d)).

Definition isWarning (d : Diagnostic) : bool :=
  match severity d with
  | Warning => true
  | _ => false
  end.

Definition notInformation (d : Diagnostic) : bool := negb (isInformation d).

(** Three lines of comments and white space. *)
Definition docComments : jsstring :=
  js "# header" ++ [nl] ++ js "   " ++ [nl] ++ js "  # indented note".

(** A string without its last character when that is a CR. *)
Definition dropTrailingCR (s : jsstring) : jsstring :=
  match lastChar s with
  | Some c => if (c =? cr)%N then removelast s else s
  | None => s
  end.

(** Three lines, with LF line ends and with CR LF line ends. *)
Definition docThreeLines : jsstring :=
  js "var a = 1" ++ [nl] ++ js "var b: int" ++ [nl] ++ js "c = a".

(** The characters of [s] from [a] up to [b] are an identifier-shaped word
    that is not part of a longer one: word characters, the first of them a
    letter or an underscore, with no word character right before or right
    after. *)
Definition IsWord (s : jsstring) (a b : nat) : Prop :=
  a < b <= length s /\
  (forall k, a <= k < b -> wordAt s k = true) /\
  (a = 0 \/ wordAt s (a - 1) = false) /\
  wordAt s b = false /\
  exists ch, nth_error s a = Some ch /\ isIdentStart ch = true.

(** The result of [exec] for a word: capture 1 is the whole match. *)
Definition wordMatch (a b : nat) : MatchResult :=
  {| index := a; stop := b; groups := {| cap1 := Some (a, b); cap2 := None |} |}.

(** Every span that a match of the pattern puts in capture 1 holds at
    least one character. *)
Fixpoint G1NonEmpty (r : regex) : Prop :=
  match r with
  | Group G1 a => 1 <= minLen a
  | Group G2 a | Star a => G1NonEmpty a
  | Seq a b | Alt a b => G1NonEmpty a /\ G1NonEmpty b
  | Empty | Chr _ | WordB | Bol | Eol => True
  end.

(** The symbol sits on a line before [k] that is not skipped, and at its
    column the raw line spells its name. *)
Definition SymbolAt (lines : list jsstring) (k : nat) (sy : SymbolInfo.t) : Prop :=
  exists ln l col,
    SymbolInfo.line sy = Z.of_nat ln /\ ln < k /\
    nth_error lines ln = Some l /\ skipped (trim l) = false /\
    SymbolInfo.character sy = Z.of_nat col /\
    SymbolInfo.name sy <> [] /\
    substring l col (col + length (SymbolInfo.name sy)) = SymbolInfo.name sy.

(** The keys never go down along the list. *)
Definition Ascending (A : Type) (key : A -> Z) (t : list A) : Prop :=
  forall p q a b, p <= q -> nth_error t p = Some a -> nth_error t q = Some b ->
    (key a <= key b)%Z.

(** The lines of the symbols never go down along the table. *)
Definition LinesAscend (t : list SymbolInfo.t) : Prop := Ascending SymbolInfo.line t.

(** The lines of the diagnostics never go down along the list. *)
Definition DiagsAscend (D : list Diagnostic) : Prop := Ascending lineOf D.

Definition SymbolShape (lines : list jsstring) (k : nat) (st : SymbolState) : Prop :=
  Forall (SymbolAt lines k) (table st) /\ LinesAscend (table st).

(** Whether [checkSyntax] pushes a block for the line: it does not start
    with [elseif] and its stripped copy holds a block keyword. *)
Definition opensBlock (line : jsstring) : bool :=
  negb (test (trim line) reElseif) && test (withoutStrings (trim line)) reBlockOpen.

(** The Error for an [end] on line [i] with no block open. *)
Definition unexpectedEndAt (i : nat) (l : jsstring) : Diagnostic :=
  newDiagnostic (Z.of_nat i) 0 (Z.of_nat i) (Z.of_nat (length (trim l)))
    msgUnexpectedEnd Error.

(** An [end] with nothing to close, and one that closes an [if]. *)
Definition docStrayEnd : jsstring :=
  js "end" ++ [nl] ++ js "if a then" ++ [nl] ++ js "end".

(** The lines of the stack entries go up strictly from the bottom to the
    top. *)
Definition StackAscends (stack : list Block.t) : Prop :=
  forall p q a b, p < q -> nth_error stack p = Some a -> nth_error stack q = Some b ->
    Block.line a < Block.line b.

(** The first block keyword of the stripped copy of a line. *)
Definition blockKeyword (line : jsstring) : option jsstring :=
  match exec (withoutStrings (trim line)) reBlockOpen with
  | Some mt => group1 (withoutStrings (trim line)) mt
  | None => None
  end.

(** The block stack after line [i], from the stack before it: the line's
    opener is pushed, then its [end] pops. *)
Definition stackAfter (i : nat) (line : jsstring) (stack : list Block.t) : list Block.t :=
  if skipped (trim line) then stack
  else
    let pushed :=
      if opensBlock line then
        match blockKeyword line with
        | Some ty => stack ++ [Block.mk ty i]
        | None => stack
        end
      else stack in
    if test (withoutStrings (trim line)) reEnd then removelast pushed else pushed.

(** A loop in a condition, closed, and an [if] on one line. *)
Definition docBlocks : jsstring :=
  js "if a then" ++ [nl] ++ js "  while b do" ++ [nl] ++ js "  end" ++ [nl] ++
  js "  if c then d = 1 end" ++ [nl] ++ js "end".

(** The symbol of one match of the declaration pattern. *)
Definition varSymbol (i : nat) (l : jsstring) (mr : MatchResult) : list SymbolInfo.t :=
  match group1 (trim l) mr with
  | Some v =>
      [SymbolInfo.mk v (group2 (trim l) mr) (Z.of_nat i) (indexOfFrom v l (index mr))]
  | None => []
  end.

(** The symbols of the declarations of a line, from left to right. *)
Definition varSymbols (i : nat) (l : jsstring) : list SymbolInfo.t :=
  flat_map (varSymbol i l) (matchAll (trim l) reVarDecl).

(** The symbol of the iteration variable of a line, if it has one. *)
Definition foreachSymbols (i : nat) (l : jsstring) : list SymbolInfo.t :=
  match exec (trim l) reForeach with
  | Some mr =>
      match group1 (trim l) mr with
      | Some v => [SymbolInfo.mk v (Some (js "iterator")) (Z.of_nat i) (indexOf v l)]
      | None => []
      end
  | None => []
  end.

(** The symbol of a path first assigned on line [i]. *)
Definition propertySymbol (i : nat) (l p : jsstring) : SymbolInfo.t :=
  SymbolInfo.mk p (Some (js "property")) (Z.of_nat i) (indexOf p l).

(** The paths of [paths] that are not in [seen], each once, in order. *)
Fixpoint freshPaths (seen paths : list jsstring) : list jsstring :=
  match paths with
  | [] => []
  | p :: t =>
      if includes seen p then freshPaths seen t
      else p :: freshPaths (seen ++ [p]) t
  end.

(** The symbols that line [i] adds when the paths [seen] have been assigned
    before. *)
Definition lineSymbols (i : nat) (l : jsstring) (seen : list jsstring)
  : list SymbolInfo.t :=
  if skipped (trim l) then []
  else varSymbols i l ++ foreachSymbols i l ++
       map (propertySymbol i l) (freshPaths seen (assignedPaths l)).

(** The symbols of the lines [ls], the first of which has index [i]. *)
Fixpoint symbolsFrom (ls : list jsstring) (i : nat) (seen : list jsstring)
  : list SymbolInfo.t :=
  match ls with
  | [] => []
  | x :: t =>
      lineSymbols i x seen ++
      symbolsFrom t (S i) (seen ++ freshPaths seen (assignedPaths x))
  end.

(* ================================================================== *)
(** ** The function registry (shared/src/stdlib.ts)

    The analyzer reads the registry through [getAllFunctionNames] only;
    here is the table itself with the two lookups that go with it.  The
    enumeration [JyroType] is imported by the registry from another file;
    its members are the ones the table names. *)
(* ================================================================== *)

Module JyroType.
Inductive t := Null | Number | String | Boolean | Object | Array.
End JyroType.

(** [JyroType | JyroType[]] *)
Inductive TypeSpec :=
| OneType (t : JyroType.t)
| AnyOf (ts : list JyroType.t).

(** [{ name, type, optional?, description }] *)
Module FunctionParameter.
Record t := mk {
  name : jsstring;
  type : TypeSpec;
  optional : option bool;        (* [optional?: boolean] *)
  description : jsstring
}.
End FunctionParameter.

(** [{ name, category, parameters, returnType, description, examples? }] *)
Module FunctionSignature.
Record t := mk {
  name : jsstring;
  category : jsstring;
  parameters : list FunctionParameter.t;
  returnType : TypeSpec;
  description : jsstring;
  examples : option (list jsstring)   (* [examples?: string[]] *)
}.
End FunctionSignature.

Module Registry.

(** The table, entry by entry in the order of the source. *)
Definition STDLIB_FUNCTIONS : list FunctionSignature.t := [
  FunctionSignature.mk (js "Upper") (js "String")
    [FunctionParameter.mk (js "str") (OneType JyroType.String) (None)
        (js "The string to convert")]
    (OneType JyroType.String)
    (js "Converts a string to uppercase")
    (Some [js "Upper(" ++ [dq] ++ js "hello" ++ [dq] ++ js ") # Returns " ++ [dq] ++
           js "HELLO" ++ [dq]]);
  FunctionSignature.mk (js "Lower") (js "String")
    [FunctionParameter.mk (js "str") (OneType JyroType.String) (None)
        (js "The string to convert")]
    (OneType JyroType.String)
    (js "Converts a string to lowercase")
    (Some [js "Lower(" ++ [dq] ++ js "HELLO" ++ [dq] ++ js ") # Returns " ++ [dq] ++
           js "hello" ++ [dq]]);
  FunctionSignature.mk (js "Trim") (js "String")
    [FunctionParameter.mk (js "str") (OneType JyroType.String) (None)
        (js "The string to trim")]
    (OneType JyroType.String)
    (js "Removes leading and trailing whitespace from a string")
    (Some [js "Trim(" ++ [dq] ++ js "  hello  " ++ [dq] ++ js ") # Returns " ++ [dq] ++
           js "hello" ++ [dq]]);
  FunctionSignature.mk (js "Replace") (js "String")
    [FunctionParameter.mk (js "str") (OneType JyroType.String) (None)
        (js "The input string");
      FunctionParameter.mk (js "search") (OneType JyroType.String) (None)
        (js "The substring to search for");
      FunctionParameter.mk (js "replace") (OneType JyroType.String) (None)
        (js "The replacement string")]
    (OneType JyroType.String)
    (js "Replaces all occurrences of a substring with another string")
    (Some [js "Replace(" ++ [dq] ++ js "hello world" ++ [dq] ++ js ", " ++ [dq] ++
           js "world" ++ [dq] ++ js ", " ++ [dq] ++ js "there" ++ [dq] ++ js ") # Returns " ++
           [dq] ++ js "hello there" ++ [dq]]);
  FunctionSignature.mk (js "Contains") (js "String")
    [FunctionParameter.mk (js "str") (OneType JyroType.String) (None)
        (js "The string to search in");
      FunctionParameter.mk (js "search") (OneType JyroType.String) (None)
        (js "The substring to search for")]
    (OneType JyroType.Boolean)
    (js "Checks if a string contains a substring")
    (Some [js "Contains(" ++ [dq] ++ js "hello" ++ [dq] ++ js ", " ++ [dq] ++ js "ell" ++
           [dq] ++ js ") # Returns true"]);
  FunctionSignature.mk (js "StartsWith") (js "String")
    [FunctionParameter.mk (js "str") (OneType JyroType.String) (None)
        (js "The string to check");
      FunctionParameter.mk (js "prefix") (OneType JyroType.String) (None)
        (js "The prefix to check for")]
    (OneType JyroType.Boolean)
    (js "Checks if a string starts with a specific prefix")
    (Some [js "StartsWith(" ++ [dq] ++ js "hello" ++ [dq] ++ js ", " ++ [dq] ++ js "hel" ++
           [dq] ++ js ") # Returns true"]);
  FunctionSignature.mk (js "EndsWith") (js "String")
    [FunctionParameter.mk (js "str") (OneType JyroType.String) (None)
        (js "The string to check");
      FunctionParameter.mk (js "suffix") (OneType JyroType.String) (None)
        (js "The suffix to check for")]
    (OneType JyroType.Boolean)
    (js "Checks if a string ends with a specific suffix")
    (Some [js "EndsWith(" ++ [dq] ++ js "hello" ++ [dq] ++ js ", " ++ [dq] ++ js "lo" ++
           [dq] ++ js ") # Returns true"]);
  FunctionSignature.mk (js "Split") (js "String")
    [FunctionParameter.mk (js "str") (OneType JyroType.String) (None)
        (js "The string to split");
      FunctionParameter.mk (js "delimiter") (OneType JyroType.String) (None)
        (js "The delimiter to split on")]
    (OneType JyroType.Array)
    (js "Splits a string into an array using a delimiter")
    (Some [js "Split(" ++ [dq] ++ js "a,b,c" ++ [dq] ++ js ", " ++ [dq] ++ js "," ++ [dq] ++
           js ") # Returns [" ++ [dq] ++ js "a" ++ [dq] ++ js ", " ++ [dq] ++ js "b" ++ [dq] ++
           js ", " ++ [dq] ++ js "c" ++ [dq] ++ js "]"]);
  FunctionSignature.mk (js "Join") (js "String")
    [FunctionParameter.mk (js "arr") (OneType JyroType.Array) (None)
        (js "The array to join");
      FunctionParameter.mk (js "separator") (OneType JyroType.String) (None)
        (js "The separator between elements")]
    (OneType JyroType.String)
    (js "Joins an array into a string with a separator")
    (Some [js "Join([" ++ [dq] ++ js "a" ++ [dq] ++ js ", " ++ [dq] ++ js "b" ++ [dq] ++
           js ", " ++ [dq] ++ js "c" ++ [dq] ++ js "], " ++ [dq] ++ js "," ++ [dq] ++
           js ") # Returns " ++ [dq] ++ js "a,b,c" ++ [dq]]);
  FunctionSignature.mk (js "ToNumber") (js "String")
    [FunctionParameter.mk (js "str") (OneType JyroType.String) (None)
        (js "The string to convert")]
    (OneType JyroType.Number)
    (js "Converts a string to a number")
    (Some [js "ToNumber(" ++ [dq] ++ js "42" ++ [dq] ++ js ") # Returns 42";
         js "ToNumber(" ++ [dq] ++ js "3.14" ++ [dq] ++ js ") # Returns 3.14"]);
  FunctionSignature.mk (js "RandomString") (js "String")
    [FunctionParameter.mk (js "length") (OneType JyroType.Number) (None)
        (js "The length of the string to generate");
      FunctionParameter.mk (js "characterSet") (OneType JyroType.String) (Some true)
        (js "The set of characters to select from (defaults to alphanumeric)")]
    (OneType JyroType.String)
    (js "Generates a cryptographically secure random string of specified length from a character set")
    (Some [js "RandomString(8) # Returns " ++ [dq] ++ js "aB3xK9mP" ++ [dq];
         js "RandomString(6, " ++ [dq] ++ js "0123456789" ++ [dq] ++ js ") # Returns " ++
           [dq] ++ js "483921" ++ [dq]]);
  FunctionSignature.mk (js "Length") (js "Array")
    [FunctionParameter.mk (js "arr") (OneType JyroType.Array) (None)
        (js "The array to measure")]
    (OneType JyroType.Number)
    (js "Returns the number of elements in an array")
    (Some [js "Length([1, 2, 3]) # Returns 3"]);
  FunctionSignature.mk (js "First") (js "Array")
    [FunctionParameter.mk (js "arr") (OneType JyroType.Array) (None)
        (js "The array to get first element from")]
    (AnyOf [JyroType.Null; JyroType.Number; JyroType.String; JyroType.Boolean; JyroType.Object; JyroType.Array])
    (js "Returns the first element of an array, or null if empty")
    (Some [js "First([1, 2, 3]) # Returns 1"]);
  FunctionSignature.mk (js "Last") (js "Array")
    [FunctionParameter.mk (js "arr") (OneType JyroType.Array) (None)
        (js "The array to get last element from")]
    (AnyOf [JyroType.Null; JyroType.Number; JyroType.String; JyroType.Boolean; JyroType.Object; JyroType.Array])
    (js "Returns the last element of an array, or null if empty")
    (Some [js "Last([1, 2, 3]) # Returns 3"]);
  FunctionSignature.mk (js "Append") (js "Array")
    [FunctionParameter.mk (js "arr") (OneType JyroType.Array) (None)
        (js "The array to append to");
      FunctionParameter.mk (js "value") (AnyOf [JyroType.Null; JyroType.Number; JyroType.String; JyroType.Boolean; JyroType.Object; JyroType.Array]) (None)
        (js "The value to append")]
    (OneType JyroType.Array)
    (js "Adds a value to the end of an array and returns the modified array")
    (Some [js "Append([1, 2], 3) # Returns [1, 2, 3]"]);
  FunctionSignature.mk (js "Pop") (js "Array")
    [FunctionParameter.mk (js "arr") (OneType JyroType.Array) (None)
        (js "The array to remove from")]
    (AnyOf [JyroType.Null; JyroType.Number; JyroType.String; JyroType.Boolean; JyroType.Object; JyroType.Array])
    (js "Removes and returns the last element from an array")
    (Some [js "Pop([1, 2, 3]) # Returns 3 and modifies array to [1, 2]"]);
  FunctionSignature.mk (js "IndexOf") (js "Array")
    [FunctionParameter.mk (js "source") (AnyOf [JyroType.String; JyroType.Array]) (None)
        (js "The string or array to search");
      FunctionParameter.mk (js "search") (AnyOf [JyroType.Null; JyroType.Number; JyroType.String; JyroType.Boolean; JyroType.Object; JyroType.Array]) (None)
        (js "The value to find")]
    (OneType JyroType.Number)
    (js "Returns the index of the first occurrence of a value in a string or array, or -1 if not found")
    (Some [js "IndexOf(" ++ [dq] ++ js "Hello" ++ [dq] ++ js ", " ++ [dq] ++ js "ell" ++
           [dq] ++ js ") # Returns 1";
         js "IndexOf([1, 2, 3], 2) # Returns 1"]);
  FunctionSignature.mk (js "Insert") (js "Array")
    [FunctionParameter.mk (js "arr") (OneType JyroType.Array) (None)
        (js "The array to insert into");
      FunctionParameter.mk (js "index") (OneType JyroType.Number) (None)
        (js "The index to insert at");
      FunctionParameter.mk (js "value") (AnyOf [JyroType.Null; JyroType.Number; JyroType.String; JyroType.Boolean; JyroType.Object; JyroType.Array]) (None)
        (js "The value to insert")]
    (OneType JyroType.Array)
    (js "Inserts a value at a specific index in an array")
    (Some [js "Insert([1, 3], 1, 2) # Returns [1, 2, 3]"]);
  FunctionSignature.mk (js "RemoveAt") (js "Array")
    [FunctionParameter.mk (js "arr") (OneType JyroType.Array) (None)
        (js "The array to remove from");
      FunctionParameter.mk (js "index") (OneType JyroType.Number) (None)
        (js "The index to remove")]
    (OneType JyroType.Array)
    (js "Removes the element at a specific index from an array")
    (Some [js "RemoveAt([1, 2, 3], 1) # Returns [1, 3]"]);
  FunctionSignature.mk (js "RemoveLast") (js "Array")
    [FunctionParameter.mk (js "arr") (OneType JyroType.Array) (None)
        (js "The array to remove from")]
    (OneType JyroType.Array)
    (js "Removes the last element from an array and returns the modified array")
    (Some [js "RemoveLast([1, 2, 3]) # Returns [1, 2]"]);
  FunctionSignature.mk (js "Clear") (js "Array")
    [FunctionParameter.mk (js "arr") (OneType JyroType.Array) (None)
        (js "The array to clear")]
    (OneType JyroType.Array)
    (js "Removes all elements from an array")
    (Some [js "Clear([1, 2, 3]) # Returns []"]);
  FunctionSignature.mk (js "Filter") (js "Array")
    [FunctionParameter.mk (js "arr") (OneType JyroType.Array) (None)
        (js "The array to filter");
      FunctionParameter.mk (js "field") (OneType JyroType.String) (None)
        (js "The field name to check");
      FunctionParameter.mk (js "operator") (OneType JyroType.String) (None)
        (js "The comparison operator (==, !=, <, >, <=, >=)");
      FunctionParameter.mk (js "value") (AnyOf [JyroType.Null; JyroType.Number; JyroType.String; JyroType.Boolean]) (None)
        (js "The value to compare against")]
    (OneType JyroType.Array)
    (js "Filters array elements based on a field condition")
    (Some [js "Filter(Data.users, " ++ [dq] ++ js "age" ++ [dq] ++ js ", " ++ [dq] ++
           js ">=" ++ [dq] ++ js ", 18) # Returns users 18 or older"]);
  FunctionSignature.mk (js "CountIf") (js "Array")
    [FunctionParameter.mk (js "arr") (OneType JyroType.Array) (None)
        (js "The array to count");
      FunctionParameter.mk (js "field") (OneType JyroType.String) (None)
        (js "The field name to check");
      FunctionParameter.mk (js "operator") (OneType JyroType.String) (None)
        (js "The comparison operator");
      FunctionParameter.mk (js "value") (AnyOf [JyroType.Null; JyroType.Number; JyroType.String; JyroType.Boolean]) (None)
        (js "The value to compare against")]
    (OneType JyroType.Number)
    (js "Counts array elements that match a field condition")
    (Some [js "CountIf(Data.users, " ++ [dq] ++ js "active" ++ [dq] ++ js ", " ++ [dq] ++
           js "==" ++ [dq] ++ js ", true) # Returns count of active users"]);
  FunctionSignature.mk (js "Sort") (js "Array")
    [FunctionParameter.mk (js "arr") (OneType JyroType.Array) (None)
        (js "The array to sort")]
    (OneType JyroType.Array)
    (js "Sorts an array in ascending order (numbers or strings)")
    (Some [js "Sort([3, 1, 2]) # Returns [1, 2, 3]"]);
  FunctionSignature.mk (js "SortByField") (js "Array")
    [FunctionParameter.mk (js "arr") (OneType JyroType.Array) (None)
        (js "The array of objects to sort");
      FunctionParameter.mk (js "field") (OneType JyroType.String) (None)
        (js "The field name to sort by");
      FunctionParameter.mk (js "direction") (OneType JyroType.String) (None)
        (js "Sort direction (" ++ [dq] ++ js "asc" ++ [dq] ++ js " or " ++ [dq] ++ js "desc" ++
         [dq] ++ js ")")]
    (OneType JyroType.Array)
    (js "Sorts an array of objects by a specific field")
    (Some [js "SortByField(Data.users, " ++ [dq] ++ js "age" ++ [dq] ++ js ", " ++ [dq] ++
           js "desc" ++ [dq] ++ js ") # Sorts by age descending"]);
  FunctionSignature.mk (js "Reverse") (js "Array")
    [FunctionParameter.mk (js "arr") (OneType JyroType.Array) (None)
        (js "The array to reverse")]
    (OneType JyroType.Array)
    (js "Reverses the order of elements in an array")
    (Some [js "Reverse([1, 2, 3]) # Returns [3, 2, 1]"]);
  FunctionSignature.mk (js "MergeArrays") (js "Array")
    [FunctionParameter.mk (js "arrays") (OneType JyroType.Array) (None)
        (js "Multiple arrays to merge (variadic)")]
    (OneType JyroType.Array)
    (js "Merges multiple arrays into a single array, concatenating all elements in order")
    (Some [js "MergeArrays([1, 2], [3, 4], [5]) # Returns [1, 2, 3, 4, 5]"]);
  FunctionSignature.mk (js "Take") (js "Array")
    [FunctionParameter.mk (js "arr") (OneType JyroType.Array) (None)
        (js "The source array to take elements from");
      FunctionParameter.mk (js "count") (OneType JyroType.Number) (None)
        (js "The number of elements to take from the beginning")]
    (OneType JyroType.Array)
    (js "Returns a new array containing the first n elements from a source array without modifying the original")
    (Some [js "Take([1, 2, 3, 4, 5], 3) # Returns [1, 2, 3]"]);
  FunctionSignature.mk (js "GroupBy") (js "Array")
    [FunctionParameter.mk (js "arr") (OneType JyroType.Array) (None)
        (js "The array of objects to group");
      FunctionParameter.mk (js "fieldName") (OneType JyroType.String) (None)
        (js "The field name or nested path to group by (e.g., " ++ [dq] ++ js "status" ++
         [dq] ++ js " or " ++ [dq] ++ js "address.city" ++ [dq] ++ js ")")]
    (OneType JyroType.Object)
    (js "Groups an array of objects by a specified field, returning an object where keys are the distinct field values and values are arrays of matching items")
    (Some [js "GroupBy(orders, " ++ [dq] ++ js "status" ++ [dq] ++ js ") # Returns { " ++
           [dq] ++ js "pending" ++ [dq] ++ js ": [...], " ++ [dq] ++ js "completed" ++ [dq] ++
           js ": [...] }"]);
  FunctionSignature.mk (js "RandomChoice") (js "Array")
    [FunctionParameter.mk (js "arr") (OneType JyroType.Array) (None)
        (js "The array to select a random element from")]
    (AnyOf [JyroType.Null; JyroType.Number; JyroType.String; JyroType.Boolean; JyroType.Object; JyroType.Array])
    (js "Selects a random element from an array, or returns null if empty")
    (Some [js "RandomChoice([" ++ [dq] ++ js "red" ++ [dq] ++ js ", " ++ [dq] ++ js "blue" ++
           [dq] ++ js ", " ++ [dq] ++ js "green" ++ [dq] ++ js "]) # Returns a random color"]);
  FunctionSignature.mk (js "Min") (js "Math")
    [FunctionParameter.mk (js "values") (AnyOf [JyroType.Number; JyroType.Array]) (None)
        (js "Numbers to compare (variadic or single array)")]
    (AnyOf [JyroType.Number; JyroType.Null])
    (js "Returns the minimum numeric value, or null if no numeric arguments provided")
    (Some [js "Min(5, 10, 3) # Returns 3";
         js "Min([5, 10, 3]) # Returns 3"]);
  FunctionSignature.mk (js "Max") (js "Math")
    [FunctionParameter.mk (js "values") (AnyOf [JyroType.Number; JyroType.Array]) (None)
        (js "Numbers to compare (variadic or single array)")]
    (AnyOf [JyroType.Number; JyroType.Null])
    (js "Returns the maximum numeric value, or null if no numeric arguments provided")
    (Some [js "Max(5, 10, 3) # Returns 10";
         js "Max([5, 10, 3]) # Returns 10"]);
  FunctionSignature.mk (js "Sum") (js "Math")
    [FunctionParameter.mk (js "values") (AnyOf [JyroType.Number; JyroType.Array]) (None)
        (js "Numbers to sum (variadic or single array)")]
    (AnyOf [JyroType.Number; JyroType.Null])
    (js "Returns the sum of all numeric values, or null if no numeric arguments provided")
    (Some [js "Sum(1, 2, 3, 4) # Returns 10";
         js "Sum([1, 2, 3, 4]) # Returns 10"]);
  FunctionSignature.mk (js "Average") (js "Math")
    [FunctionParameter.mk (js "values") (AnyOf [JyroType.Number; JyroType.Array]) (None)
        (js "Numbers to average (variadic or single array)")]
    (AnyOf [JyroType.Number; JyroType.Null])
    (js "Returns the arithmetic mean of all numeric values, or null if no numeric arguments provided")
    (Some [js "Average(10, 20, 30) # Returns 20";
         js "Average([10, 20, 30]) # Returns 20"]);
  FunctionSignature.mk (js "Median") (js "Math")
    [FunctionParameter.mk (js "values") (AnyOf [JyroType.Number; JyroType.Array]) (None)
        (js "Numbers to find median of (variadic or single array)")]
    (AnyOf [JyroType.Number; JyroType.Null])
    (js "Returns the median (middle value) of all numeric values, or null if no numeric arguments provided")
    (Some [js "Median(1, 3, 5) # Returns 3";
         js "Median([1, 3, 5, 7]) # Returns 4"]);
  FunctionSignature.mk (js "Mode") (js "Math")
    [FunctionParameter.mk (js "values") (AnyOf [JyroType.Number; JyroType.Array]) (None)
        (js "Numbers to find mode of (variadic or single array)")]
    (AnyOf [JyroType.Number; JyroType.Null])
    (js "Returns the most frequently occurring value, or null if no numeric arguments provided")
    (Some [js "Mode(1, 2, 2, 3) # Returns 2";
         js "Mode([1, 2, 2, 3, 3, 3]) # Returns 3"]);
  FunctionSignature.mk (js "Abs") (js "Math")
    [FunctionParameter.mk (js "num") (OneType JyroType.Number) (None)
        (js "The number")]
    (OneType JyroType.Number)
    (js "Returns the absolute value of a number")
    (Some [js "Abs(-5) # Returns 5"]);
  FunctionSignature.mk (js "Round") (js "Math")
    [FunctionParameter.mk (js "num") (OneType JyroType.Number) (None)
        (js "The number to round");
      FunctionParameter.mk (js "decimals") (OneType JyroType.Number) (None)
        (js "Number of decimal places")]
    (OneType JyroType.Number)
    (js "Rounds a number to a specified number of decimal places")
    (Some [js "Round(3.14159, 2) # Returns 3.14"]);
  FunctionSignature.mk (js "RandomInt") (js "Math")
    [FunctionParameter.mk (js "min") (OneType JyroType.Number) (Some true)
        (js "The inclusive lower bound (or exclusive upper bound if only one argument)");
      FunctionParameter.mk (js "max") (OneType JyroType.Number) (None)
        (js "The exclusive upper bound")]
    (OneType JyroType.Number)
    (js "Generates a cryptographically secure random integer. RandomInt(max) returns [0, max). RandomInt(min, max) returns [min, max).")
    (Some [js "RandomInt(10) # Returns 0-9";
         js "RandomInt(1, 7) # Returns 1-6 (dice roll)"]);
  FunctionSignature.mk (js "Now") (js "DateTime")
    []
    (OneType JyroType.String)
    (js "Returns the current UTC date and time in ISO 8601 format")
    (Some [js "Now() # Returns " ++ [dq] ++ js "2025-11-17T12:00:00Z" ++ [dq]]);
  FunctionSignature.mk (js "Today") (js "DateTime")
    []
    (OneType JyroType.String)
    (js "Returns the current UTC date at midnight in ISO 8601 format")
    (Some [js "Today() # Returns " ++ [dq] ++ js "2025-11-17T00:00:00Z" ++ [dq]]);
  FunctionSignature.mk (js "ParseDate") (js "DateTime")
    [FunctionParameter.mk (js "str") (OneType JyroType.String) (None)
        (js "The date string to parse")]
    (OneType JyroType.String)
    (js "Parses a date string and returns it in ISO 8601 format")
    (Some [js "ParseDate(" ++ [dq] ++ js "2025-11-17" ++ [dq] ++
           js ") # Returns ISO 8601 date"]);
  FunctionSignature.mk (js "FormatDate") (js "DateTime")
    [FunctionParameter.mk (js "date") (OneType JyroType.String) (None)
        (js "The date in ISO format");
      FunctionParameter.mk (js "format") (OneType JyroType.String) (None)
        (js ".NET date format pattern")]
    (OneType JyroType.String)
    (js "Formats a date using a .NET format pattern")
    (Some [js "FormatDate(Now(), " ++ [dq] ++ js "yyyy-MM-dd" ++ [dq] ++ js ") # Returns " ++
           [dq] ++ js "2025-11-17" ++ [dq]]);
  FunctionSignature.mk (js "DateAdd") (js "DateTime")
    [FunctionParameter.mk (js "date") (OneType JyroType.String) (None)
        (js "The date in ISO format");
      FunctionParameter.mk (js "amount") (OneType JyroType.Number) (None)
        (js "Amount to add (can be negative)");
      FunctionParameter.mk (js "unit") (OneType JyroType.String) (None)
        (js "Unit: days, weeks, months, years, hours, minutes, seconds")]
    (OneType JyroType.String)
    (js "Adds a time interval to a date")
    (Some [js "DateAdd(Today(), 7, " ++ [dq] ++ js "days" ++ [dq] ++ js ") # Adds 7 days"]);
  FunctionSignature.mk (js "DateDiff") (js "DateTime")
    [FunctionParameter.mk (js "endDate") (OneType JyroType.String) (None)
        (js "The end date");
      FunctionParameter.mk (js "startDate") (OneType JyroType.String) (None)
        (js "The start date");
      FunctionParameter.mk (js "unit") (OneType JyroType.String) (None)
        (js "Unit to return difference in")]
    (OneType JyroType.Number)
    (js "Calculates the difference between two dates")
    (Some [js "DateDiff(" ++ [dq] ++ js "2025-12-31" ++ [dq] ++ js ", " ++ [dq] ++
           js "2025-01-01" ++ [dq] ++ js ", " ++ [dq] ++ js "days" ++ [dq] ++
           js ") # Returns 364"]);
  FunctionSignature.mk (js "DatePart") (js "DateTime")
    [FunctionParameter.mk (js "date") (OneType JyroType.String) (None)
        (js "The date in ISO format");
      FunctionParameter.mk (js "part") (OneType JyroType.String) (None)
        (js "Part: year, month, day, hour, minute, second, dayofweek, dayofyear")]
    (OneType JyroType.Number)
    (js "Extracts a specific part from a date")
    (Some [js "DatePart(Now(), " ++ [dq] ++ js "year" ++ [dq] ++ js ") # Returns 2025"]);
  FunctionSignature.mk (js "TypeOf") (js "Utility")
    [FunctionParameter.mk (js "value") (AnyOf [JyroType.Null; JyroType.Number; JyroType.String; JyroType.Boolean; JyroType.Object; JyroType.Array]) (None)
        (js "The value to check")]
    (OneType JyroType.String)
    (js "Returns the type name of a value")
    (Some [js "TypeOf(42) # Returns " ++ [dq] ++ js "number" ++ [dq];
         js "TypeOf([1, 2]) # Returns " ++ [dq] ++ js "array" ++ [dq]]);
  FunctionSignature.mk (js "IsNull") (js "Utility")
    [FunctionParameter.mk (js "value") (AnyOf [JyroType.Null; JyroType.Number; JyroType.String; JyroType.Boolean; JyroType.Object; JyroType.Array]) (None)
        (js "The value to check")]
    (OneType JyroType.Boolean)
    (js "Returns true if the value is null")
    (Some [js "IsNull(null) # Returns true"]);
  FunctionSignature.mk (js "Exists") (js "Utility")
    [FunctionParameter.mk (js "value") (AnyOf [JyroType.Null; JyroType.Number; JyroType.String; JyroType.Boolean; JyroType.Object; JyroType.Array]) (None)
        (js "The value to check")]
    (OneType JyroType.Boolean)
    (js "Returns true if the value is not null")
    (Some [js "Exists(Data.user) # Returns true if user exists"]);
  FunctionSignature.mk (js "Equal") (js "Utility")
    [FunctionParameter.mk (js "a") (AnyOf [JyroType.Null; JyroType.Number; JyroType.String; JyroType.Boolean; JyroType.Object; JyroType.Array]) (None)
        (js "First value");
      FunctionParameter.mk (js "b") (AnyOf [JyroType.Null; JyroType.Number; JyroType.String; JyroType.Boolean; JyroType.Object; JyroType.Array]) (None)
        (js "Second value")]
    (OneType JyroType.Boolean)
    (js "Performs deep equality comparison")
    (Some [js "Equal([1, 2], [1, 2]) # Returns true"]);
  FunctionSignature.mk (js "NotEqual") (js "Utility")
    [FunctionParameter.mk (js "a") (AnyOf [JyroType.Null; JyroType.Number; JyroType.String; JyroType.Boolean; JyroType.Object; JyroType.Array]) (None)
        (js "First value");
      FunctionParameter.mk (js "b") (AnyOf [JyroType.Null; JyroType.Number; JyroType.String; JyroType.Boolean; JyroType.Object; JyroType.Array]) (None)
        (js "Second value")]
    (OneType JyroType.Boolean)
    (js "Returns true if values are not deeply equal")
    (Some [js "NotEqual([1, 2], [1, 3]) # Returns true"]);
  FunctionSignature.mk (js "Base64Encode") (js "Utility")
    [FunctionParameter.mk (js "str") (OneType JyroType.String) (None)
        (js "The string to encode")]
    (OneType JyroType.String)
    (js "Encodes a string to Base64")
    (Some [js "Base64Encode(" ++ [dq] ++ js "hello" ++ [dq] ++ js ") # Returns " ++ [dq] ++
           js "aGVsbG8=" ++ [dq]]);
  FunctionSignature.mk (js "Base64Decode") (js "Utility")
    [FunctionParameter.mk (js "str") (OneType JyroType.String) (None)
        (js "The Base64 string to decode")]
    (OneType JyroType.String)
    (js "Decodes a Base64 string")
    (Some [js "Base64Decode(" ++ [dq] ++ js "aGVsbG8=" ++ [dq] ++ js ") # Returns " ++ [dq] ++
           js "hello" ++ [dq]]);
  FunctionSignature.mk (js "NewGuid") (js "Utility")
    []
    (OneType JyroType.String)
    (js "Generates a new GUID string")
    (Some [js "NewGuid() # Returns " ++ [dq] ++ js "a1b2c3d4-e5f6-7890-abcd-ef1234567890" ++
           [dq]]);
  FunctionSignature.mk (js "CallScript") (js "Utility")
    [FunctionParameter.mk (js "source") (OneType JyroType.String) (None)
        (js "The script source code");
      FunctionParameter.mk (js "data") (OneType JyroType.Object) (None)
        (js "The data object to pass")]
    (OneType JyroType.Object)
    (js "Executes a child script with cycle detection")
    (Some [js "CallScript(" ++ [dq] ++ js "Data.result = Data.value * 2" ++ [dq] ++
           js ", { " ++ [dq] ++ js "value" ++ [dq] ++ js ": 5 })"]);
  FunctionSignature.mk (js "Keys") (js "Utility")
    [FunctionParameter.mk (js "obj") (OneType JyroType.Object) (None)
        (js "The object to extract keys from")]
    (OneType JyroType.Array)
    (js "Returns an array containing all property names (keys) of an object")
    (Some [js "Keys({" ++ [dq] ++ js "name" ++ [dq] ++ js ": " ++ [dq] ++ js "Alice" ++ [dq] ++
           js ", " ++ [dq] ++ js "age" ++ [dq] ++ js ": 30}) # Returns [" ++ [dq] ++
           js "name" ++ [dq] ++ js ", " ++ [dq] ++ js "age" ++ [dq] ++ js "]"]);
  FunctionSignature.mk (js "InvokeRestMethod") (js "Utility")
    [FunctionParameter.mk (js "url") (OneType JyroType.String) (None)
        (js "The URL to call");
      FunctionParameter.mk (js "method") (OneType JyroType.String) (Some true)
        (js "HTTP method (GET, POST, PUT, DELETE). Defaults to GET");
      FunctionParameter.mk (js "headers") (OneType JyroType.Object) (Some true)
        (js "Request headers as key-value pairs");
      FunctionParameter.mk (js "body") (AnyOf [JyroType.Null; JyroType.Number; JyroType.String; JyroType.Boolean; JyroType.Object; JyroType.Array]) (Some true)
        (js "Request body (automatically JSON-serialized)")]
    (OneType JyroType.Object)
    (js "Executes HTTP REST API calls. Returns object with statusCode, isSuccessStatusCode, content, headers. Must be enabled via .WithRestApi()")
    (Some [js "InvokeRestMethod(" ++ [dq] ++ js "https://api.example.com/users" ++ [dq] ++
           js ", " ++ [dq] ++ js "GET" ++ [dq] ++ js ")";
         js "InvokeRestMethod(" ++ [dq] ++ js "https://api.example.com/users" ++ [dq] ++
           js ", " ++ [dq] ++ js "POST" ++ [dq] ++ js ", {" ++ [dq] ++ js "Content-Type" ++
           [dq] ++ js ": " ++ [dq] ++ js "application/json" ++ [dq] ++ js "}, newUser)"])
].

(** [STDLIB_FUNCTIONS.find(f => f.name.toLowerCase() === name.toLowerCase())].
    [toLowerCase] is the one of the analyzer, which changes the ASCII
    letters only: the lookup is modelled for names of ASCII characters. *)
Definition getFunctionSignature (name : jsstring) : option FunctionSignature.t :=
  find (fun f => jseqb (toLowerCase (FunctionSignature.name f)) (toLowerCase name))
    STDLIB_FUNCTIONS.

(** [STDLIB_FUNCTIONS.map(f => f.name)] *)
Definition getAllFunctionNames : list jsstring :=
  map FunctionSignature.name STDLIB_FUNCTIONS.

(** [STDLIB_FUNCTIONS.filter(f => f.category === category)] *)
Definition getFunctionsByCategory (category : jsstring) : list FunctionSignature.t :=
  filter (fun f => jseqb (FunctionSignature.category f) category) STDLIB_FUNCTIONS.

End Registry.

(** A name of ASCII characters. *)
Definition isAsciiName (name : jsstring) : Prop := Forall (fun c => (c < 128)%N) name.

(** The categories that the entries of the table carry. *)
Definition registryCategories : list jsstring :=
  map js ["String"; "Array"; "Math"; "DateTime"; "Utility"]%string.

(** Whether the strings of a list are pairwise different. *)
Fixpoint distinct (l : list jsstring) : bool :=
  match l with
  | [] => true
  | x :: t => negb (includes t x) && distinct t
  end.

Unset Implicit Arguments.

Arguments includes : simpl never.
Arguments withoutStrings : simpl never.
Arguments trim : simpl never.
Arguments skipped : simpl never.

(* ================================================================== *)
(** ** Facts about strings *)
(* ================================================================== *)

Lemma jseqb_eq : forall a b, jseqb a b = true <-> a = b.
Proof.
  induction a as [|x a IH]; destruct b as [|y b]; simpl; split; intro H;
    try reflexivity; try discriminate.
  - apply andb_true_iff in H. destruct H as [H1 H2].
    apply N.eqb_eq in H1. apply IH in H2. congruence.
  - inversion H; subst. rewrite N.eqb_refl. simpl. apply IH. reflexivity.
Qed.

Lemma jseqb_refl : forall a, jseqb a a = true.
Proof. intro a. apply jseqb_eq. reflexivity. Qed.

Lemma includes_In : forall arr x, includes arr x = true <-> In x arr.
Proof.
  intros arr x. unfold includes. rewrite existsb_exists. split.
  - intros [y [Hy He]]. apply jseqb_eq in He. subst. assumption.
  - intro H. exists x. split; [assumption | apply jseqb_refl].
Qed.

Lemma isPrefixOf_app : forall p t, isPrefixOf p (p ++ t) = true.
Proof.
  induction p as [|x p IH]; intro t; simpl; [reflexivity|].
  rewrite N.eqb_refl. simpl. apply IH.
Qed.

Lemma indexOfGo_eq : forall needle hay k,
  indexOfGo needle hay k =
  if isPrefixOf needle hay then Z.of_nat k
  else match hay with
       | [] => (-1)%Z
       | _ :: t => indexOfGo needle t (S k)
       end.
Proof. intros needle hay k. destruct hay; reflexivity. Qed.

(** A string that occurs in the subject is found. *)
Lemma indexOfGo_found : forall needle pre post k,
  (Z.of_nat k <= indexOfGo needle (pre ++ needle ++ post) k)%Z.
Proof.
  intros needle pre. induction pre as [|c pre IH]; intros post k; simpl.
  - rewrite indexOfGo_eq, isPrefixOf_app. lia.
  - destruct (isPrefixOf needle (c :: pre ++ needle ++ post)); [lia|].
    specialize (IH post (S k)). lia.
Qed.

Lemma indexOf_found : forall needle pre post,
  (0 <= indexOf needle (pre ++ needle ++ post))%Z.
Proof.
  intros needle pre post. unfold indexOf, indexOfFrom. simpl.
  apply (indexOfGo_found needle pre post 0).
Qed.

Lemma trimStart_spaces : forall l,
  exists pre, l = pre ++ trimStart l /\ Forall (fun c => isSpace c = true) pre.
Proof.
  induction l as [|c l [pre [IH HF]]]; simpl.
  - exists []. split; [reflexivity | constructor].
  - destruct (isSpace c) eqn:E.
    + exists (c :: pre). simpl. rewrite <- IH. split; [reflexivity|].
      constructor; assumption.
    + exists []. split; [reflexivity | constructor].
Qed.

(** [trim] keeps a contiguous part of the line. *)
Lemma trim_infix : forall l, exists pre post, l = pre ++ trim l ++ post.
Proof.
  intro l. unfold trim, trimEnd.
  destruct (trimStart_spaces l) as [pre [Hpre _]].
  destruct (trimStart_spaces (rev (trimStart l))) as [post [Hpost _]].
  exists pre, (rev post).
  rewrite <- rev_app_distr, <- Hpost, rev_involutive. assumption.
Qed.

Lemma substring_infix : forall (s : jsstring) a b,
  a <= b <= length s -> exists pre post, s = pre ++ substring s a b ++ post.
Proof.
  intros s a b H. unfold substring.
  exists (firstn a s), (skipn (b - a) (skipn a s)).
  rewrite firstn_skipn, firstn_skipn. reflexivity.
Qed.

(* ================================================================== *)
(** ** The matcher returns spans of its pattern *)
(* ================================================================== *)

Section MatcherFacts.

Variable s : jsstring.

Lemma starLoop_sound :
  forall (ma : nat -> caps -> K -> option (nat * caps))
         (R : nat -> caps -> nat -> caps -> Prop),
  (forall i c k res, ma i c k = Some res ->
     exists j c', R i c j c' /\ k j c' = Some res) ->
  forall n k i c res, starLoop ma k n i c = Some res ->
    exists j c', iter R i c j c' /\ k j c' = Some res.
Proof.
  intros ma R Hma. induction n as [|n IH]; intros k i c res H; simpl in H.
  - exists i, c. split; [constructor | assumption].
  - destruct (ma i c (fun j c' => if i <? j then starLoop ma k n j c' else None))
      as [x|] eqn:E.
    + inversion H; subst x. apply Hma in E. destruct E as [j [c' [HR Hk]]].
      destruct (i <? j) eqn:Hij; [|discriminate].
      apply Nat.ltb_lt in Hij. apply IH in Hk.
      destruct Hk as [j' [c'' [Hit Hk]]].
      exists j', c''. split; [|assumption].
      eapply iter_step; eassumption.
    + exists i, c. split; [constructor | assumption].
Qed.

Lemma m_sound : forall r i c k res,
  m s r i c k = Some res ->
  exists j c', Span s r i c j c' /\ k j c' = Some res.
Proof.
  induction r as [|p|a IHa b IHb|a IHa b IHb|a IHa|g a IHa| | |];
    intros i c k res H; simpl in H.
  - exists i, c. simpl. auto.
  - destruct (nth_error s i) as [ch|] eqn:E; [|discriminate].
    destruct (p ch) eqn:Ep; [|discriminate].
    exists (S i), c. simpl. split; [|assumption]. exists ch. auto.
  - apply IHa in H. destruct H as [j [c' [Ha H]]].
    apply IHb in H. destruct H as [j' [c'' [Hb H]]].
    exists j', c''. split; [|assumption]. simpl. exists j, c'. auto.
  - destruct (m s a i c k) as [x|] eqn:E.
    + inversion H; subst x. apply IHa in E. destruct E as [j [c' [Ha Hk]]].
      exists j, c'. simpl. auto.
    + apply IHb in H. destruct H as [j [c' [Hb Hk]]].
      exists j, c'. simpl. auto.
  - exact (starLoop_sound (m s a) (Span s a) IHa (S (length s)) k i c res H).
  - apply IHa in H. destruct H as [j [c' [Ha Hk]]].
    exists j, (setCap g (i, j) c'). split; [|assumption].
    simpl. exists c'. auto.
  - destruct (wordBoundary s i) eqn:E; [|discriminate].
    exists i, c. simpl. auto.
  - destruct (i =? 0) eqn:E; [|discriminate]. apply Nat.eqb_eq in E.
    exists i, c. simpl. auto.
  - destruct (i =? length s) eqn:E; [|discriminate]. apply Nat.eqb_eq in E.
    exists i, c. simpl. auto.
Qed.

(** The matcher calls its continuation only at indices of the subject: two
    continuations that agree there give the same result. *)
Lemma starLoop_ext : forall (ma : nat -> caps -> K -> option (nat * caps)),
  (forall i c k k', i <= length s ->
     (forall j c', i <= j <= length s -> k j c' = k' j c') -> ma i c k = ma i c k') ->
  forall n i c k k', i <= length s ->
    (forall j c', i <= j <= length s -> k j c' = k' j c') ->
    starLoop ma k n i c = starLoop ma k' n i c.
Proof.
  intros ma Hma. induction n as [|n IH]; intros i c k k' Hi Hk; simpl.
  - apply Hk. lia.
  - rewrite (Hma i c _ (fun j c' => if i <? j then starLoop ma k' n j c' else None) Hi).
    + rewrite (Hk i c) by lia. reflexivity.
    + intros j c' Hj. destruct (i <? j); [|reflexivity].
      apply IH; [lia|]. intros j' c'' Hj'. apply Hk. lia.
Qed.

Lemma m_ext : forall r i c k k',
  i <= length s ->
  (forall j c', i <= j <= length s -> k j c' = k' j c') ->
  m s r i c k = m s r i c k'.
Proof.
  induction r as [|p|a IHa b IHb|a IHa b IHb|a IHa|g a IHa| | |];
    intros i c k k' Hi Hk; simpl.
  - apply Hk. lia.
  - destruct (nth_error s i) as [ch|] eqn:E; [|reflexivity].
    assert (i < length s) by (apply nth_error_Some; congruence).
    destruct (p ch); [apply Hk; lia | reflexivity].
  - apply IHa; [assumption|]. intros j c' Hj.
    apply IHb; [lia|]. intros j' c'' Hj'. apply Hk. lia.
  - rewrite (IHa i c k k' Hi Hk), (IHb i c k k' Hi Hk). reflexivity.
  - exact (starLoop_ext (m s a) IHa (S (length s)) i c k k' Hi Hk).
  - apply IHa; [assumption|]. intros j c' Hj. apply Hk. assumption.
  - destruct (wordBoundary s i); [apply Hk; lia | reflexivity].
  - destruct (i =? 0); [apply Hk; lia | reflexivity].
  - destruct (i =? length s); [apply Hk; lia | reflexivity].
Qed.

(** The fuel of the greedy iteration is never used up: more of it changes
    nothing. *)
Lemma starLoop_fuel : forall a k n i c,
  i <= length s -> length s - i < n ->
  starLoop (m s a) k (S n) i c = starLoop (m s a) k n i c.
Proof.
  intros a k. induction n as [|n IH]; intros i c Hi Hn; [lia|].
  change (starLoop (m s a) k (S (S n)) i c)
    with (match m s a i c (fun j c' => if i <? j then starLoop (m s a) k (S n) j c' else None) with
          | Some x => Some x
          | None => k i c
          end).
  change (starLoop (m s a) k (S n) i c)
    with (match m s a i c (fun j c' => if i <? j then starLoop (m s a) k n j c' else None) with
          | Some x => Some x
          | None => k i c
          end).
  rewrite (m_ext a i c _ (fun j c' => if i <? j then starLoop (m s a) k n j c' else None) Hi);
    [reflexivity|].
  intros j c' Hj. destruct (i <? j) eqn:E; [|reflexivity].
  apply Nat.ltb_lt in E. apply IH; lia.
Qed.

Lemma iter_mono : forall (R : nat -> caps -> nat -> caps -> Prop) i c j c',
  iter R i c j c' -> i <= j.
Proof. intros R i c j c' H. induction H; lia. Qed.

(** A span ends inside the subject and is at least [minLen] long. *)
Lemma Span_bounds : forall r i c j c',
  i <= length s -> Span s r i c j c' -> i + minLen r <= j /\ j <= length s.
Proof.
  induction r as [|p|a IHa b IHb|a IHa b IHb|a IHa|g a IHa| | |];
    intros i c j c' Hi H; simpl in H; simpl minLen.
  - destruct H; subst. lia.
  - destruct H as [ch [Hn [_ [Hj _]]]]. subst.
    assert (i < length s) by (apply nth_error_Some; congruence). lia.
  - destruct H as [k [ck [Ha Hb]]].
    apply IHa in Ha; [|assumption]. apply IHb in Hb; lia.
  - destruct H as [H|H]; [apply IHa in H | apply IHb in H]; lia.
  - induction H as [|i c j c' k c'' HR Hlt Hit IH]; [lia|].
    apply IHa in HR; [|assumption]. assert (k <= length s) by (apply IH; lia).
    apply iter_mono in Hit. lia.
  - destruct H as [c0 [Ha _]]. apply IHa in Ha; assumption.
  - destruct H as [_ [Hj _]]. subst. lia.
  - destruct H as [_ [Hj _]]. subst. lia.
  - destruct H as [_ [Hj _]]. subst. lia.
Qed.

Lemma capsOk_setCap : forall g a b c,
  a <= b <= length s -> capsOk s c -> capsOk s (setCap g (a, b) c).
Proof.
  intros g a b c Hab [H1 H2]. destruct g; split; simpl; assumption.
Qed.

(** Captures stay inside the subject. *)
Lemma Span_capsOk : forall r i c j c',
  i <= length s -> capsOk s c -> Span s r i c j c' -> capsOk s c'.
Proof.
  induction r as [|p|a IHa b IHb|a IHa b IHb|a IHa|g a IHa| | |];
    intros i c j c' Hi Hc H; simpl in H.
  - destruct H; subst. assumption.
  - destruct H as [ch [_ [_ [_ Hc']]]]. subst. assumption.
  - destruct H as [k [ck [Ha Hb]]].
    assert (Hk : k <= length s) by (apply (Span_bounds a i c k ck Hi Ha)).
    apply (IHb k ck j c' Hk); [|exact Hb]. apply (IHa i c k ck Hi Hc Ha).
  - destruct H as [H|H]; [apply (IHa i c j c') | apply (IHb i c j c')]; assumption.
  - induction H as [|i c j c' k c'' HR Hlt Hit IH]; [assumption|].
    apply IH.
    + apply (Span_bounds a i c j c' Hi HR).
    + apply (IHa i c j c' Hi Hc HR).
  - destruct H as [c0 [Ha Hc']]. subst.
    apply capsOk_setCap.
    + pose proof (Span_bounds a i c j c0 Hi Ha). lia.
    + apply (IHa i c j c0 Hi Hc Ha).
  - destruct H as [_ [_ Hc']]. subst. assumption.
  - destruct H as [_ [_ Hc']]. subst. assumption.
  - destruct H as [_ [_ Hc']]. subst. assumption.
Qed.

Lemma capsOk_noCaps : capsOk s noCaps.
Proof. split; exact I. Qed.

Lemma search_sound : forall r n i mr,
  i + n <= length s -> search s r i n = Some mr ->
  i <= index mr /\ IsMatch s r mr.
Proof.
  intros r. induction n as [|n IH]; intros i mr Hi H; simpl in H.
  - destruct (matchAt s r i) as [[j c]|] eqn:E; [|discriminate].
    inversion H; subst mr. unfold matchAt in E. apply m_sound in E.
    destruct E as [j' [c' [Hs Hk]]]. inversion Hk; subst.
    split; [simpl; lia|]. split; simpl; [lia | assumption].
  - destruct (matchAt s r i) as [[j c]|] eqn:E.
    + inversion H; subst mr. unfold matchAt in E. apply m_sound in E.
      destruct E as [j' [c' [Hs Hk]]]. inversion Hk; subst.
      split; [simpl; lia|]. split; simpl; [lia | assumption].
    + apply IH in H; [|lia]. destruct H. split; [lia | assumption].
Qed.

(** What [exec] returns is a match that starts at or after [lastIndex]. *)
Lemma execFrom_sound : forall r lastIndex mr,
  execFrom s r lastIndex = Some mr ->
  lastIndex <= index mr /\ IsMatch s r mr.
Proof.
  intros r lastIndex mr H. unfold execFrom in H.
  destruct (length s <? lastIndex) eqn:E; [discriminate|].
  apply Nat.ltb_ge in E. apply search_sound in H; [assumption | lia].
Qed.

Lemma IsMatch_bounds : forall r mr,
  IsMatch s r mr -> index mr + minLen r <= stop mr /\ stop mr <= length s.
Proof. intros r mr [Hi H]. apply (Span_bounds r _ _ _ _ Hi H). Qed.

Lemma IsMatch_capsOk : forall r mr, IsMatch s r mr -> capsOk s (groups mr).
Proof.
  intros r mr [Hi H]. apply (Span_capsOk r _ _ _ _ Hi capsOk_noCaps H).
Qed.

End MatcherFacts.

(* ================================================================== *)
(** ** Loops over the matches of a pattern *)
(* ================================================================== *)

Section LoopFacts.

Variable s : jsstring.
Variable r : regex.

Lemma matchAllFrom_IsMatch : forall fuel k,
  Forall (IsMatch s r) (matchAllFrom s r fuel k).
Proof.
  induction fuel as [|f IH]; intro k; simpl; [constructor|].
  destruct (execFrom s r k) as [mr|] eqn:E; [|constructor].
  constructor; [|apply IH]. apply execFrom_sound in E. tauto.
Qed.

Lemma matchAll_IsMatch : Forall (IsMatch s r) (matchAll s r).
Proof. apply matchAllFrom_IsMatch. Qed.

Lemma execFrom_beyond : forall k, length s < k -> execFrom s r k = None.
Proof.
  intros k H. unfold execFrom.
  destruct (length s <? k) eqn:E; [reflexivity|].
  apply Nat.ltb_ge in E. lia.
Qed.

(** The fuel of [matchAll] is never used up: more of it changes nothing. *)
Lemma matchAllFrom_fuel : forall f k,
  length s < k + f -> matchAllFrom s r (S f) k = matchAllFrom s r f k.
Proof.
  induction f as [|f IH]; intros k Hk.
  - simpl. rewrite execFrom_beyond by lia. reflexivity.
  - change (matchAllFrom s r (S (S f)) k)
      with (match execFrom s r k with
            | None => []
            | Some mr =>
                mr :: matchAllFrom s r (S f)
                        (if stop mr =? index mr then S (stop mr) else stop mr)
            end).
    cbn [matchAllFrom].
    destruct (execFrom s r k) as [mr|] eqn:E; [|reflexivity].
    apply execFrom_sound in E. destruct E as [Hge HM].
    pose proof (IsMatch_bounds s r mr HM) as [Hlen Hstop].
    f_equal. apply IH.
    destruct (stop mr =? index mr) eqn:Es.
    + apply Nat.eqb_eq in Es. lia.
    + apply Nat.eqb_neq in Es. lia.
Qed.

Hypothesis r_consumes : 1 <= minLen r.

(** A pattern that always consumes a character makes the loop over [exec]
    visit exactly the matches that [matchAll] lists, within the fuel. *)
Lemma execLoop_foldM : forall (A : Type) (body : MatchResult -> A -> option A) f k acc,
  length s < k + f ->
  execLoop s r body (S f) k acc = foldM body (matchAllFrom s r f k) acc.
Proof.
  intros A body. induction f as [|f IH]; intros k acc Hk.
  - simpl. rewrite execFrom_beyond by lia. reflexivity.
  - change (execLoop s r body (S (S f)) k acc)
      with (match execFrom s r k with
            | None => Some acc
            | Some mr => do acc' <- body mr acc; execLoop s r body (S f) (stop mr) acc'
            end).
    simpl matchAllFrom.
    destruct (execFrom s r k) as [mr|] eqn:E; [|reflexivity].
    apply execFrom_sound in E. destruct E as [Hge HM].
    pose proof (IsMatch_bounds s r mr HM) as [Hlen Hstop].
    assert (Hne : (stop mr =? index mr) = false) by (apply Nat.eqb_neq; lia).
    rewrite Hne. simpl foldM.
    destruct (body mr acc) as [acc'|]; [|reflexivity].
    apply IH. lia.
Qed.

Lemma whileExec_foldM : forall (A : Type) (body : MatchResult -> A -> option A) acc,
  whileExec r s body acc = foldM body (matchAll s r) acc.
Proof.
  intros A body acc. unfold whileExec, matchAll. apply execLoop_foldM. lia.
Qed.

End LoopFacts.

(** A body that succeeds on every match and keeps an invariant: the loop
    finishes and the invariant holds of its result. *)
Lemma foldM_run : forall (A B : Type) (Q : B -> Prop) (P : A -> Prop)
  (f : B -> A -> option A) (l : list B) (acc : A),
  (forall x a, Q x -> P a -> exists a', f x a = Some a' /\ P a') ->
  Forall Q l -> P acc ->
  exists res, foldM f l acc = Some res /\ P res.
Proof.
  intros A B Q P f l. induction l as [|x l IH]; intros acc Hf HQ HP; simpl.
  - exists acc. auto.
  - inversion HQ; subst.
    destruct (Hf x acc H1 HP) as [a' [Ha' HP']]. rewrite Ha'.
    apply IH; assumption.
Qed.

Lemma whileExec_run : forall (A : Type) (P : A -> Prop) (r : regex) (s : jsstring)
  (body : MatchResult -> A -> option A) (acc : A),
  1 <= minLen r ->
  (forall mr a, IsMatch s r mr -> P a -> exists a', body mr a = Some a' /\ P a') ->
  P acc ->
  exists res, whileExec r s body acc = Some res /\ P res.
Proof.
  intros A P r s body acc Hr Hbody HP.
  rewrite whileExec_foldM by assumption.
  apply (foldM_run A MatchResult (IsMatch s r) P);
    [assumption | apply matchAll_IsMatch | assumption].
Qed.

(* ================================================================== *)
(** ** Capture 1 of the analyzer's patterns *)
(* ================================================================== *)

Section CaptureFacts.

Variable s : jsstring.

Lemma iter_keeps : forall (R : nat -> caps -> nat -> caps -> Prop) (P : caps -> Prop),
  (forall i c j c', R i c j c' -> P c -> P c') ->
  forall i c j c', iter R i c j c' -> P c -> P c'.
Proof.
  intros R P HR i c j c' H. induction H; intro HP; [assumption|].
  apply IHiter. eapply HR; eassumption.
Qed.

(** No part of a pattern clears a capture. *)
Lemma Span_keeps_cap1 : forall r i c j c',
  Span s r i c j c' -> cap1 c <> None -> cap1 c' <> None.
Proof.
  induction r as [|p|a IHa b IHb|a IHa b IHb|a IHa|g a IHa| | |];
    intros i c j c' H Hc; simpl in H.
  - destruct H; subst; assumption.
  - destruct H as [ch [_ [_ [_ H]]]]; subst; assumption.
  - destruct H as [k [ck [Ha Hb]]]. eapply IHb; [eassumption|].
    eapply IHa; eassumption.
  - destruct H as [H|H]; [eapply IHa | eapply IHb]; eassumption.
  - revert Hc. apply (iter_keeps (Span s a) (fun c => cap1 c <> None)) with (i := i) (j := j);
      [|assumption]. intros; eapply IHa; eassumption.
  - destruct H as [c0 [Ha H]]. subst. destruct g; simpl; [discriminate|].
    eapply IHa; eassumption.
  - destruct H as [_ [_ H]]; subst; assumption.
  - destruct H as [_ [_ H]]; subst; assumption.
  - destruct H as [_ [_ H]]; subst; assumption.
Qed.

Lemma Span_definesG1 : forall r i c j c',
  definesG1 r = true -> Span s r i c j c' -> cap1 c' <> None.
Proof.
  induction r as [|p|a IHa b IHb|a IHa b IHb|a IHa|g a IHa| | |];
    intros i c j c' Hd H; simpl in Hd; try discriminate; simpl in H.
  - destruct H as [k [ck [Ha Hb]]]. apply orb_true_iff in Hd. destruct Hd as [Hd|Hd].
    + eapply Span_keeps_cap1; [eassumption|]. eapply IHa; eassumption.
    + eapply IHb; eassumption.
  - apply andb_true_iff in Hd. destruct Hd as [Hda Hdb].
    destruct H as [H|H]; [eapply IHa | eapply IHb]; eassumption.
  - destruct H as [c0 [Ha H]]. subst. destruct g; simpl; [discriminate|].
    eapply IHa; eassumption.
Qed.

(** Capture 1 of a match is defined and is a piece of the subject. *)
Lemma IsMatch_group1 : forall r mr,
  definesG1 r = true -> IsMatch s r mr ->
  exists a b, cap1 (groups mr) = Some (a, b) /\ a <= b <= length s /\
              group1 s mr = Some (substring s a b).
Proof.
  intros r mr Hd HM. pose proof (IsMatch_capsOk s r mr HM) as [Hok _].
  destruct HM as [_ HS]. apply (Span_definesG1 r _ _ _ _ Hd) in HS.
  unfold group1. destruct (cap1 (groups mr)) as [[a b]|]; [|congruence].
  exists a, b. simpl in Hok. auto.
Qed.

End CaptureFacts.

(* ================================================================== *)
(** ** One line of [checkSyntax] *)
(* ================================================================== *)

Lemma Appends_refl : forall Q ds, Appends Q ds ds.
Proof. intros Q ds. exists []. rewrite app_nil_r. auto. Qed.

Lemma Appends_trans : forall Q a b c,
  Appends Q a b -> Appends Q b c -> Appends Q a c.
Proof.
  intros Q a b c [D1 [H1 F1]] [D2 [H2 F2]]. exists (D1 ++ D2). subst.
  rewrite app_assoc. split; [reflexivity | apply Forall_app; auto].
Qed.

Lemma Appends_add : forall (Q : Diagnostic -> Prop) ds a b c d msg sev,
  Q (newDiagnostic a b c d msg sev) ->
  Appends Q ds (addDiagnostic a b c d msg sev ds).
Proof.
  intros Q ds a b c d msg sev H. exists [newDiagnostic a b c d msg sev].
  split; [reflexivity | constructor; [assumption | constructor]].
Qed.

Lemma Appends_weaken : forall (Q Q' : Diagnostic -> Prop) a b,
  (forall d, Q d -> Q' d) -> Appends Q a b -> Appends Q' a b.
Proof.
  intros Q Q' a b H [D [HD F]]. exists D. split; [assumption|].
  eapply Forall_impl; eassumption.
Qed.

Lemma top_app : forall (A : Type) (l : list A) (x : A), top (l ++ [x]) = Some x.
Proof.
  intros A l x. unfold top. rewrite length_app. simpl.
  replace (length l + 1 - 1) with (length l) by lia.
  rewrite nth_error_app2 by lia. rewrite Nat.sub_diag. reflexivity.
Qed.

Lemma top_Some : forall (A : Type) (l : list A) (x : A),
  top l = Some x -> l = removelast l ++ [x].
Proof.
  intros A l x. destruct l as [|a l] using rev_ind; intro H.
  - discriminate.
  - rewrite top_app in H. inversion H; subst. rewrite removelast_last. reflexivity.
Qed.

Lemma loopEntries_app : forall a b, loopEntries (a ++ b) = loopEntries a + loopEntries b.
Proof. intros a b. unfold loopEntries. rewrite filter_app, length_app. reflexivity. Qed.

(** The loop over call matches pushes exactly the notes of [hostReport]. *)
Lemma hostLoop_exact : forall i l s ms ds,
  Forall (IsMatch s reFuncCall) ms ->
  foldM (hostFunctionBody i l s) ms ds = Some (ds ++ flat_map (hostReport i l s) ms).
Proof.
  intros i l s ms. induction ms as [|mr ms IH]; intros ds HF; cbn [foldM flat_map].
  - rewrite app_nil_r. reflexivity.
  - inversion HF as [|x y HM HF']; subst.
    destruct (IsMatch_group1 s reFuncCall mr eq_refl HM) as [a [b [_ [_ Hg]]]].
    unfold hostFunctionBody at 1. unfold hostReport at 1. rewrite Hg. cbv beta iota.
    destruct (includes keywords (substring s a b)); cbn [orb]; cbv beta iota.
    + apply IH. assumption.
    + destruct (includes functionNames (substring s a b)); cbn [negb]; cbv beta iota.
      * apply IH. assumption.
      * rewrite IH by assumption. unfold addDiagnostic.
        rewrite <- app_assoc. reflexivity.
Qed.

Lemma hostReport_shape : forall options i l s mr d,
  warnOnHostFunctions options = true ->
  In d (hostReport i l s mr) -> SyntaxDiag options i l KHost d.
Proof.
  intros options i l s mr d Hw H. unfold hostReport in H.
  destruct (group1 s mr) as [f|]; [|contradiction].
  destruct (includes keywords f) eqn:Ek; simpl in H; [contradiction|].
  destruct (includes functionNames f) eqn:Ef; simpl in H; [contradiction|].
  destruct H as [H|[]]. subst d. apply SD_host; assumption.
Qed.

Lemma hostReports_shape : forall options i l,
  Forall (SyntaxDiag options i l KHost) (hostReports options i l).
Proof.
  intros options i l. apply Forall_forall. intros d H. unfold hostReports in H.
  destruct (skipped (trim l)); [contradiction|].
  destruct (warnOnHostFunctions options) eqn:Hw; [|contradiction].
  apply in_flat_map in H. destruct H as [mr [_ H]].
  apply (hostReport_shape options i l _ mr d Hw H).
Qed.

Section CheckLine.

Variable options : AnalyzerOptions.
Variable lines : list jsstring.
Variable i : nat.
Variable l : jsstring.
Hypothesis Hl : nth_error lines i = Some l.
Hypothesis Hsk : skipped (trim l) = false.

Lemma checkUnclosedString_run : forall st,
  blockStack (checkUnclosedString i l st) = blockStack st /\
  inLoop (checkUnclosedString i l st) = inLoop st /\
  emitted (checkUnclosedString i l st) = emitted st ++ stringReport i l.
Proof.
  intro st. unfold checkUnclosedString, stringReport. rewrite Hsk.
  destruct (negb (length (matchAll l reQuote) mod 2 =? 0)); simpl.
  - auto.
  - rewrite app_nil_r. auto.
Qed.

Lemma checkBlockStart_run : forall st,
  StackOk lines (S i) st ->
  exists st', checkBlockStart i (trim l) (withoutStrings (trim l)) st = Some st' /\
              emitted st' = emitted st /\ StackOk lines (S i) st'.
Proof.
  intros st [Hst Hin]. unfold checkBlockStart.
  destruct (test (trim l) reElseif) eqn:Eelse; simpl.
  { exists st. repeat split; assumption. }
  destruct (test (withoutStrings (trim l)) reBlockOpen); simpl;
    [|exists st; repeat split; assumption].
  destruct (exec (withoutStrings (trim l)) reBlockOpen) as [mt|] eqn:E;
    [|exists st; repeat split; assumption].
  pose proof E as E'. unfold exec in E'. apply execFrom_sound in E'.
  destruct E' as [_ HM].
  destruct (IsMatch_group1 _ reBlockOpen mt eq_refl HM) as [a [b [_ [_ Hg]]]].
  rewrite Hg. eexists. split; [reflexivity|]. simpl. split; [reflexivity|].
  split; simpl.
  - apply Forall_app. split; [assumption|]. constructor; [|constructor].
    simpl. split; [lia|]. exists l, mt. simpl. auto.
  - rewrite loopEntries_app. unfold loopEntries at 2. simpl.
    destruct (isLoop (substring (withoutStrings (trim l)) a b)); simpl; lia.
Qed.

Lemma checkBlockEnd_run : forall st,
  StackOk lines (S i) st ->
  Appends (SyntaxDiag options i l KEnd) (emitted st)
    (emitted (checkBlockEnd i (trim l) (withoutStrings (trim l)) st)) /\
  StackOk lines (S i) (checkBlockEnd i (trim l) (withoutStrings (trim l)) st).
Proof.
  intros st [Hst Hin]. unfold checkBlockEnd.
  destruct (test (withoutStrings (trim l)) reEnd);
    [|split; [apply Appends_refl | split; assumption]].
  destruct (top (blockStack st)) as [block|] eqn:Et; simpl.
  - split; [apply Appends_refl|]. apply top_Some in Et.
    rewrite Et in Hst, Hin. apply Forall_app in Hst. destruct Hst as [Hst _].
    split; simpl; [assumption|].
    rewrite loopEntries_app in Hin. unfold loopEntries at 2 in Hin. simpl in Hin.
    destruct (isLoop (Block.type block)); simpl in Hin; lia.
  - split; [apply Appends_add; constructor|]. split; assumption.
Qed.

Lemma checkLoopControl_run : forall st,
  blockStack (checkLoopControl i (trim l) (withoutStrings (trim l)) st) = blockStack st /\
  inLoop (checkLoopControl i (trim l) (withoutStrings (trim l)) st) = inLoop st /\
  emitted (checkLoopControl i (trim l) (withoutStrings (trim l)) st) =
    emitted st ++ loopReport i l st.
Proof.
  intro st. unfold checkLoopControl, loopReport. rewrite Hsk. cbv zeta.
  destruct (test (withoutStrings (trim l)) reBreakContinue && (inLoop st =? 0)%Z); simpl.
  - auto.
  - rewrite app_nil_r. auto.
Qed.

(** The annotated type is a piece of the trimmed line, hence of the line:
    [indexOf] finds it. *)
Lemma checkTypeAnnotation_run : forall st,
  exists st', checkTypeAnnotation i l (trim l) st = Some st' /\
              blockStack st' = blockStack st /\ inLoop st' = inLoop st /\
              Appends (SyntaxDiag options i l KType) (emitted st) (emitted st').
Proof.
  intro st. unfold checkTypeAnnotation.
  destruct (test (trim l) reVarStart);
    [|exists st; repeat split; apply Appends_refl].
  destruct (exec (trim l) reTypeAnnot) as [mt|] eqn:E;
    [|exists st; repeat split; apply Appends_refl].
  unfold exec in E. apply execFrom_sound in E. destruct E as [_ HM].
  destruct (IsMatch_group1 _ reTypeAnnot mt eq_refl HM) as [a [b [_ [Hab Hg]]]].
  rewrite Hg. cbv beta iota.
  destruct (negb (includes typeKeywords (substring (trim l) a b))) eqn:Ety;
    [|exists st; repeat split; apply Appends_refl].
  eexists. split; [reflexivity|]. simpl. repeat split.
  apply Appends_add. constructor.
  - destruct (trim_infix l) as [pre [post Hline]].
    destruct (substring_infix (trim l) a b Hab) as [pre' [post' Htrim]].
    rewrite Hline at 2. rewrite Htrim at 2.
    replace (pre ++ (pre' ++ substring (trim l) a b ++ post') ++ post)
      with ((pre ++ pre') ++ substring (trim l) a b ++ (post' ++ post))
      by (repeat rewrite <- app_assoc; reflexivity).
    apply indexOf_found.
  - apply negb_true_iff in Ety. assumption.
Qed.

Lemma checkHostFunctions_run : forall st,
  exists st', checkHostFunctions options i l (withoutStrings (trim l)) st = Some st' /\
              blockStack st' = blockStack st /\ inLoop st' = inLoop st /\
              emitted st' = emitted st ++ hostReports options i l.
Proof.
  intros st. unfold checkHostFunctions, hostReports. rewrite Hsk.
  destruct (warnOnHostFunctions options) eqn:Hw.
  - rewrite whileExec_foldM by (simpl; lia).
    rewrite hostLoop_exact by apply matchAll_IsMatch.
    eexists. split; [reflexivity|]. simpl. auto.
  - exists st. rewrite app_nil_r. auto.
Qed.

End CheckLine.

(** One line of the pass never faults.  It reaches the loop-control check
    in the state [atLoopCheck] and pushes, in this order: the unclosed-string
    report, reports of an unexpected [end], the loop-control report, reports
    of an unknown type, the host-function notes.  It keeps the invariant of
    the block stack. *)
Lemma checkLine_run : forall options lines i l st,
  nth_error lines i = Some l ->
  StackOk lines i st ->
  exists st' stB D3 D5,
    checkLine options l i st = Some st' /\
    atLoopCheck i l st = Some stB /\
    StackOk lines (S i) stB /\
    blockStack st' = blockStack stB /\ inLoop st' = inLoop stB /\
    emitted st' = emitted st ++ stringReport i l ++ D3 ++ loopReport i l stB ++ D5 ++
                  hostReports options i l /\
    Forall (SyntaxDiag options i l KEnd) D3 /\
    Forall (SyntaxDiag options i l KType) D5.
Proof.
  intros options lines i l st Hl Hok.
  assert (Hok' : StackOk lines (S i) st).
  { destruct Hok as [Hst Hin]. split; [|assumption].
    eapply Forall_impl; [|exact Hst]. simpl. intros b [Hb Ho]. split; [lia | assumption]. }
  unfold checkLine, atLoopCheck. cbv zeta. destruct (skipped (trim l)) eqn:Hsk.
  { exists st, st, [], []. unfold stringReport, loopReport, hostReports. rewrite Hsk.
    simpl. rewrite app_nil_r. repeat split; auto; apply Hok'. }
  destruct (checkUnclosedString_run i l Hsk st) as [Hs1 [Hi1 He1]].
  destruct (checkBlockStart_run lines i l Hl Hsk (checkUnclosedString i l st))
    as [st2 [E2 [He2 Hok2]]].
  { destruct Hok' as [Hst Hin]. split; [rewrite Hs1 | rewrite Hs1, Hi1]; assumption. }
  rewrite E2.
  destruct (checkBlockEnd_run options lines i l st2 Hok2) as [[D3 [He3 HF3]] Hok3].
  set (st3 := checkBlockEnd i (trim l) (withoutStrings (trim l)) st2) in *.
  destruct (checkLoopControl_run i l Hsk st3) as [Hs4 [Hi4 He4]].
  set (st4 := checkLoopControl i (trim l) (withoutStrings (trim l)) st3) in *.
  destruct (checkTypeAnnotation_run options i l st4) as [st5 [E5 [Hs5 [Hi5 [D5 [He5 HF5]]]]]].
  rewrite E5.
  destruct (checkHostFunctions_run options i l Hsk st5) as [st6 [E6 [Hs6 [Hi6 He6]]]].
  exists st6, st3, D3, D5.
  split; [exact E6|]. split; [reflexivity|]. split; [exact Hok3|].
  split; [rewrite Hs6, Hs5, Hs4; reflexivity|].
  split; [rewrite Hi6, Hi5, Hi4; reflexivity|].
  split; [|split; assumption].
  rewrite He6, He5, He4, He3, He2, He1. repeat rewrite <- app_assoc. reflexivity.
Qed.
(* ================================================================== *)
(** ** Characters of a match and of capture 1 *)
(* ================================================================== *)

Section CharFacts.

Variable s : jsstring.

Lemma Span_chars : forall (P : char -> Prop) r i c j c',
  CharsIn P r -> Span s r i c j c' ->
  forall k ch, i <= k < j -> nth_error s k = Some ch -> P ch.
Proof.
  intros P. induction r as [|p|a IHa b IHb|a IHa b IHb|a IHa|g a IHa| | |];
    intros i c j c' HP H k ch Hk Hn; simpl in H, HP.
  - destruct H; subst; lia.
  - destruct H as [ch' [Hn' [Hp [Hj _]]]]. subst.
    assert (k = i) by lia. subst. rewrite Hn in Hn'. inversion Hn'; subst. auto.
  - destruct H as [k0 [ck [Ha Hb]]]. destruct HP as [HPa HPb].
    destruct (Nat.lt_ge_cases k k0).
    + apply (IHa i c k0 ck HPa Ha k ch); [lia | assumption].
    + apply (IHb k0 ck j c' HPb Hb k ch); [lia | assumption].
  - destruct HP as [HPa HPb].
    destruct H as [H|H]; [apply (IHa i c j c' HPa H k ch) | apply (IHb i c j c' HPb H k ch)];
      assumption.
  - induction H as [|i c j c' k0 c'' HR Hlt Hit IH]; [lia|].
    destruct (Nat.lt_ge_cases k j).
    + apply (IHa i c j c' HP HR k ch); [lia | assumption].
    + apply IH. lia.
  - destruct H as [c0 [Ha _]]. apply (IHa i c j c0 HP Ha k ch); assumption.
  - destruct H as [_ [H _]]; subst; lia.
  - destruct H as [_ [H _]]; subst; lia.
  - destruct H as [_ [H _]]; subst; lia.
Qed.

Lemma substring_Forall : forall (P : char -> Prop) a b,
  (forall k ch, a <= k < b -> nth_error s k = Some ch -> P ch) ->
  Forall P (substring s a b).
Proof.
  intros P a b H. apply Forall_forall. intros x Hx.
  apply In_nth_error in Hx. destruct Hx as [n Hn]. unfold substring in Hn.
  rewrite nth_error_firstn in Hn. destruct (n <? b - a) eqn:E; [|discriminate].
  apply Nat.ltb_lt in E. rewrite nth_error_skipn in Hn.
  apply (H (a + n)); [lia | assumption].
Qed.

(** The text of capture 1 is made of the characters its group allows. *)
Lemma Span_G1_chars : forall (P : char -> Prop) r i c j c',
  G1CharsIn P r -> Span s r i c j c' ->
  (forall sp, cap1 c = Some sp -> Forall P (spanText s sp)) ->
  forall sp, cap1 c' = Some sp -> Forall P (spanText s sp).
Proof.
  intros P. induction r as [|p|a IHa b IHb|a IHa b IHb|a IHa|g a IHa| | |];
    intros i c j c' HP H Hc; simpl in H, HP.
  - destruct H; subst; assumption.
  - destruct H as [ch [_ [_ [_ H]]]]; subst; assumption.
  - destruct H as [k [ck [Ha Hb]]]. destruct HP as [HPa HPb].
    apply (IHb k ck j c' HPb Hb). apply (IHa i c k ck HPa Ha Hc).
  - destruct HP as [HPa HPb].
    destruct H as [H|H]; [apply (IHa i c j c' HPa H Hc) | apply (IHb i c j c' HPb H Hc)].
  - induction H as [|i c j c' k0 c'' HR Hlt Hit IH]; [assumption|].
    apply IH. apply (IHa i c j c' HP HR Hc).
  - destruct H as [c0 [Ha H]]. subst. destruct g; simpl.
    + intros sp Hsp. inversion Hsp; subst. unfold spanText. simpl.
      apply substring_Forall. apply (Span_chars P a i c j c0 HP Ha).
    + apply (IHa i c j c0 HP Ha Hc).
  - destruct H as [_ [_ H]]; subst; assumption.
  - destruct H as [_ [_ H]]; subst; assumption.
  - destruct H as [_ [_ H]]; subst; assumption.
Qed.

Lemma IsMatch_G1_chars : forall (P : char -> Prop) r mr t,
  G1CharsIn P r -> IsMatch s r mr -> group1 s mr = Some t -> Forall P t.
Proof.
  intros P r mr t HP [_ HS] Hg. unfold group1 in Hg.
  destruct (cap1 (groups mr)) as [sp|] eqn:E; [|discriminate].
  simpl in Hg. inversion Hg; subst.
  apply (Span_G1_chars P r _ _ _ _ HP HS); [|assumption].
  intros sp' H. discriminate.
Qed.

End CharFacts.

Lemma wordChars_not_dotted : forall t,
  Forall (fun c => isWordChar c = true) t -> isDotted t = false.
Proof.
  intros t H. unfold isDotted. induction H as [|c t Hc Ht IH]; simpl; [reflexivity|].
  rewrite IH, orb_false_r. apply N.eqb_neq. intro; subst. discriminate.
Qed.

(** The name of a declared variable has no dot in it. *)
Lemma reVarDecl_name : forall s mr t,
  IsMatch s reVarDecl mr -> group1 s mr = Some t -> isDotted t = false.
Proof.
  intros s mr t HM Hg. apply wordChars_not_dotted.
  apply (IsMatch_G1_chars s (fun c => isWordChar c = true) reVarDecl mr t);
    [|assumption|assumption].
  simpl. tauto.
Qed.

(* ================================================================== *)
(** ** Running a callback over the lines *)
(* ================================================================== *)

Lemma skipn_cons_nth : forall (A : Type) (all : list A) i x l,
  skipn i all = x :: l -> nth_error all i = Some x /\ skipn (S i) all = l.
Proof.
  intros A all. induction all as [|a all IH]; intros i x l H.
  - destruct i; discriminate.
  - destruct i; simpl in H.
    + inversion H; subst. auto.
    + apply IH in H. simpl. assumption.
Qed.

(** A callback that succeeds on every line and carries an invariant from
    index to index: the pass finishes and the invariant holds at the end. *)
Lemma forEachFrom_run : forall (A St : Type) (I : nat -> St -> Prop)
  (f : A -> nat -> St -> option St) (all : list A),
  (forall k x st, nth_error all k = Some x -> I k st ->
     exists st', f x k st = Some st' /\ I (S k) st') ->
  forall l i st, skipn i all = l -> i <= length all -> I i st ->
    exists st', forEachFrom f l i st = Some st' /\ I (length all) st'.
Proof.
  intros A St I f all Hf. induction l as [|x l IH]; intros i st Hsk Hi HI; simpl.
  - exists st. split; [reflexivity|].
    assert (length (skipn i all) = 0) by (rewrite Hsk; reflexivity).
    rewrite length_skipn in H. replace (length all) with i by lia. assumption.
  - apply skipn_cons_nth in Hsk. destruct Hsk as [Hn Hsk].
    destruct (Hf i x st Hn HI) as [st' [E HI']]. rewrite E.
    apply IH; [assumption | | assumption].
    apply nth_error_Some. congruence.
Qed.

Lemma forEach_run : forall (A St : Type) (I : nat -> St -> Prop)
  (f : A -> nat -> St -> option St) (all : list A) (st : St),
  (forall k x st, nth_error all k = Some x -> I k st ->
     exists st', f x k st = Some st' /\ I (S k) st') ->
  I 0 st ->
  exists st', forEach f all st = Some st' /\ I (length all) st'.
Proof.
  intros A St I f all st Hf HI. unfold forEach.
  apply (forEachFrom_run A St I f all Hf all 0 st); [reflexivity | lia | assumption].
Qed.

(* ================================================================== *)
(** ** One line of [extractSymbols] *)
(* ================================================================== *)

Lemma propertyPaths_app : forall a b,
  propertyPaths (a ++ b) = propertyPaths a ++ propertyPaths b.
Proof. intros a b. unfold propertyPaths. rewrite filter_app, map_app. reflexivity. Qed.

Lemma hasPropertySymbol_app : forall a b p,
  hasPropertySymbol a p -> hasPropertySymbol (a ++ b) p.
Proof.
  intros a b p [ln [ch H]]. exists ln, ch. apply in_or_app. auto.
Qed.

(** Pushing a symbol that is not a dotted property keeps the invariant. *)
Lemma SymbolsOk_push_other : forall lines k st sy,
  isPropertySymbol sy = false -> SymbolsOk lines k st ->
  SymbolsOk lines k {| table := table st ++ [sy]; seenProps := seenProps st |}.
Proof.
  intros lines k st sy Hsy [H1 [H2 [H3 [H4 H5]]]]. repeat split; simpl.
  - rewrite propertyPaths_app, H1. unfold propertyPaths. simpl. rewrite Hsy.
    simpl. rewrite app_nil_r. reflexivity.
  - assumption.
  - intros p Hp. apply hasPropertySymbol_app. auto.
  - assumption.
  - intros sy' Hin Hprop. apply in_app_or in Hin. destruct Hin as [Hin|[Hin|[]]].
    + auto.
    + subst sy'. congruence.
Qed.

Section ExtractLine.

Variable lines : list jsstring.
Variable i : nat.
Variable l : jsstring.
Hypothesis Hl : nth_error lines i = Some l.

Lemma varDeclBody_run : forall mr st,
  IsMatch (trim l) reVarDecl mr -> SymbolsOk lines i st ->
  exists st', varDeclBody i l (trim l) mr st = Some st' /\ SymbolsOk lines i st' /\
              seenProps st' = seenProps st.
Proof.
  intros mr st HM Hok. unfold varDeclBody.
  destruct (IsMatch_group1 _ reVarDecl mr eq_refl HM) as [a [b [_ [_ Hg]]]].
  rewrite Hg. eexists. split; [reflexivity|]. split; [|reflexivity].
  apply SymbolsOk_push_other; [|assumption].
  unfold isPropertySymbol. simpl.
  rewrite (reVarDecl_name (trim l) mr _ HM Hg).
  destruct (group2 (trim l) mr); [apply andb_false_r | reflexivity].
Qed.

Lemma extractForeach_run : forall st,
  SymbolsOk lines i st ->
  exists st', extractForeach i l (trim l) st = Some st' /\ SymbolsOk lines i st' /\
              seenProps st' = seenProps st.
Proof.
  intros st Hok. unfold extractForeach.
  destruct (exec (trim l) reForeach) as [mr|] eqn:E; [|exists st; auto].
  unfold exec in E. apply execFrom_sound in E. destruct E as [_ HM].
  destruct (IsMatch_group1 _ reForeach mr eq_refl HM) as [a [b [_ [_ Hg]]]].
  rewrite Hg. eexists. split; [reflexivity|]. split; [|reflexivity].
  apply SymbolsOk_push_other; [reflexivity | assumption].
Qed.

Hypothesis Hsk : skipped (trim l) = false.

Lemma assignedPaths_In : forall mr p,
  In mr (matchAll (trim l) rePropAssign) -> group1 (trim l) mr = Some p ->
  In p (assignedPaths l).
Proof.
  intros mr p Hmr Hg. unfold assignedPaths. rewrite Hsk.
  apply in_flat_map. exists mr. split; [assumption|]. rewrite Hg. left. reflexivity.
Qed.

(** A path is recorded when it is not in [seenProps] yet: then no earlier
    line assigns to it, and the new symbol sits on the first such line. *)
Lemma propAssignBody_run : forall mr st,
  In mr (matchAll (trim l) rePropAssign) ->
  IsMatch (trim l) rePropAssign mr -> SymbolsOk lines i st ->
  exists st' p, propAssignBody i l (trim l) mr st = Some st' /\ SymbolsOk lines i st' /\
                group1 (trim l) mr = Some p /\ In p (seenProps st') /\
                (forall q, In q (seenProps st) -> In q (seenProps st')).
Proof.
  intros mr st Hmr HM [H1 [H2 [H3 [H4 H5]]]]. unfold propAssignBody.
  destruct (IsMatch_group1 _ rePropAssign mr eq_refl HM) as [a [b [_ [_ Hg]]]].
  rewrite Hg. cbv beta iota. set (p := substring (trim l) a b) in *.
  destruct (includes (seenProps st) p) eqn:Ein; cbn [negb]; cbv beta iota.
  - exists st, p. apply includes_In in Ein. repeat split; auto.
  - eexists. exists p. split; [reflexivity|].
    assert (Hnot : ~ In p (seenProps st)).
    { intro Hin. apply includes_In in Hin. congruence. }
    split; [|split; [reflexivity|split]]; simpl.
    + repeat split; simpl.
      * rewrite propertyPaths_app, H1, filter_app. f_equal.
        unfold propertyPaths, isPropertySymbol. simpl.
        destruct (isDotted p); reflexivity.
      * apply NoDup_app; [assumption | constructor; [intros [] | constructor] |].
        intros q Hq [Hq'|[]]. subst. contradiction.
      * intros q Hq. apply in_app_or in Hq. destruct Hq as [Hq|[Hq|[]]].
        -- apply hasPropertySymbol_app. auto.
        -- subst q. eexists. eexists. apply in_or_app. right. left. reflexivity.
      * intros j l' q Hj Hl' Hq. apply in_or_app. left. apply (H4 j l' q Hj Hl' Hq).
      * intros sy Hin Hprop. apply in_app_or in Hin. destruct Hin as [Hin|[Hin|[]]].
        -- auto.
        -- subst sy. exists i, l. simpl. split; [reflexivity|]. split; [assumption|].
           split; [apply (assignedPaths_In mr p Hmr Hg)|].
           intros j l' Hj Hl' Hq. apply Hnot. apply (H4 j l' p Hj Hl' Hq).
    + apply in_or_app. right. left. reflexivity.
    + intros q Hq. apply in_or_app. auto.
Qed.

(** The loop over assignments records every path it meets. *)
Lemma propLoop_run : forall ms st,
  (forall mr, In mr ms -> In mr (matchAll (trim l) rePropAssign)) ->
  SymbolsOk lines i st ->
  exists st', foldM (propAssignBody i l (trim l)) ms st = Some st' /\
              SymbolsOk lines i st' /\
              (forall q, In q (seenProps st) -> In q (seenProps st')) /\
              (forall mr p, In mr ms -> group1 (trim l) mr = Some p ->
                            In p (seenProps st')).
Proof.
  induction ms as [|mr ms IH]; intros st Hms Hok; cbn [foldM].
  - exists st. split; [reflexivity|]. split; [assumption|]. split; [auto|].
    intros mr p [].
  - assert (Hmr : In mr (matchAll (trim l) rePropAssign)) by (apply Hms; left; reflexivity).
    assert (HM : IsMatch (trim l) rePropAssign mr).
    { pose proof (matchAll_IsMatch (trim l) rePropAssign) as HF.
      rewrite Forall_forall in HF. auto. }
    destruct (propAssignBody_run mr st Hmr HM Hok) as [st1 [p [E [Hok1 [Hg [Hin Hkeep]]]]]].
    rewrite E. destruct (IH st1) as [st' [E' [Hok' [Hkeep' Hall]]]];
      [intros mr' Hmr'; apply Hms; right; assumption | assumption |].
    exists st'. split; [assumption|]. split; [assumption|]. split; [auto|].
    intros mr' p' [Hmr'|Hmr'] Hg'.
    + subst mr'. rewrite Hg in Hg'. inversion Hg'; subst. auto.
    + eapply Hall; eassumption.
Qed.

End ExtractLine.

(** One line of the pass never faults and carries the invariant of the
    table over to the next line. *)
Lemma extractLine_run : forall lines i l st,
  nth_error lines i = Some l ->
  SymbolsOk lines i st ->
  exists st', extractLine l i st = Some st' /\ SymbolsOk lines (S i) st'.
Proof.
  intros lines i l st Hl Hok. unfold extractLine.
  destruct (skipped (trim l)) eqn:Hsk.
  { exists st. split; [reflexivity|].
    destruct Hok as [H1 [H2 [H3 [H4 H5]]]]. repeat split; auto.
    intros j l' p Hj Hl' Hp. destruct (Nat.eq_dec j i) as [->|Hne].
    - rewrite Hl in Hl'. inversion Hl'; subst l'.
      unfold assignedPaths in Hp. rewrite Hsk in Hp. contradiction.
    - apply (H4 j l' p); [lia | assumption | assumption]. }
  destruct (whileExec_run SymbolState
              (fun st' => SymbolsOk lines i st' /\ seenProps st' = seenProps st)
              reVarDecl (trim l) (varDeclBody i l (trim l)) st)
    as [st1 [E1 [Hok1 Hs1]]].
  - simpl. lia.
  - intros mr a HM [Ha Hs].
    destruct (varDeclBody_run lines i l mr a HM Ha) as [a' [E [Ha' Hs']]].
    exists a'. split; [assumption|]. split; [assumption | congruence].
  - auto.
  - rewrite E1.
    destruct (extractForeach_run lines i l st1 Hok1) as [st2 [E2 [Hok2 Hs2]]]. rewrite E2.
    rewrite whileExec_foldM by (simpl; lia).
    destruct (propLoop_run lines i l Hl Hsk (matchAll (trim l) rePropAssign) st2)
      as [st3 [E3 [Hok3 [Hkeep Hall]]]]; [auto | assumption |].
    exists st3. split; [assumption|].
    destruct Hok3 as [H1 [H2 [H3 [H4 H5]]]]. repeat split; auto.
    intros j l' p Hj Hl' Hp. destruct (Nat.eq_dec j i) as [->|Hne].
    + rewrite Hl in Hl'. inversion Hl'; subst l'.
      unfold assignedPaths in Hp. rewrite Hsk in Hp.
      apply in_flat_map in Hp. destruct Hp as [mr [Hmr Hp]].
      destruct (group1 (trim l) mr) as [p'|] eqn:Hg; [|contradiction].
      destruct Hp as [Hp|[]]. subst p'. eapply Hall; eassumption.
    + apply (H4 j l' p); [lia | assumption | assumption].
Qed.

(* ================================================================== *)
(** ** One line of [validateSemantics] *)
(* ================================================================== *)

Lemma identBody_run : forall declaredVars i s mr ds0 ds,
  IsMatch s reIdent mr ->
  Appends (SemanticDiag i) ds0 ds ->
  exists ds', identBody declaredVars i s mr ds = Some ds' /\
              Appends (SemanticDiag i) ds0 ds'.
Proof.
  intros declaredVars i s mr ds0 ds HM Hds. unfold identBody.
  destruct (IsMatch_group1 s reIdent mr eq_refl HM) as [a [b [_ [_ Hg]]]].
  rewrite Hg. cbv beta iota zeta.
  repeat match goal with
         | |- context [if ?c then Some ds else _] => destruct c; [exists ds; auto|]
         end.
  destruct (negb (includes declaredVars (substring s a b))); [|exists ds; auto].
  eexists. split; [reflexivity|].
  eapply Appends_trans; [exact Hds|]. apply Appends_add. constructor.
Qed.

Lemma validateLine_run : forall declaredVars l i ds,
  exists ds', validateLine declaredVars l i ds = Some ds' /\
              Appends (SemanticDiag i) ds ds'.
Proof.
  intros declaredVars l i ds. unfold validateLine.
  destruct (skipped (trim l)); [exists ds; split; [reflexivity | apply Appends_refl]|].
  cbv zeta.
  apply (whileExec_run (list Diagnostic) (fun ds' => Appends (SemanticDiag i) ds ds')).
  - simpl. lia.
  - intros mr a HM Ha. apply identBody_run; assumption.
  - apply Appends_refl.
Qed.
(* ================================================================== *)
(** ** The three passes over a document *)
(* ================================================================== *)

Lemma forEachFrom_app : forall (A St : Type) (f : A -> nat -> St -> option St)
  (a b : list A) (i : nat) (st : St),
  forEachFrom f (a ++ b) i st =
  do st1 <- forEachFrom f a i st; forEachFrom f b (i + length a) st1.
Proof.
  intros A St f a. induction a as [|x a IH]; intros b i st; simpl.
  - rewrite Nat.add_0_r. reflexivity.
  - destruct (f x i st) as [st'|]; [|reflexivity].
    rewrite IH. replace (S i + length a) with (i + S (length a)) by lia. reflexivity.
Qed.

Lemma SyntaxDiagIn_weaken : forall options lines lo hi lo' hi' d,
  lo' <= lo -> hi <= hi' ->
  SyntaxDiagIn options lines lo hi d -> SyntaxDiagIn options lines lo' hi' d.
Proof.
  intros options lines lo hi lo' hi' d Hlo Hhi [j [l [k [Hj H]]]].
  exists j, l, k. split; [lia | assumption].
Qed.

Lemma filter_none : forall (A : Type) (f : A -> bool) (l : list A),
  Forall (fun x => f x = false) l -> filter f l = [].
Proof.
  intros A f l H. induction H as [|x l Hx Hl IH]; simpl; [reflexivity|].
  rewrite Hx. assumption.
Qed.

Lemma filter_all : forall (A : Type) (f : A -> bool) (l : list A),
  Forall (fun x => f x = true) l -> filter f l = l.
Proof.
  intros A f l H. induction H as [|x l Hx Hl IH]; simpl; [reflexivity|].
  rewrite Hx, IH. reflexivity.
Qed.

Lemma stringReport_shape : forall options i l,
  Forall (SyntaxDiag options i l KString) (stringReport i l).
Proof.
  intros options i l. unfold stringReport.
  destruct (skipped (trim l)); [constructor|].
  destruct (negb (length (matchAll l reQuote) mod 2 =? 0)); repeat constructor.
Qed.

Lemma loopReport_shape : forall options i l st,
  Forall (SyntaxDiag options i l KLoop) (loopReport i l st).
Proof.
  intros options i l st. unfold loopReport. cbv zeta.
  destruct (skipped (trim l)); [constructor|].
  destruct (test (withoutStrings (trim l)) reBreakContinue && (inLoop st =? 0)%Z);
    [|constructor].
  constructor; [|constructor]. constructor. unfold loopKeyword.
  destruct (strIncludes (js "break") (withoutStrings (trim l))); auto.
Qed.

(** Only the host-function check pushes [Information]. *)
Lemma SyntaxDiag_information : forall options i l k d,
  SyntaxDiag options i l k d ->
  isInformation d = match k with KHost => true | _ => false end.
Proof. intros options i l k d H. destruct H; reflexivity. Qed.

Lemma kind_not_information : forall options i l k D,
  k <> KHost -> Forall (SyntaxDiag options i l k) D -> filter isInformation D = [].
Proof.
  intros options i l k D Hk H. apply filter_none.
  eapply Forall_impl; [|exact H]. intros d Hd. simpl.
  rewrite (SyntaxDiag_information _ _ _ _ _ Hd). destruct k; congruence.
Qed.

Lemma hostReports_information : forall options i l,
  filter isInformation (hostReports options i l) = hostReports options i l.
Proof.
  intros options i l. apply filter_all.
  eapply Forall_impl; [|apply hostReports_shape]. intros d Hd. simpl.
  rewrite (SyntaxDiag_information _ _ _ _ _ Hd). reflexivity.
Qed.

Lemma Forall_kind_In : forall options lines i l k D,
  nth_error lines i = Some l ->
  Forall (SyntaxDiag options i l k) D ->
  Forall (SyntaxDiagIn options lines i (S i)) D.
Proof.
  intros options lines i l k D Hl H. eapply Forall_impl; [|exact H].
  intros d Hd. exists i, l, k. split; [lia | auto].
Qed.

(** [checkSyntax] over a stretch [l] of the document that starts at line
    [i]: it never faults, keeps the stack invariant, pushes diagnostics of
    those lines only, and its notes are those of [hostReportsFrom]. *)
Lemma syntaxRun : forall options lines l i st,
  (forall j x, nth_error l j = Some x -> nth_error lines (i + j) = Some x) ->
  StackOk lines i st ->
  exists st', forEachFrom (checkLine options) l i st = Some st' /\
              StackOk lines (i + length l) st' /\
              Appends (SyntaxDiagIn options lines i (i + length l))
                (emitted st) (emitted st') /\
              filter isInformation (emitted st') =
                filter isInformation (emitted st) ++ hostReportsFrom options l i.
Proof.
  intros options lines. induction l as [|x l IH]; intros i st Hseg Hok.
  - exists st. simpl. rewrite Nat.add_0_r, app_nil_r.
    split; [reflexivity|]. split; [assumption|]. split; [apply Appends_refl | reflexivity].
  - assert (Hx : nth_error lines i = Some x).
    { specialize (Hseg 0 x eq_refl). rewrite Nat.add_0_r in Hseg. assumption. }
    destruct (checkLine_run options lines i x st Hx Hok)
      as [st1 [stB [D3 [D5 [E1 [_ [_ [Hs1 [Hi1 [He1 [HF3 HF5]]]]]]]]]]].
    assert (Hok1 : StackOk lines (S i) st1).
    { destruct (checkLine_run options lines i x st Hx Hok)
        as [st1' [stB' [? [? [E1' [EB [HokB [Hs [Hi _]]]]]]]]].
      rewrite E1 in E1'. inversion E1'; subst st1'.
      destruct HokB as [H1 H2]. split; [rewrite Hs | rewrite Hs, Hi]; assumption. }
    destruct (IH (S i) st1) as [st' [E' [Hok' [Ha' Hinf']]]].
    { intros j y Hj. replace (S i + j) with (i + S j) by lia. apply Hseg. assumption. }
    { assumption. }
    exists st'. simpl. rewrite E1.
    replace (i + S (length l)) with (S i + length l) by lia.
    split; [assumption|]. split; [assumption|]. split.
    + eapply Appends_trans.
      * exists (stringReport i x ++ D3 ++ loopReport i x stB ++ D5 ++ hostReports options i x).
        split; [exact He1|].
        eapply Forall_impl;
          [intros d Hd; apply (SyntaxDiagIn_weaken options lines i (S i) i (S i + length l) d);
           [lia | lia | exact Hd]|].
        apply Forall_app; split;
          [apply (Forall_kind_In options lines i x KString _ Hx); apply stringReport_shape|].
        apply Forall_app; split; [apply (Forall_kind_In options lines i x KEnd _ Hx HF3)|].
        apply Forall_app; split;
          [apply (Forall_kind_In options lines i x KLoop _ Hx); apply loopReport_shape|].
        apply Forall_app; split; [apply (Forall_kind_In options lines i x KType _ Hx HF5)|].
        apply (Forall_kind_In options lines i x KHost _ Hx). apply hostReports_shape.
      * eapply Appends_weaken; [|exact Ha']. intros d Hd.
        apply (SyntaxDiagIn_weaken options lines (S i) (S i + length l) i (S i + length l) d);
          [lia | lia | exact Hd].
    + rewrite Hinf', He1. repeat rewrite filter_app.
      rewrite (kind_not_information options i x KString (stringReport i x))
        by (discriminate || apply stringReport_shape).
      rewrite (kind_not_information options i x KEnd D3) by (discriminate || assumption).
      rewrite (kind_not_information options i x KLoop (loopReport i x stB))
        by (discriminate || apply loopReport_shape).
      rewrite (kind_not_information options i x KType D5) by (discriminate || assumption).
      rewrite hostReports_information. simpl. rewrite <- app_assoc. reflexivity.
Qed.

Lemma StackOk_initial : forall lines ds, StackOk lines 0 (initialSyntaxState ds).
Proof. intros lines ds. split; [constructor | reflexivity]. Qed.

(** The whole of the first loop of [checkSyntax]. *)
Lemma syntaxPass_run : forall options lines ds,
  exists st, forEach (checkLine options) lines (initialSyntaxState ds) = Some st /\
             StackOk lines (length lines) st /\
             Appends (SyntaxDiagIn options lines 0 (length lines)) ds (emitted st) /\
             filter isInformation (emitted st) =
               filter isInformation ds ++ hostReportsFrom options lines 0.
Proof.
  intros options lines ds.
  destruct (syntaxRun options lines lines 0 (initialSyntaxState ds)) as [st H].
  - intros j x Hj. assumption.
  - apply StackOk_initial.
  - exists st. exact H.
Qed.

(** With the stack invariant the unclosed-block report never reads a line
    that does not exist. *)
Lemma checkUnclosedBlocks_eq : forall lines st,
  StackOk lines (length lines) st ->
  checkUnclosedBlocks lines st =
    Some (emitted st ++ unclosedReport lines (blockStack st)).
Proof.
  intros lines st [Hst _]. unfold checkUnclosedBlocks, unclosedReport.
  destruct (top (blockStack st)) as [b|] eqn:Et; [|rewrite app_nil_r; reflexivity].
  apply top_Some in Et. rewrite Et in Hst. apply Forall_app in Hst.
  destruct Hst as [_ Hb]. inversion Hb as [|x y [Hlt _] _]; subst.
  destruct (nth_error lines (Block.line b)) as [lb|] eqn:En.
  - reflexivity.
  - apply nth_error_None in En. lia.
Qed.

Lemma checkSyntax_eq : forall this st,
  forEach (checkLine (options this)) (lines this)
    (initialSyntaxState (diagnostics this)) = Some st ->
  StackOk (lines this) (length (lines this)) st ->
  checkSyntax this =
    Some (withDiagnostics this
            (emitted st ++ unclosedReport (lines this) (blockStack st))).
Proof.
  intros this st E Hok. unfold checkSyntax.
  change {| blockStack := []; inLoop := 0; emitted := diagnostics this |}
    with (initialSyntaxState (diagnostics this)).
  rewrite E. rewrite (checkUnclosedBlocks_eq _ _ Hok). reflexivity.
Qed.

Lemma SymbolsOk_initial : forall lines,
  SymbolsOk lines 0 {| table := []; seenProps := [] |}.
Proof.
  intro lines. split; [reflexivity|]. split; [constructor|].
  split; [intros p []|]. split; [intros j l' p Hj; lia | intros sy []].
Qed.

(** The loop of [extractSymbols], from an empty table. *)
Lemma symbolPass_run : forall lines,
  exists sy, forEach extractLine lines {| table := []; seenProps := [] |} = Some sy /\
             SymbolsOk lines (length lines) sy.
Proof.
  intros lines.
  apply (forEach_run jsstring SymbolState (fun k st => SymbolsOk lines k st)).
  - intros k x st Hx Hok. apply extractLine_run; assumption.
  - apply SymbolsOk_initial.
Qed.

(** The loop of [validateSemantics]. *)
Lemma semanticPass_run : forall declaredVars lines ds,
  exists E3, forEach (validateLine declaredVars) lines ds = Some (ds ++ E3) /\
             Forall (SemanticDiagIn 0 (length lines)) E3.
Proof.
  intros declaredVars lines ds.
  destruct (forEach_run jsstring (list Diagnostic)
              (fun k ds' => Appends (SemanticDiagIn 0 k) ds ds')
              (validateLine declaredVars) lines ds)
    as [ds' [E [E3 [HE HF]]]].
  - intros k x st Hx Hst.
    destruct (validateLine_run declaredVars x k st) as [st' [E Ha]].
    exists st'. split; [assumption|].
    eapply Appends_trans.
    + eapply Appends_weaken; [|exact Hst]. intros d [j [Hj Hd]]. exists j. split; [lia | auto].
    + eapply Appends_weaken; [|exact Ha]. intros d Hd. exists k. split; [lia | auto].
  - apply Appends_refl.
  - exists E3. subst ds'. auto.
Qed.

(** [analyze] on any instance: the three loops finish, and the returned
    list is the diagnostics of the syntax loop, then the unclosed-block
    report, then the diagnostics of the semantic loop. *)
Lemma analyze_run : forall this,
  exists st sy E3,
    forEach (checkLine (options this)) (lines this) (initialSyntaxState []) = Some st /\
    forEach extractLine (lines this) {| table := []; seenProps := [] |} = Some sy /\
    Forall (SemanticDiagIn 0 (length (lines this))) E3 /\
    analyze this =
      Some (emitted st ++ unclosedReport (lines this) (blockStack st) ++ E3,
            {| text := text this; uri := uri this; lines := lines this;
               diagnostics := emitted st ++ unclosedReport (lines this) (blockStack st) ++ E3;
               symbols := table sy; options := options this |}).
Proof.
  intro this.
  destruct (syntaxPass_run (options this) (lines this) []) as [st [E1 [Hok _]]].
  destruct (symbolPass_run (lines this)) as [sy [E2 _]].
  destruct (semanticPass_run (map SymbolInfo.name (table sy) ++ [js "Data"]) (lines this)
              (emitted st ++ unclosedReport (lines this) (blockStack st)))
    as [E3 [E3' HF3]].
  exists st, sy, E3. split; [assumption|]. split; [assumption|]. split; [assumption|].
  unfold analyze. cbv zeta.
  rewrite (checkSyntax_eq (withSymbols (withDiagnostics this []) []) st E1 Hok).
  unfold extractSymbols. simpl. rewrite E2. cbv beta iota.
  unfold validateSemantics. simpl. rewrite E3'. cbv beta iota. simpl.
  rewrite <- app_assoc. reflexivity.
Qed.
(* ================================================================== *)
(** ** Counting quote characters *)
(* ================================================================== *)

Section QuoteCount.

Variable s : jsstring.
Variable p : char -> bool.

Lemma execFrom_chr_hit : forall k c,
  nth_error s k = Some c -> p c = true ->
  execFrom s (Chr p) k = Some {| index := k; stop := S k; groups := noCaps |}.
Proof.
  intros k c Hn Hp. unfold execFrom.
  assert (Hk : k < length s) by (apply nth_error_Some; congruence).
  destruct (length s <? k) eqn:E; [apply Nat.ltb_lt in E; lia|].
  destruct (length s - k); simpl; unfold matchAt; simpl; rewrite Hn, Hp; reflexivity.
Qed.

Lemma execFrom_chr_miss : forall k c,
  nth_error s k = Some c -> p c = false ->
  execFrom s (Chr p) k = execFrom s (Chr p) (S k).
Proof.
  intros k c Hn Hp. unfold execFrom.
  assert (Hk : k < length s) by (apply nth_error_Some; congruence).
  destruct (length s <? k) eqn:E; [apply Nat.ltb_lt in E; lia|].
  destruct (length s <? S k) eqn:E'; [apply Nat.ltb_lt in E'; lia|].
  replace (length s - k) with (S (length s - S k)) by lia.
  simpl. unfold matchAt at 1. simpl. rewrite Hn, Hp. reflexivity.
Qed.

Lemma execFrom_chr_end : execFrom s (Chr p) (length s) = None.
Proof.
  unfold execFrom. rewrite Nat.ltb_irrefl, Nat.sub_diag. simpl. unfold matchAt. simpl.
  assert (H : nth_error s (length s) = None) by (apply nth_error_None; lia).
  rewrite H. reflexivity.
Qed.

(** A one-character pattern has as many matches as the subject has
    characters of its class. *)
Lemma matchAllFrom_chr_count : forall rest k fuel,
  skipn k s = rest -> k <= length s -> length rest < fuel ->
  length (matchAllFrom s (Chr p) fuel k) = length (filter p rest).
Proof.
  induction rest as [|c rest IH]; intros k fuel Hsk Hk Hfuel.
  - assert (length (skipn k s) = 0) by (rewrite Hsk; reflexivity).
    rewrite length_skipn in H. assert (k = length s) by lia. subst k.
    destruct fuel as [|f]; [simpl in Hfuel; lia|].
    simpl. rewrite execFrom_chr_end. reflexivity.
  - apply skipn_cons_nth in Hsk. destruct Hsk as [Hn Hsk].
    assert (Hk' : S k <= length s) by (apply nth_error_Some; congruence).
    destruct fuel as [|f]; [simpl in Hfuel; lia|]. simpl in Hfuel.
    destruct (p c) eqn:Hp.
    + cbn [matchAllFrom]. rewrite (execFrom_chr_hit k c Hn Hp). cbn [stop index].
      replace (S k =? k) with false by (symmetry; apply Nat.eqb_neq; lia).
      cbn [filter length]. rewrite Hp. cbn [length]. f_equal.
      apply IH; [assumption | assumption | lia].
    + cbn [filter]. rewrite Hp. rewrite <- (IH (S k) (S f) Hsk Hk') by lia.
      cbn [matchAllFrom]. rewrite (execFrom_chr_miss k c Hn Hp). reflexivity.
Qed.

Lemma matchAll_chr_count : length (matchAll s (Chr p)) = length (filter p s).
Proof.
  unfold matchAll. apply matchAllFrom_chr_count; [reflexivity | lia | lia].
Qed.

End QuoteCount.

Lemma filter_isChar_count : forall (x : char) (l : jsstring),
  length (filter (isChar x) l) = count_occ N.eq_dec l x.
Proof.
  intros x l. induction l as [|c l IH]; simpl; [reflexivity|].
  unfold isChar at 1. destruct (N.eq_dec c x) as [->|Hne].
  - rewrite N.eqb_refl. simpl. rewrite IH. reflexivity.
  - replace (c =? x)%N with false by (symmetry; apply N.eqb_neq; assumption).
    assumption.
Qed.

(** The source's test on the [match] array is the parity of the number of
    quote characters of the line. *)
Lemma quoteCount_odd : forall l,
  negb (length (matchAll l reQuote) mod 2 =? 0) = Nat.odd (count_occ N.eq_dec l dq).
Proof.
  intro l. unfold reQuote. rewrite matchAll_chr_count, filter_isChar_count.
  change 34%N with dq. generalize (count_occ N.eq_dec l dq). intro n.
  rewrite <- Nat.bit0_mod, Nat.bit0_odd. destruct (Nat.odd n); reflexivity.
Qed.

(* ================================================================== *)
(** ** What [trim] removes *)
(* ================================================================== *)

(** A line whose trimmed text is empty is made of white space. *)
Lemma trim_empty : forall l,
  trim l = [] -> Forall (fun c => isSpace c = true) l.
Proof.
  intros l H. unfold trim, trimEnd in H.
  assert (H1 : trimStart (rev (trimStart l)) = []).
  { rewrite <- (rev_involutive (trimStart (rev (trimStart l)))), H. reflexivity. }
  destruct (trimStart_spaces (rev (trimStart l))) as [pre1 [E1 F1]].
  rewrite H1, app_nil_r in E1.
  destruct (trimStart_spaces l) as [pre [E F]].
  rewrite E. apply Forall_app. split; [assumption|].
  rewrite <- (rev_involutive (trimStart l)), E1. apply Forall_rev. assumption.
Qed.

Lemma quotes_not_empty : forall l,
  Nat.odd (count_occ N.eq_dec l dq) = true -> (length (trim l) =? 0) = false.
Proof.
  intros l H. apply Nat.eqb_neq. intro Hlen.
  assert (Ht : trim l = []) by (destruct (trim l); [reflexivity | discriminate]).
  apply trim_empty in Ht.
  assert (Hc : count_occ N.eq_dec l dq = 0).
  { apply count_occ_not_In. intro Hin.
    rewrite Forall_forall in Ht. apply Ht in Hin. discriminate. }
  rewrite Hc in H. discriminate.
Qed.

(* ================================================================== *)
(** ** [checkSyntax] around one line *)
(* ================================================================== *)

(** The first loop of [checkSyntax] seen from line [i]: the lines before
    it lead to the state [stA], the line itself reaches its loop-control
    check in [stB], and the diagnostics of the whole loop are those of the
    lines before, then those of line [i], then those of the lines after. *)
Lemma syntaxSplit : forall options lines i l,
  nth_error lines i = Some l ->
  exists stA stB stN D3 D5 Dpre Dpost,
    forEachFrom (checkLine options) (firstn i lines) 0 (initialSyntaxState []) = Some stA /\
    StackOk lines i stA /\
    atLoopCheck i l stA = Some stB /\
    StackOk lines (S i) stB /\
    forEach (checkLine options) lines (initialSyntaxState []) = Some stN /\
    emitted stN =
      Dpre ++ (stringReport i l ++ D3 ++ loopReport i l stB ++ D5 ++
               hostReports options i l) ++ Dpost /\
    Forall (SyntaxDiagIn options lines 0 i) Dpre /\
    Forall (SyntaxDiag options i l KEnd) D3 /\
    Forall (SyntaxDiag options i l KType) D5 /\
    Forall (SyntaxDiagIn options lines (S i) (length lines)) Dpost.
Proof.
  intros options lines i l Hl.
  destruct (nth_error_split lines i Hl) as [l1 [l2 [Hlines Hlen]]].
  assert (Hfirst : firstn i lines = l1).
  { rewrite Hlines, <- Hlen, firstn_app, Nat.sub_diag, firstn_all. simpl.
    apply app_nil_r. }
  destruct (syntaxRun options lines l1 0 (initialSyntaxState []))
    as [stA [EA [HokA [[Dpre [HpreE HpreF]] _]]]].
  { intros j x Hj. simpl. rewrite Hlines. rewrite nth_error_app1; [assumption|].
    apply nth_error_Some. congruence. }
  { apply StackOk_initial. }
  simpl in HokA, HpreE, HpreF. rewrite Hlen in HokA, HpreF.
  destruct (checkLine_run options lines i l stA Hl HokA)
    as [stL [stB [D3 [D5 [EL [EB [HokB [Hs [Hi [He [HF3 HF5]]]]]]]]]]].
  assert (HokL : StackOk lines (S i) stL).
  { destruct HokB as [H1 H2]. split; [rewrite Hs | rewrite Hs, Hi]; assumption. }
  destruct (syntaxRun options lines l2 (S i) stL)
    as [stN [EN [HokN [[Dpost [HpostE HpostF]] _]]]].
  { intros j x Hj. rewrite Hlines. rewrite nth_error_app2 by lia.
    replace (S i + j - length l1) with (S j) by lia. simpl. assumption. }
  { assumption. }
  assert (Hn : S i + length l2 = length lines).
  { rewrite Hlines, length_app. simpl. lia. }
  rewrite Hn in HpostF.
  exists stA, stB, stN, D3, D5, Dpre, Dpost.
  split; [rewrite Hfirst; assumption|]. split; [assumption|].
  split; [assumption|]. split; [assumption|]. split.
  - unfold forEach. rewrite Hlines at 1. rewrite forEachFrom_app, EA. simpl.
    rewrite Hlen, EL. assumption.
  - split; [|repeat split; assumption].
    rewrite HpostE, He, HpreE. simpl. repeat rewrite <- app_assoc. reflexivity.
Qed.
(* ================================================================== *)
(** ** The analyzer on the documents of the specification *)
(* ================================================================== *)

(** C1: for the text [var x = 5 / if x > 3 then / y = 10 / end] the symbol
    table after [analyze()] holds the symbol [x] of the [var] declaration,
    and the returned list holds the Warning for the undefined variable [y]
    at the token [y] of the third line; it is in fact the only diagnostic. *)
Theorem C1_example_document : forall uri options,
  exists this',
    analyze (new_DocumentAnalyzer docAssign uri options) =
      Some ([newDiagnostic 2 2 2 3 (msgUndefinedVariable (js "y")) Warning], this') /\
    symbols this' = [SymbolInfo.mk (js "x") None 0 4] /\
    nth_error (lines this') 2 = Some (js "  y = 10") /\
    substring (js "  y = 10") 2 3 = js "y".
Proof.
  intros uri [[|]]; eexists; vm_compute; repeat split; reflexivity.
Qed.

(** C8: [var age: number] yields no diagnostic at all; [var age: int] yields
    exactly one Error, at columns 9 to 12 where the annotation [int] stands,
    whose message names [int] and lists the five type names (the other
    diagnostic of that line is the Warning of the semantic pass). *)
Theorem C8_type_annotation : forall uri options,
  (exists this',
     analyze (new_DocumentAnalyzer (js "var age: number") uri options) = Some ([], this')) /\
  (exists this',
     analyze (new_DocumentAnalyzer (js "var age: int") uri options) =
       Some ([newDiagnostic 0 9 0 12 (msgUnknownType (js "int")) Error;
              newDiagnostic 0 9 0 12 (msgUndefinedVariable (js "int")) Warning], this')) /\
  substring (js "var age: int") 9 12 = js "int" /\
  msgUnknownType (js "int") =
    js "Unknown type " ++ [dq] ++ js "int" ++ [dq] ++
    js ". Expected: number, string, boolean, object, or array".
Proof.
  intros uri [[|]]; (split; [|split; [|split]]);
    try (eexists; vm_compute; reflexivity); reflexivity.
Qed.

(** C2, the input on which the code departs from it: a call that follows a
    string literal.  The note for [Foo] is placed at columns 9 to 12, the
    position of [Foo] in the stripped copy; in the raw line these columns
    hold the text around the plus sign, and [Foo] stands at 12 to 15. *)
Theorem C2_call_position_in_stripped_copy :
  exists this',
    analyze (new_DocumentAnalyzer docCallAfterString exampleUri defaultOptions) =
      Some ([newDiagnostic 0 9 0 12 (msgHostFunction (js "Foo")) Information;
             newDiagnostic 0 0 0 1 (msgUndefinedVariable (js "x")) Warning], this') /\
    lines this' = [docCallAfterString] /\
    substring docCallAfterString 9 12 = js " + " /\
    substring docCallAfterString 12 15 = js "Foo" /\
    substring (withoutStrings (trim docCallAfterString)) 9 12 = js "Foo".
Proof.
  eexists. vm_compute. repeat split; reflexivity.
Qed.

(* ================================================================== *)
(** ** [analyze] always returns *)
(* ================================================================== *)


(* ================================================================== *)
(** ** Every diagnostic is well-formed *)
(* ================================================================== *)

Lemma SyntaxDiag_wellFormed : forall options lines i l k d,
  nth_error lines i = Some l -> SyntaxDiag options i l k d -> wellFormed lines d.
Proof.
  intros options lines i l k d Hl H.
  assert (Hi : i < length lines) by (apply nth_error_Some; congruence).
  destruct H; unfold wellFormed; simpl; repeat split; lia.
Qed.

Lemma SemanticDiag_wellFormed : forall lines i d,
  i < length lines -> SemanticDiag i d -> wellFormed lines d.
Proof.
  intros lines i d Hi H. destruct H; unfold wellFormed; simpl; repeat split; lia.
Qed.

Lemma unclosedReport_wellFormed : forall lines stack,
  Forall (wellFormed lines) (unclosedReport lines stack).
Proof.
  intros lines stack. unfold unclosedReport.
  destruct (top stack) as [b|]; [|constructor].
  destruct (nth_error lines (Block.line b)) as [l|] eqn:E; [|constructor].
  assert (Hi : Block.line b < length lines) by (apply nth_error_Some; congruence).
  constructor; [|constructor]. unfold wellFormed; simpl; repeat split; lia.
Qed.

(** C10: every diagnostic that [analyze()] returns starts and ends on one
    line, which is a line of the document; its start column is at least 0
    and at most its end column; its source tag is [jyro]. *)
Theorem C10_diagnostics_well_formed : forall text uri opts,
  exists ds this',
    analyze (new_DocumentAnalyzer text uri opts) = Some (ds, this') /\
    Forall (wellFormed (lines (new_DocumentAnalyzer text uri opts))) ds.
Proof.
  intros text uri opts.
  set (this := new_DocumentAnalyzer text uri opts).
  destruct (analyze_run this) as [st [sy [E3 [E1 [_ [HF3 H]]]]]].
  destruct (syntaxPass_run (options this) (lines this) []) as [st' [E1' [_ [[D [HD HF]] _]]]].
  rewrite E1 in E1'. inversion E1'; subst st'. simpl in HD.
  eexists. eexists. split; [exact H|].
  apply Forall_app. split; [|apply Forall_app; split].
  - rewrite HD. eapply Forall_impl; [|exact HF].
    intros d [j [l [k [_ [Hl Hd]]]]]. apply (SyntaxDiag_wellFormed _ _ _ _ _ _ Hl Hd).
  - apply unclosedReport_wellFormed.
  - eapply Forall_impl; [|exact HF3].
    intros d [j [Hj Hd]]. apply (SemanticDiag_wellFormed _ _ _ (proj2 Hj) Hd).
Qed.
(* ================================================================== *)
(** ** The unclosed-block report *)
(* ================================================================== *)





(* ================================================================== *)
(** ** The host-function notes *)
(* ================================================================== *)




Lemma isInformation_sound : forall d, isInformation d = true <-> severity d = Information.
Proof.
  intro d. unfold isInformation. destruct (severity d); split; intro H;
    try reflexivity; discriminate.
Qed.


(** The three cases of the option on one-line documents: a call to [Foo],
    which is not registered, with the option on and off, and a call to the
    registered [Upper]. *)
Example host_function_option :
  (exists this',
     analyze (new_DocumentAnalyzer (js "Foo(1)") exampleUri {| warnOnHostFunctions := true |}) =
       Some ([newDiagnostic 0 0 0 3 (msgHostFunction (js "Foo")) Information], this')) /\
  (exists this',
     analyze (new_DocumentAnalyzer (js "Foo(1)") exampleUri {| warnOnHostFunctions := false |}) =
       Some ([], this')) /\
  (exists this',
     analyze (new_DocumentAnalyzer (js "Upper(1)") exampleUri {| warnOnHostFunctions := true |}) =
       Some ([], this')).
Proof.
  repeat split; eexists; vm_compute; reflexivity.
Qed.

(* ================================================================== *)
(** ** The unclosed-string check *)
(* ================================================================== *)

(** C3, the input on which it fails as stated: a comment line with one
    double quote has an odd number of them and is not flagged. *)
Lemma C3_comment_line_counterexample :
  lines (new_DocumentAnalyzer docQuoteInComment exampleUri defaultOptions) =
    [docQuoteInComment] /\
  Nat.odd (count_occ N.eq_dec docQuoteInComment dq) = true /\
  exists this',
    analyze (new_DocumentAnalyzer docQuoteInComment exampleUri defaultOptions) =
      Some ([], this').
Proof.
  split; [reflexivity|]. split; [reflexivity|]. eexists. vm_compute. reflexivity.
Qed.

(** C3, as the code has it: every line that is not a comment line (its
    trimmed text does not start with the comment marker) and has an odd
    number of double quotes, counted on the raw line, gets the Error
    [Unclosed string literal] over the whole of the raw line, whatever else
    the line holds. *)
Theorem C3_unclosed_string : forall text uri opts i l,
  nth_error (lines (new_DocumentAnalyzer text uri opts)) i = Some l ->
  startsWith (js "#") (trim l) = false ->
  Nat.odd (count_occ N.eq_dec l dq) = true ->
  exists ds this',
    analyze (new_DocumentAnalyzer text uri opts) = Some (ds, this') /\
    In (newDiagnostic (Z.of_nat i) 0 (Z.of_nat i) (Z.of_nat (length l))
          msgUnclosedString Error) ds.
Proof.
  intros text uri opts i l Hl Hnc Hodd.
  set (this := new_DocumentAnalyzer text uri opts) in *.
  destruct (analyze_run this) as [st [sy [E3 [E1 [_ [_ H]]]]]].
  destruct (syntaxSplit opts (lines this) i l Hl)
    as [stA [stB [stN [D3 [D5 [Dpre [Dpost [_ [_ [_ [_ [EN [He _]]]]]]]]]]]]].
  change (options this) with opts in E1.
  rewrite E1 in EN. inversion EN; subst stN.
  eexists. eexists. split; [exact H|].
  apply in_or_app. left. rewrite He.
  apply in_or_app. right. apply in_or_app. left. apply in_or_app. left.
  unfold stringReport, skipped. rewrite Hnc, (quotes_not_empty l Hodd), quoteCount_odd, Hodd.
  left. reflexivity.
Qed.

Lemma C3_unclosed_string_witness :
  nth_error (lines (new_DocumentAnalyzer docOpenString exampleUri defaultOptions)) 0 =
    Some docOpenString /\
  startsWith (js "#") (trim docOpenString) = false /\
  Nat.odd (count_occ N.eq_dec docOpenString dq) = true /\
  exists ds this',
    analyze (new_DocumentAnalyzer docOpenString exampleUri defaultOptions) = Some (ds, this') /\
    In (newDiagnostic (Z.of_nat 0) 0 (Z.of_nat 0) (Z.of_nat (length docOpenString))
          msgUnclosedString Error) ds.
Proof.
  split; [reflexivity|]. split; [reflexivity|]. split; [reflexivity|].
  apply (C3_unclosed_string docOpenString exampleUri defaultOptions 0 docOpenString);
    reflexivity.
Defined.

(* ================================================================== *)
(** ** The loop-control check *)
(* ================================================================== *)

Lemma SyntaxDiag_line : forall options i l k d,
  SyntaxDiag options i l k d -> line (start (range d)) = Z.of_nat i.
Proof. intros options i l k d H. destruct H; reflexivity. Qed.









(** The loop over three lines: the [break] of the second line is not
    flagged, and the document has no diagnostic but the Warning for [xs]. *)
Example loop_over_three_lines :
  exists this',
    analyze (new_DocumentAnalyzer docLoop exampleUri defaultOptions) =
      Some ([newDiagnostic 0 13 0 15 (msgUndefinedVariable (js "xs")) Warning], this').
Proof. eexists. vm_compute. reflexivity. Qed.

(** A [while] that is never closed: one unclosed-block report, on the line
    of the [while], naming it. *)
Example open_while :
  exists this' ds,
    analyze (new_DocumentAnalyzer docOpenWhile exampleUri defaultOptions) = Some (ds, this') /\
    filter (fun d => isUnclosedBlockMsg (message d)) ds =
      [newDiagnostic 0 0 0 14 (msgUnclosedBlock (js "while")) Error].
Proof. eexists. eexists. vm_compute. split; reflexivity. Qed.

(** An [if] left open inside a [while] left open: the one unclosed-block
    report is for the [if], the innermost. *)
Example nested_open_blocks :
  exists this' ds,
    analyze (new_DocumentAnalyzer docNested exampleUri defaultOptions) = Some (ds, this') /\
    filter (fun d => isUnclosedBlockMsg (message d)) ds =
      [newDiagnostic 1 0 1 4 (msgUnclosedBlock (js "if")) Error].
Proof. eexists. eexists. vm_compute. split; reflexivity. Qed.

(* ================================================================== *)
(** ** Property symbols *)
(* ================================================================== *)

(** C7: after [analyze()] no dotted path has two symbols with type tag
    [property], however often the document assigns to it; every path that
    some line assigns to has a symbol with type tag [property]; and the
    symbol of a dotted path sits on the first line that assigns to the path:
    only the first assignment contributes. *)
Theorem C7_property_symbols : forall text uri opts,
  exists ds this',
    analyze (new_DocumentAnalyzer text uri opts) = Some (ds, this') /\
    NoDup (propertyPaths (symbols this')) /\
    (forall i l p,
       nth_error (lines (new_DocumentAnalyzer text uri opts)) i = Some l ->
       In p (assignedPaths l) -> hasPropertySymbol (symbols this') p) /\
    (forall sy, In sy (symbols this') -> isPropertySymbol sy = true ->
       FirstAssigned (lines (new_DocumentAnalyzer text uri opts)) sy).
Proof.
  intros text uri opts.
  set (this := new_DocumentAnalyzer text uri opts).
  destruct (analyze_run this) as [st [sy [E3 [_ [E2 [_ H]]]]]].
  destruct (symbolPass_run (lines this)) as [sy' [E2' [Hpaths [Hnodup [Hhas [Hall Hfirst]]]]]].
  rewrite E2 in E2'. inversion E2'; subst sy'.
  eexists. eexists. split; [exact H|]. cbn [symbols]. split; [|split].
  - rewrite Hpaths. apply NoDup_filter. assumption.
  - intros i l p Hl Hp. apply Hhas. apply (Hall i l p); [|assumption|assumption].
    apply nth_error_Some. fold this in Hl. rewrite Hl. discriminate.
  - assumption.
Qed.

(** Two assignments to [Data.orders] and one to [Data.customers]: one
    symbol for each path, at the line of its first assignment. *)
Example property_symbols_of_docPaths :
  assignedPaths (js "Data.orders = 2") = [js "Data.orders"] /\
  exists this',
    analyze (new_DocumentAnalyzer docPaths exampleUri defaultOptions) = Some ([], this') /\
    symbols this' =
      [SymbolInfo.mk (js "Data.orders") (Some (js "property")) 0 0;
       SymbolInfo.mk (js "Data.customers") (Some (js "property")) 2 0].
Proof. split; [reflexivity|]. eexists. vm_compute. split; reflexivity. Qed.

(* ================================================================== *)
(** ** One line of [checkSyntax], exactly *)
(* ================================================================== *)

Lemma checkBlockStart_effect : forall i l st,
  exists st2, checkBlockStart i (trim l) (withoutStrings (trim l)) st = Some st2 /\
              emitted st2 = emitted st /\
              ((blockStack st2 = blockStack st /\ inLoop st2 = inLoop st) \/
               exists ty, blockStack st2 = blockStack st ++ [Block.mk ty i] /\
                          inLoop st2 = if isLoop ty then (inLoop st + 1)%Z else inLoop st).
Proof.
  intros i l st. unfold checkBlockStart.
  destruct (negb (test (trim l) reElseif) && test (withoutStrings (trim l)) reBlockOpen);
    [|exists st; auto].
  destruct (exec (withoutStrings (trim l)) reBlockOpen) as [mt|] eqn:E; [|exists st; auto].
  unfold exec in E. apply execFrom_sound in E. destruct E as [_ HM].
  destruct (IsMatch_group1 _ reBlockOpen mt eq_refl HM) as [a [b [_ [_ Hg]]]].
  rewrite Hg. eexists. split; [reflexivity|]. simpl. split; [reflexivity|].
  right. eexists. split; reflexivity.
Qed.

Lemma checkBlockEnd_effect : forall i l st,
  skipped (trim l) = false ->
  emitted (checkBlockEnd i (trim l) (withoutStrings (trim l)) st) =
    emitted st ++ endReport i l st /\
  (blockStack (checkBlockEnd i (trim l) (withoutStrings (trim l)) st) = blockStack st \/
   blockStack (checkBlockEnd i (trim l) (withoutStrings (trim l)) st) =
     removelast (blockStack st)).
Proof.
  intros i l st Hsk. unfold checkBlockEnd, endReport. cbv zeta. rewrite Hsk.
  destruct (test (withoutStrings (trim l)) reEnd); [|rewrite app_nil_r; auto].
  destruct (top (blockStack st)); simpl; [rewrite app_nil_r|]; auto.
Qed.

Lemma checkTypeAnnotation_effect : forall i l st,
  skipped (trim l) = false ->
  exists st', checkTypeAnnotation i l (trim l) st = Some st' /\
              blockStack st' = blockStack st /\ inLoop st' = inLoop st /\
              emitted st' = emitted st ++ typeReport i l.
Proof.
  intros i l st Hsk. unfold checkTypeAnnotation, typeReport. cbv zeta. rewrite Hsk.
  destruct (test (trim l) reVarStart); [|exists st; rewrite app_nil_r; auto].
  destruct (exec (trim l) reTypeAnnot) as [mt|] eqn:E; [|exists st; rewrite app_nil_r; auto].
  unfold exec in E. apply execFrom_sound in E. destruct E as [_ HM].
  destruct (IsMatch_group1 _ reTypeAnnot mt eq_refl HM) as [a [b [_ [_ Hg]]]].
  rewrite Hg. cbv beta iota.
  destruct (includes typeKeywords (substring (trim l) a b)); cbn [negb]; cbv beta iota.
  - exists st. rewrite app_nil_r. auto.
  - eexists. split; [reflexivity|]. simpl. auto.
Qed.

(** One line of [checkSyntax] pushes exactly its reports, and leaves the
    locals as they are at the loop-control check. *)
Lemma checkLine_exact : forall options l i st,
  exists st2 stB st',
    atEndCheck i l st = Some st2 /\
    atLoopCheck i l st = Some stB /\
    checkLine options l i st = Some st' /\
    blockStack st' = blockStack stB /\ inLoop st' = inLoop stB /\
    emitted st' = emitted st ++ lineReports options i l st.
Proof.
  intros options l i st. unfold lineReports, checkLine, atEndCheck, atLoopCheck. cbv zeta.
  destruct (skipped (trim l)) eqn:Hsk.
  { exists st, st, st. unfold stringReport, endReport, loopReport, typeReport, hostReports.
    cbv zeta. rewrite Hsk. simpl. rewrite app_nil_r. repeat split; reflexivity. }
  destruct (checkBlockStart_effect i l (checkUnclosedString i l st)) as [st2 [E2 [He2 _]]].
  rewrite E2.
  destruct (checkUnclosedString_run i l Hsk st) as [_ [_ He1]].
  destruct (checkBlockEnd_effect i l st2 Hsk) as [He3 _].
  set (st3 := checkBlockEnd i (trim l) (withoutStrings (trim l)) st2) in *.
  destruct (checkLoopControl_run i l Hsk st3) as [Hs4 [Hi4 He4]].
  set (st4 := checkLoopControl i (trim l) (withoutStrings (trim l)) st3) in *.
  destruct (checkTypeAnnotation_effect i l st4 Hsk) as [st5 [E5 [Hs5 [Hi5 He5]]]].
  rewrite E5.
  destruct (checkHostFunctions_run options i l Hsk st5) as [st6 [E6 [Hs6 [Hi6 He6]]]].
  exists st2, st3, st6.
  split; [reflexivity|]. split; [reflexivity|]. split; [exact E6|].
  split; [rewrite Hs6, Hs5, Hs4; reflexivity|].
  split; [rewrite Hi6, Hi5, Hi4; reflexivity|].
  rewrite He6, He5, He4, He3, He2, He1. repeat rewrite <- app_assoc. reflexivity.
Qed.

(** The reports of a line are diagnostics of that line. *)
Lemma lineReports_shape : forall options lines i l st,
  nth_error lines i = Some l ->
  Forall (SyntaxDiagIn options lines i (S i)) (lineReports options i l st).
Proof.
  intros options lines i l st Hl. unfold lineReports.
  destruct (atEndCheck i l st) as [st2|]; [|constructor].
  destruct (atLoopCheck i l st) as [stB|]; [|constructor].
  apply Forall_app; split;
    [apply (Forall_kind_In options lines i l KString _ Hl); apply stringReport_shape|].
  apply Forall_app; split.
  { apply (Forall_kind_In options lines i l KEnd _ Hl). unfold endReport. cbv zeta.
    destruct (skipped (trim l)); [constructor|].
    destruct (test (withoutStrings (trim l)) reEnd); [|constructor].
    destruct (top (blockStack st2)); repeat constructor. }
  apply Forall_app; split;
    [apply (Forall_kind_In options lines i l KLoop _ Hl); apply loopReport_shape|].
  apply Forall_app; split; [|apply (Forall_kind_In options lines i l KHost _ Hl);
                             apply hostReports_shape].
  apply (Forall_kind_In options lines i l KType _ Hl). unfold typeReport. cbv zeta.
  destruct (skipped (trim l)); [constructor|].
  destruct (test (trim l) reVarStart); [|constructor].
  destruct (exec (trim l) reTypeAnnot) as [mt|] eqn:E; [|constructor].
  destruct (group1 (trim l) mt) as [ty|] eqn:Hg; [|constructor].
  destruct (includes typeKeywords ty) eqn:Ety; [constructor|].
  constructor; [|constructor]. constructor; [|assumption].
  unfold exec in E. apply execFrom_sound in E. destruct E as [_ HM].
  destruct (IsMatch_group1 _ reTypeAnnot mt eq_refl HM) as [a [b [_ [Hab Hg']]]].
  rewrite Hg in Hg'. inversion Hg'; subst ty.
  destruct (trim_infix l) as [pre [post Hline]].
  destruct (substring_infix (trim l) a b Hab) as [pre' [post' Htrim]].
  rewrite Hline at 2. rewrite Htrim at 2.
  replace (pre ++ (pre' ++ substring (trim l) a b ++ post') ++ post)
    with ((pre ++ pre') ++ substring (trim l) a b ++ (post' ++ post))
    by (repeat rewrite <- app_assoc; reflexivity).
  apply indexOf_found.
Qed.

(** [checkSyntax] seen from line [i], exactly: the diagnostics of the first
    loop are those of the lines before, then the reports of line [i] in the
    state the lines before lead to, then those of the lines after. *)
Lemma syntaxSplitExact : forall options lines i l,
  nth_error lines i = Some l ->
  exists stA stL stN Dpre Dpost,
    syntaxStateAt options lines i = Some stA /\
    StackOk lines i stA /\
    syntaxStateAt options lines (S i) = Some stL /\
    checkLine options l i stA = Some stL /\
    forEach (checkLine options) lines (initialSyntaxState []) = Some stN /\
    emitted stN = Dpre ++ lineReports options i l stA ++ Dpost /\
    Forall (SyntaxDiagIn options lines 0 i) Dpre /\
    Forall (SyntaxDiagIn options lines (S i) (length lines)) Dpost.
Proof.
  intros options lines i l Hl. unfold syntaxStateAt.
  destruct (nth_error_split lines i Hl) as [l1 [l2 [Hlines Hlen]]].
  assert (Hfirst : firstn i lines = l1).
  { rewrite Hlines, <- Hlen, firstn_app, Nat.sub_diag, firstn_all. simpl.
    apply app_nil_r. }
  assert (Hfirst' : firstn (S i) lines = l1 ++ [l]).
  { rewrite Hlines, <- Hlen, firstn_app.
    replace (S (length l1) - length l1) with 1 by lia.
    rewrite firstn_all2 by lia. reflexivity. }
  destruct (syntaxRun options lines l1 0 (initialSyntaxState []))
    as [stA [EA [HokA [[Dpre [HpreE HpreF]] _]]]].
  { intros j x Hj. simpl. rewrite Hlines. rewrite nth_error_app1; [assumption|].
    apply nth_error_Some. congruence. }
  { apply StackOk_initial. }
  simpl in HokA, HpreE, HpreF. rewrite Hlen in HokA, HpreF.
  destruct (checkLine_exact options l i stA) as [st2 [stB [stL [_ [_ [EL [_ [_ He]]]]]]]].
  assert (HokL : StackOk lines (S i) stL).
  { destruct (checkLine_run options lines i l stA Hl HokA)
      as [stL' [stB' [? [? [EL' [_ [[H1 H2] [Hs [Hi _]]]]]]]]].
    rewrite EL in EL'. inversion EL'; subst stL'.
    split; [rewrite Hs | rewrite Hs, Hi]; assumption. }
  destruct (syntaxRun options lines l2 (S i) stL)
    as [stN [EN [HokN [[Dpost [HpostE HpostF]] _]]]].
  { intros j x Hj. rewrite Hlines. rewrite nth_error_app2 by lia.
    replace (S i + j - length l1) with (S j) by lia. simpl. assumption. }
  { assumption. }
  assert (Hn : S i + length l2 = length lines).
  { rewrite Hlines, length_app. simpl. lia. }
  rewrite Hn in HpostF.
  exists stA, stL, stN, Dpre, Dpost.
  split; [rewrite Hfirst; assumption|]. split; [assumption|].
  split; [rewrite Hfirst', forEachFrom_app, EA; simpl; rewrite Hlen, EL; reflexivity|].
  split; [assumption|]. split.
  - unfold forEach. rewrite Hlines at 1. rewrite forEachFrom_app, EA. simpl.
    rewrite Hlen, EL. assumption.
  - split; [|split; assumption].
    rewrite HpostE, He, HpreE. simpl. repeat rewrite <- app_assoc. reflexivity.
Qed.

(* ================================================================== *)
(** ** [validateSemantics] and [analyze], exactly *)
(* ================================================================== *)

Lemma identBody_exact : forall declaredVars i s mr ds,
  IsMatch s reIdent mr ->
  identBody declaredVars i s mr ds = Some (ds ++ identReport declaredVars i s mr).
Proof.
  intros declaredVars i s mr ds HM. unfold identBody, identReport, isFunctionName.
  destruct (IsMatch_group1 s reIdent mr eq_refl HM) as [a [b [_ [_ Hg]]]].
  rewrite Hg. cbv beta iota zeta.
  destruct ((0 <? index mr) && charAtIs s (index mr - 1) 46);
    [rewrite app_nil_r; reflexivity|].
  destruct (test (skipn (index mr + length (substring s a b)) s) reCallParen);
    [rewrite app_nil_r; reflexivity|].
  destruct (includes keywords (substring s a b) || includes typeKeywords (substring s a b) ||
            existsb (fun f => jseqb (toLowerCase f) (toLowerCase (substring s a b)))
              functionNames);
    [rewrite app_nil_r; reflexivity|].
  destruct (includes declaredVars (substring s a b)); cbn [negb]; cbv beta iota.
  - rewrite app_nil_r. reflexivity.
  - reflexivity.
Qed.

Lemma identLoop_exact : forall declaredVars i s ms ds,
  Forall (IsMatch s reIdent) ms ->
  foldM (identBody declaredVars i s) ms ds =
    Some (ds ++ flat_map (identReport declaredVars i s) ms).
Proof.
  intros declaredVars i s ms. induction ms as [|mr ms IH]; intros ds HF; cbn [foldM flat_map].
  - rewrite app_nil_r. reflexivity.
  - inversion HF as [|x y HM HF']; subst.
    rewrite (identBody_exact declaredVars i s mr ds HM).
    rewrite (IH _ HF'). rewrite <- app_assoc. reflexivity.
Qed.

(** One line of [validateSemantics] pushes exactly its warnings. *)
Lemma validateLine_exact : forall declaredVars l i ds,
  validateLine declaredVars l i ds = Some (ds ++ undefinedReports declaredVars i l).
Proof.
  intros declaredVars l i ds. unfold validateLine, undefinedReports, semanticCopy.
  destruct (skipped (trim l)); [rewrite app_nil_r; reflexivity|]. cbv zeta.
  rewrite whileExec_foldM by (simpl; lia).
  apply identLoop_exact. apply matchAll_IsMatch.
Qed.

Lemma semanticPass_exact : forall declaredVars l i ds,
  forEachFrom (validateLine declaredVars) l i ds =
    Some (ds ++ undefinedReportsFrom declaredVars l i).
Proof.
  intros declaredVars l. induction l as [|x l IH]; intros i ds; simpl.
  - rewrite app_nil_r. reflexivity.
  - rewrite validateLine_exact. rewrite IH. rewrite <- app_assoc. reflexivity.
Qed.

(** [analyze] on any instance, exactly: the returned list is the
    diagnostics of the syntax loop, then the unclosed-block report, then the
    warnings of every line against the names of the symbol table. *)
Lemma analyze_exact : forall this,
  exists st sy,
    forEach (checkLine (options this)) (lines this) (initialSyntaxState []) = Some st /\
    forEach extractLine (lines this) {| table := []; seenProps := [] |} = Some sy /\
    analyze this =
      Some (emitted st ++ unclosedReport (lines this) (blockStack st) ++
            undefinedReportsFrom (declaredVarsOf (table sy)) (lines this) 0,
            {| text := text this; uri := uri this; lines := lines this;
               diagnostics :=
                 emitted st ++ unclosedReport (lines this) (blockStack st) ++
                 undefinedReportsFrom (declaredVarsOf (table sy)) (lines this) 0;
               symbols := table sy; options := options this |}).
Proof.
  intro this.
  destruct (syntaxPass_run (options this) (lines this) []) as [st [E1 [Hok _]]].
  destruct (symbolPass_run (lines this)) as [sy [E2 _]].
  exists st, sy. split; [assumption|]. split; [assumption|].
  unfold analyze. cbv zeta.
  rewrite (checkSyntax_eq (withSymbols (withDiagnostics this []) []) st E1 Hok).
  unfold extractSymbols. simpl. rewrite E2. cbv beta iota.
  unfold validateSemantics, forEach. simpl. rewrite semanticPass_exact. cbv beta iota.
  unfold declaredVarsOf. simpl. rewrite <- app_assoc. reflexivity.
Qed.

Lemma undefinedReportsFrom_In : forall declaredVars l i d,
  In d (undefinedReportsFrom declaredVars l i) ->
  exists j x, nth_error l j = Some x /\ In d (undefinedReports declaredVars (i + j) x).
Proof.
  intros declaredVars l. induction l as [|x l IH]; intros i d H; simpl in H; [contradiction|].
  apply in_app_or in H. destruct H as [H|H].
  - exists 0, x. rewrite Nat.add_0_r. auto.
  - destruct (IH (S i) d H) as [j [y [Hj Hd]]]. exists (S j), y.
    replace (i + S j) with (S i + j) by lia. auto.
Qed.

Lemma undefinedReportsFrom_nth : forall declaredVars l i j x d,
  nth_error l j = Some x -> In d (undefinedReports declaredVars (i + j) x) ->
  In d (undefinedReportsFrom declaredVars l i).
Proof.
  intros declaredVars l. induction l as [|y l IH]; intros i j x d Hj Hd.
  - destruct j; discriminate.
  - simpl. apply in_or_app. destruct j as [|j]; simpl in Hj.
    + inversion Hj; subst y. rewrite Nat.add_0_r in Hd. left. assumption.
    + right. apply (IH (S i) j x d Hj). replace (S i + j) with (i + S j) by lia.
      assumption.
Qed.

(* ================================================================== *)
(** ** The option, repeated calls and [getSymbols] *)
(* ================================================================== *)

Lemma atEndCheck_locals : forall i l sa sb a2 b2,
  blockStack sa = blockStack sb -> inLoop sa = inLoop sb ->
  atEndCheck i l sa = Some a2 -> atEndCheck i l sb = Some b2 ->
  blockStack a2 = blockStack b2 /\ inLoop a2 = inLoop b2.
Proof.
  intros i l sa sb a2 b2 Hs Hi Ea Eb. unfold atEndCheck in *. cbv zeta in *.
  destruct (skipped (trim l)) eqn:Hsk.
  { inversion Ea; inversion Eb; subst. auto. }
  destruct (checkUnclosedString_run i l Hsk sa) as [Hsa [Hia _]].
  destruct (checkUnclosedString_run i l Hsk sb) as [Hsb [Hib _]].
  unfold checkBlockStart in *.
  destruct (negb (test (trim l) reElseif) && test (withoutStrings (trim l)) reBlockOpen).
  - destruct (exec (withoutStrings (trim l)) reBlockOpen) as [mt|].
    + destruct (group1 (withoutStrings (trim l)) mt) as [ty|]; [|discriminate].
      inversion Ea; inversion Eb; subst; simpl. rewrite Hsa, Hsb, Hia, Hib, Hs, Hi. auto.
    + inversion Ea; inversion Eb; subst. rewrite Hsa, Hsb, Hia, Hib. auto.
  - inversion Ea; inversion Eb; subst. rewrite Hsa, Hsb, Hia, Hib. auto.
Qed.

Lemma atLoopCheck_atEndCheck : forall i l st stB,
  atLoopCheck i l st = Some stB ->
  exists st2, atEndCheck i l st = Some st2 /\
    stB = if skipped (trim l) then st2
          else checkBlockEnd i (trim l) (withoutStrings (trim l)) st2.
Proof.
  intros i l st stB E. unfold atLoopCheck, atEndCheck in *. cbv zeta in *.
  destruct (skipped (trim l)).
  - exists st. inversion E; subst. auto.
  - destruct (checkBlockStart i (trim l) (withoutStrings (trim l))
                (checkUnclosedString i l st)) as [st2|]; [|discriminate].
    exists st2. inversion E; subst. auto.
Qed.

Lemma atLoopCheck_locals : forall i l sa sb aB bB,
  blockStack sa = blockStack sb -> inLoop sa = inLoop sb ->
  atLoopCheck i l sa = Some aB -> atLoopCheck i l sb = Some bB ->
  blockStack aB = blockStack bB /\ inLoop aB = inLoop bB.
Proof.
  intros i l sa sb aB bB Hs Hi Ea Eb.
  destruct (atLoopCheck_atEndCheck i l sa aB Ea) as [a2 [Ea2 HaB]].
  destruct (atLoopCheck_atEndCheck i l sb bB Eb) as [b2 [Eb2 HbB]].
  destruct (atEndCheck_locals i l sa sb a2 b2 Hs Hi Ea2 Eb2) as [Hs2 Hi2].
  subst aB bB. destruct (skipped (trim l)); [auto|].
  unfold checkBlockEnd. destruct (test (withoutStrings (trim l)) reEnd); [|auto].
  rewrite Hs2. destruct (top (blockStack b2)); simpl; rewrite ?Hs2, ?Hi2; auto.
Qed.

Lemma SyntaxDiag_notInformation : forall options i l k d,
  k <> KHost -> SyntaxDiag options i l k d -> notInformation d = true.
Proof.
  intros options i l k d Hk H. unfold notInformation.
  rewrite (SyntaxDiag_information _ _ _ _ _ H).
  destruct k; try reflexivity. contradiction Hk. reflexivity.
Qed.

Lemma endReport_shape : forall options i l st,
  Forall (SyntaxDiag options i l KEnd) (endReport i l st).
Proof.
  intros options i l st. unfold endReport. cbv zeta.
  destruct (skipped (trim l)); [constructor|].
  destruct (test (withoutStrings (trim l)) reEnd); [|constructor].
  destruct (top (blockStack st)); repeat constructor.
Qed.

Lemma typeReport_severity : forall i l d, In d (typeReport i l) -> severity d = Error.
Proof.
  intros i l d H. unfold typeReport in H. cbv zeta in H.
  destruct (skipped (trim l)); [contradiction|].
  destruct (test (trim l) reVarStart); [|contradiction].
  destruct (exec (trim l) reTypeAnnot) as [mt|]; [|contradiction].
  destruct (group1 (trim l) mt) as [ty|]; [|contradiction].
  destruct (includes typeKeywords ty); [contradiction|].
  destruct H as [H|[]]. subst d. reflexivity.
Qed.

Lemma filter_keep : forall (A : Type) (f : A -> bool) (l : list A),
  (forall x, In x l -> f x = true) -> filter f l = l.
Proof.
  intros A f l H. apply filter_all. apply Forall_forall. assumption.
Qed.

Lemma filter_drop : forall (A : Type) (f : A -> bool) (l : list A),
  (forall x, In x l -> f x = false) -> filter f l = [].
Proof.
  intros A f l H. apply filter_none. apply Forall_forall. assumption.
Qed.

(** Without its notes, the reports of a line do not depend on the option
    nor on anything but the locals. *)
Lemma lineReports_notInformation : forall o1 o2 i l sa sb,
  blockStack sa = blockStack sb -> inLoop sa = inLoop sb ->
  filter notInformation (lineReports o1 i l sa) =
  filter notInformation (lineReports o2 i l sb).
Proof.
  intros o1 o2 i l sa sb Hs Hi.
  destruct (checkLine_exact o1 l i sa) as [a2 [aB [_ [Ea2 [EaB _]]]]].
  destruct (checkLine_exact o2 l i sb) as [b2 [bB [_ [Eb2 [EbB _]]]]].
  destruct (atEndCheck_locals i l sa sb a2 b2 Hs Hi Ea2 Eb2) as [Hs2 _].
  destruct (atLoopCheck_locals i l sa sb aB bB Hs Hi EaB EbB) as [_ HiB].
  unfold lineReports. rewrite Ea2, EaB, Eb2, EbB.
  assert (He : endReport i l a2 = endReport i l b2)
    by (unfold endReport; rewrite Hs2; reflexivity).
  assert (Hl : loopReport i l aB = loopReport i l bB)
    by (unfold loopReport; rewrite HiB; reflexivity).
  rewrite He, Hl. repeat rewrite filter_app.
  assert (Hh : forall o, filter notInformation (hostReports o i l) = []).
  { intro o. apply filter_drop. intros d Hd.
    pose proof (hostReports_shape o i l) as HF. rewrite Forall_forall in HF.
    unfold notInformation. rewrite (SyntaxDiag_information _ _ _ _ _ (HF d Hd)).
    reflexivity. }
  rewrite (Hh o1), (Hh o2). reflexivity.
Qed.

Lemma lineReports_option_off : forall o i l st,
  warnOnHostFunctions o = false ->
  filter notInformation (lineReports o i l st) = lineReports o i l st.
Proof.
  intros o i l st Hw. unfold lineReports.
  destruct (atEndCheck i l st) as [st2|]; [|reflexivity].
  destruct (atLoopCheck i l st) as [stB|]; [|reflexivity].
  apply filter_keep. intros d Hd.
  repeat (apply in_app_or in Hd; destruct Hd as [Hd|Hd]).
  - pose proof (stringReport_shape o i l) as HF. rewrite Forall_forall in HF.
    apply (SyntaxDiag_notInformation o i l KString d); [discriminate | auto].
  - pose proof (endReport_shape o i l st2) as HF. rewrite Forall_forall in HF.
    apply (SyntaxDiag_notInformation o i l KEnd d); [discriminate | auto].
  - pose proof (loopReport_shape o i l stB) as HF. rewrite Forall_forall in HF.
    apply (SyntaxDiag_notInformation o i l KLoop d); [discriminate | auto].
  - unfold notInformation, isInformation. rewrite (typeReport_severity i l d Hd). reflexivity.
  - unfold hostReports in Hd. rewrite Hw in Hd. destruct (skipped (trim l)); contradiction.
Qed.

(** The syntax loop under two values of the option: the same locals, and
    the same diagnostics but for the notes. *)
Lemma syntaxRun_pair : forall o1 o2 l i sa sb sa' sb',
  blockStack sa = blockStack sb -> inLoop sa = inLoop sb ->
  filter notInformation (emitted sa) = filter notInformation (emitted sb) ->
  forEachFrom (checkLine o1) l i sa = Some sa' ->
  forEachFrom (checkLine o2) l i sb = Some sb' ->
  blockStack sa' = blockStack sb' /\ inLoop sa' = inLoop sb' /\
  filter notInformation (emitted sa') = filter notInformation (emitted sb').
Proof.
  intros o1 o2. induction l as [|x l IH]; intros i sa sb sa' sb' Hs Hi He Ea Eb;
    simpl in Ea, Eb.
  - inversion Ea; inversion Eb; subst. auto.
  - destruct (checkLine_exact o1 x i sa) as [a2 [aB [a1 [Ea2 [EaB [Ea1 [Hsa [Hia Hea]]]]]]]].
    destruct (checkLine_exact o2 x i sb) as [b2 [bB [b1 [Eb2 [EbB [Eb1 [Hsb [Hib Heb]]]]]]]].
    rewrite Ea1 in Ea. rewrite Eb1 in Eb.
    destruct (atLoopCheck_locals i x sa sb aB bB Hs Hi EaB EbB) as [HsB HiB].
    apply (IH (S i) a1 b1 sa' sb'); try assumption; try congruence.
    rewrite Hea, Heb. repeat rewrite filter_app. rewrite He.
    rewrite (lineReports_notInformation o1 o2 i x sa sb Hs Hi). reflexivity.
Qed.

Lemma undefinedReports_warning : forall dv i l d,
  In d (undefinedReports dv i l) -> severity d = Warning.
Proof.
  intros dv i l d H. unfold undefinedReports in H.
  destruct (skipped (trim l)); [contradiction|].
  apply in_flat_map in H. destruct H as [mr [_ H]]. unfold identReport in H.
  destruct (group1 (semanticCopy l) mr) as [v|]; [|contradiction].
  repeat match type of H with
         | In _ (if ?c then [] else _) => destruct c; [contradiction|]
         end.
  destruct H as [H|[]]. subst d. reflexivity.
Qed.

Lemma undefinedReportsFrom_warning : forall dv l i d,
  In d (undefinedReportsFrom dv l i) -> severity d = Warning.
Proof.
  intros dv l i d H. apply undefinedReportsFrom_In in H.
  destruct H as [j [x [_ H]]]. apply (undefinedReports_warning dv _ x d H).
Qed.

Lemma unclosedReport_error : forall lines stack d,
  In d (unclosedReport lines stack) -> severity d = Error.
Proof.
  intros lines stack d H. unfold unclosedReport in H.
  destruct (top stack) as [b|]; [|contradiction].
  destruct (nth_error lines (Block.line b)); [|contradiction].
  destruct H as [H|[]]. subst d. reflexivity.
Qed.

(** X1: the option only decides the Information diagnostics.  For every
    text, [analyze()] with [warnOnHostFunctions] false returns the list that
    it returns with the option true, without its Information entries and
    otherwise unchanged and in the same order; the symbol table is the
    same. *)
Theorem option_only_filters_information : forall text uri,
  exists dsOn thisOn dsOff thisOff,
    analyze (new_DocumentAnalyzer text uri {| warnOnHostFunctions := true |}) =
      Some (dsOn, thisOn) /\
    analyze (new_DocumentAnalyzer text uri {| warnOnHostFunctions := false |}) =
      Some (dsOff, thisOff) /\
    dsOff = filter notInformation dsOn /\
    symbols thisOff = symbols thisOn.
Proof.
  intros text uri.
  set (on := {| warnOnHostFunctions := true |}).
  set (off := {| warnOnHostFunctions := false |}).
  destruct (analyze_exact (new_DocumentAnalyzer text uri on)) as [sa [sya [Ea [Esa Ha]]]].
  destruct (analyze_exact (new_DocumentAnalyzer text uri off)) as [sb [syb [Eb [Esb Hb]]]].
  simpl in Ea, Esa, Ha, Eb, Esb, Hb.
  rewrite Esa in Esb. inversion Esb; subst syb.
  destruct (syntaxRun_pair on off _ 0 _ _ sa sb eq_refl eq_refl eq_refl Ea Eb)
    as [Hs [_ He]].
  eexists. eexists. eexists. eexists.
  split; [exact Ha|]. split; [exact Hb|]. split; [|reflexivity].
  repeat rewrite filter_app. rewrite He, Hs.
  rewrite (filter_keep _ notInformation (unclosedReport _ (blockStack sb))).
  - rewrite (filter_keep _ notInformation (undefinedReportsFrom _ _ 0)).
    + f_equal. clear He Hs Ha Ea.
      assert (Hgen : forall l i st st',
                forEachFrom (checkLine off) l i st = Some st' ->
                filter notInformation (emitted st) = emitted st ->
                filter notInformation (emitted st') = emitted st').
      { induction l as [|x l IH]; intros i st st' E Hst; simpl in E.
        - inversion E; subst. assumption.
        - destruct (checkLine_exact off x i st) as [? [? [s1 [_ [_ [E1 [_ [_ He1]]]]]]]].
          rewrite E1 in E. apply (IH (S i) s1 st' E).
          rewrite He1, filter_app, Hst, lineReports_option_off; reflexivity. }
      symmetry. apply (Hgen _ 0 _ sb Eb). reflexivity.
    + intros d Hd. unfold notInformation, isInformation.
      rewrite (undefinedReportsFrom_warning _ _ _ d Hd). reflexivity.
  - intros d Hd. unfold notInformation, isInformation.
    rewrite (unclosedReport_error _ _ d Hd). reflexivity.
Qed.

(* ------------------------------------------------------------------ *)

Lemma checkLine_skipped : forall o l i st,
  skipped (trim l) = true -> checkLine o l i st = Some st.
Proof. intros o l i st H. unfold checkLine. cbv zeta. rewrite H. reflexivity. Qed.

Lemma extractLine_skipped : forall l i st,
  skipped (trim l) = true -> extractLine l i st = Some st.
Proof. intros l i st H. unfold extractLine. cbv zeta. rewrite H. reflexivity. Qed.

Lemma forEachFrom_skipped : forall (St : Type) (f : jsstring -> nat -> St -> option St),
  (forall l i st, skipped (trim l) = true -> f l i st = Some st) ->
  forall l i st, Forall (fun x => skipped (trim x) = true) l ->
                 forEachFrom f l i st = Some st.
Proof.
  intros St f Hf. induction l as [|x l IH]; intros i st HF; simpl; [reflexivity|].
  inversion HF; subst. rewrite Hf by assumption. apply IH. assumption.
Qed.

Lemma undefinedReportsFrom_skipped : forall dv l i,
  Forall (fun x => skipped (trim x) = true) l -> undefinedReportsFrom dv l i = [].
Proof.
  intros dv l. induction l as [|x l IH]; intros i HF; simpl; [reflexivity|].
  inversion HF; subst. rewrite IH by assumption. unfold undefinedReports.
  rewrite H1. reflexivity.
Qed.

(** X2: a document made of comment lines and blank lines only (the empty
    text among them) gets no diagnostic and no symbol, whatever the
    option. *)
Theorem comments_only_document : forall text uri opts,
  Forall (fun l => skipped (trim l) = true) (lines (new_DocumentAnalyzer text uri opts)) ->
  exists this',
    analyze (new_DocumentAnalyzer text uri opts) = Some ([], this') /\
    symbols this' = [].
Proof.
  intros text uri opts HF.
  destruct (analyze_exact (new_DocumentAnalyzer text uri opts)) as [st [sy [E1 [E2 H]]]].
  unfold forEach in E1, E2.
  rewrite (forEachFrom_skipped SyntaxState (checkLine _) (checkLine_skipped _)) in E1
    by exact HF.
  rewrite (forEachFrom_skipped SymbolState extractLine extractLine_skipped) in E2
    by exact HF.
  inversion E1; subst st. inversion E2; subst sy.
  rewrite (undefinedReportsFrom_skipped _ _ 0 HF) in H.
  eexists. split; [exact H | reflexivity].
Qed.

Lemma comments_only_document_witness :
  Forall (fun l => skipped (trim l) = true)
    (lines (new_DocumentAnalyzer docComments exampleUri defaultOptions)) /\
  exists this',
    analyze (new_DocumentAnalyzer docComments exampleUri defaultOptions) = Some ([], this') /\
    symbols this' = [].
Proof.
  assert (H : Forall (fun l => skipped (trim l) = true)
                (lines (new_DocumentAnalyzer docComments exampleUri defaultOptions)))
    by (vm_compute; repeat constructor).
  split; [exact H|].
  apply (comments_only_document docComments exampleUri defaultOptions H).
Defined.

(* ------------------------------------------------------------------ *)

(** X3: [analyze()] starts from scratch on every call.  Called again on
    the instance that a first call leaves, on any instance whatever its
    fields held before, it returns the same list and leaves the same
    instance: nothing accumulates from call to call. *)
Theorem analyze_again : forall this,
  exists ds this',
    analyze this = Some (ds, this') /\
    analyze this' = Some (ds, this') /\
    diagnostics this' = ds /\
    text this' = text this /\ lines this' = lines this /\ options this' = options this.
Proof.
  intro this. destruct (analyze_exact this) as [st [sy [_ [_ H]]]].
  eexists. eexists. split; [exact H|]. split; [|repeat split; reflexivity].
  rewrite <- H. reflexivity.
Qed.

(** X4: [getSymbols()] and [analyze()] agree.  On a fresh instance
    [getSymbols()] returns the table that [analyze()] builds; after
    [analyze()] it returns that table again and leaves the instance as it
    is, so no symbol is recorded twice. *)
Theorem getSymbols_agrees_with_analyze : forall text uri opts,
  exists ds this',
    analyze (new_DocumentAnalyzer text uri opts) = Some (ds, this') /\
    getSymbols (new_DocumentAnalyzer text uri opts) =
      Some (symbols this', withSymbols (new_DocumentAnalyzer text uri opts) (symbols this')) /\
    getSymbols this' = Some (symbols this', this').
Proof.
  intros text uri opts.
  destruct (analyze_exact (new_DocumentAnalyzer text uri opts)) as [st [sy [_ [E2 H]]]].
  simpl in E2.
  eexists. eexists. split; [exact H|]. split.
  - unfold getSymbols, extractSymbols. simpl. rewrite E2. reflexivity.
  - unfold getSymbols. cbn [symbols]. destruct (table sy) as [|s0 tl] eqn:Et.
    + unfold extractSymbols. simpl. rewrite E2, Et. reflexivity.
    + reflexivity.
Qed.

(* ================================================================== *)
(** ** The lines of a document *)
(* ================================================================== *)

Lemma search_complete : forall s r n i j,
  i <= j <= i + n -> matchAt s r j <> None -> search s r i n <> None.
Proof.
  intros s r. induction n as [|n IH]; intros i j Hj Hm; simpl.
  - assert (j = i) by lia. subst j.
    destruct (matchAt s r i) as [[e c]|]; [discriminate | contradiction].
  - destruct (matchAt s r i) as [[e c]|] eqn:E; [discriminate|].
    apply (IH (S i) j); [|assumption].
    destruct (Nat.eq_dec i j) as [->|Hne]; [congruence | lia].
Qed.

Lemma removelast_firstn_pred : forall (s : jsstring),
  removelast s = firstn (length s - 1) s.
Proof.
  intro s. rewrite removelast_firstn_len. f_equal. lia.
Qed.

(** The pattern that drops a trailing CR does just that. *)
Lemma stripCR_exact : forall s, replaceFirst s reTrailingCR [] = dropTrailingCR s.
Proof.
  intro s. unfold replaceFirst, dropTrailingCR, lastChar.
  destruct (exec s reTrailingCR) as [mr|] eqn:E.
  - pose proof E as E'. unfold exec in E'. apply execFrom_sound in E'.
    destruct E' as [_ [_ HS]]. simpl in HS.
    destruct HS as [k [ck [[ch [Hn [Hch [Hk _]]]] [Hlen [Hstop _]]]]].
    unfold isChar in Hch. apply N.eqb_eq in Hch. subst ch k.
    replace (length s - 1) with (index mr) by lia. rewrite Hn.
    change (13 =? cr)%N with true. cbv iota.
    simpl replaceGo. unfold substring. rewrite Hstop, Hlen, skipn_all, app_nil_r.
    rewrite removelast_firstn_pred. simpl. f_equal. lia.
  - destruct (nth_error s (length s - 1)) as [c|] eqn:Hn; [|reflexivity].
    destruct (c =? cr)%N eqn:Hc; [|reflexivity].
    exfalso. apply N.eqb_eq in Hc. subst c.
    assert (Hlen : length s - 1 < length s) by (apply nth_error_Some; congruence).
    assert (Hm : matchAt s reTrailingCR (length s - 1) <> None).
    { destruct (length s) as [|n] eqn:El; [lia|].
      replace (S n - 1) with n in * by lia.
      unfold matchAt, reTrailingCR. cbn [seqOf m]. rewrite Hn. unfold isChar.
      change (cr =? 13)%N with true. cbv iota.
      rewrite El, Nat.eqb_refl. discriminate. }
    assert (Hs : search s reTrailingCR 0 (length s - 0) <> None)
      by (apply (search_complete s reTrailingCR _ 0 (length s - 1)); [lia | assumption]).
    unfold exec, execFrom in E. simpl in E. congruence.
Qed.

Lemma split_cons : forall sep c t,
  split sep (c :: t) =
  if (c =? sep)%N then [] :: split sep t
  else match split sep t with
       | l :: ls => (c :: l) :: ls
       | [] => [[c]]
       end.
Proof. reflexivity. Qed.

Lemma split_nonempty : forall sep t, split sep t <> [].
Proof.
  intros sep t. destruct t as [|c t]; simpl; [discriminate|].
  destruct (c =? sep)%N; [discriminate|]. destruct (split sep t); discriminate.
Qed.

Lemma split_length : forall sep t,
  length (split sep t) = S (count_occ N.eq_dec t sep).
Proof.
  intros sep t. induction t as [|c t IH]; [reflexivity|].
  rewrite split_cons. simpl count_occ.
  destruct (N.eq_dec c sep) as [->|Hne].
  - rewrite N.eqb_refl. simpl. rewrite IH. reflexivity.
  - replace (c =? sep)%N with false by (symmetry; apply N.eqb_neq; assumption).
    destruct (split sep t) as [|l ls] eqn:E; [destruct (split_nonempty sep t E)|].
    simpl in *. assumption.
Qed.

Lemma split_no_sep : forall sep t, Forall (fun l => ~ In sep l) (split sep t).
Proof.
  intros sep t. induction t as [|c t IH].
  - constructor; [intros [] | constructor].
  - rewrite split_cons. destruct (c =? sep)%N eqn:Ec.
    + constructor; [intros [] | assumption].
    + destruct (split sep t) as [|l ls] eqn:E; [destruct (split_nonempty sep t E)|].
      inversion IH; subst. constructor; [|assumption].
      intros [Hc|Hin]; [|contradiction]. subst c. rewrite N.eqb_refl in Ec. discriminate.
Qed.

(** [split] and [join] are inverse to each other on the text. *)
Lemma join_split : forall sep t, joinLines sep (split sep t) = t.
Proof.
  intros sep t. induction t as [|c t IH]; [reflexivity|].
  rewrite split_cons. destruct (c =? sep)%N eqn:Ec.
  - apply N.eqb_eq in Ec. subst c.
    destruct (split sep t) as [|l ls] eqn:E; [destruct (split_nonempty sep t E)|].
    simpl in *. rewrite IH. reflexivity.
  - destruct (split sep t) as [|l ls] eqn:E; [destruct (split_nonempty sep t E)|].
    destruct ls; simpl in *; rewrite IH; reflexivity.
Qed.

Lemma dropTrailingCR_no_nl : forall s, ~ In nl s -> ~ In nl (dropTrailingCR s).
Proof.
  intros s H. unfold dropTrailingCR. destruct (lastChar s) as [c|]; [|assumption].
  destruct (c =? cr)%N; [|assumption].
  intro Hin. apply H. rewrite removelast_firstn_pred in Hin.
  rewrite <- (firstn_skipn (length s - 1) s). apply in_or_app. auto.
Qed.

Lemma dropTrailingCR_no_cr : forall s, ~ In cr s -> dropTrailingCR s = s.
Proof.
  intros s H. unfold dropTrailingCR, lastChar.
  destruct (nth_error s (length s - 1)) as [c|] eqn:Hn; [|reflexivity].
  destruct (c =? cr)%N eqn:Hc; [|reflexivity].
  apply N.eqb_eq in Hc. subst c. apply nth_error_In in Hn. contradiction.
Qed.

Lemma lines_eq : forall text uri opts,
  lines (new_DocumentAnalyzer text uri opts) = map dropTrailingCR (split nl text).
Proof.
  intros text uri opts. simpl. apply map_ext. intro s. apply stripCR_exact.
Qed.

(** X5: the line sequence of the constructor.  There is one line more than
    the text has LF characters (so the empty text has one line, the empty
    one); no line holds an LF; and each line is the stretch of text between
    two LFs, without its last character when that is a CR, and only that
    one: a second CR before it stays. *)
Theorem lines_of_document : forall text uri opts,
  length (lines (new_DocumentAnalyzer text uri opts)) = S (count_occ N.eq_dec text nl) /\
  Forall (fun l => ~ In nl l) (lines (new_DocumentAnalyzer text uri opts)) /\
  lines (new_DocumentAnalyzer text uri opts) = map dropTrailingCR (split nl text) /\
  joinLines nl (split nl text) = text.
Proof.
  intros text uri opts. rewrite lines_eq. split; [|split; [|split]].
  - rewrite length_map. apply split_length.
  - apply Forall_map. eapply Forall_impl; [|apply split_no_sep].
    intros l Hl. apply dropTrailingCR_no_nl. assumption.
  - reflexivity.
  - apply join_split.
Qed.

Lemma split_no_cr : forall t, ~ In cr t -> Forall (fun l => ~ In cr l) (split nl t).
Proof.
  intros t. induction t as [|c t IH]; intro H.
  - constructor; [intros [] | constructor].
  - rewrite split_cons.
    assert (Ht : ~ In cr t) by (intro; apply H; right; assumption).
    specialize (IH Ht). destruct (c =? nl)%N.
    + constructor; [intros [] | assumption].
    + destruct (split nl t) as [|l ls] eqn:E; [destruct (split_nonempty nl t E)|].
      inversion IH; subst. constructor; [|assumption].
      intros [Hc|Hin]; [|contradiction]. apply H. left. assumption.
Qed.

Lemma map_id_Forall : forall (A : Type) (f : A -> A) (l : list A),
  Forall (fun x => f x = x) l -> map f l = l.
Proof.
  intros A f l H. induction H as [|x l Hx Hl IH]; simpl; [reflexivity|].
  rewrite Hx, IH. reflexivity.
Qed.

(** X6: for a text without CR characters the lines joined by LF are the
    text again: the constructor loses nothing. *)
Theorem lines_round_trip : forall text uri opts,
  ~ In cr text ->
  joinLines nl (lines (new_DocumentAnalyzer text uri opts)) = text.
Proof.
  intros text uri opts H. rewrite lines_eq.
  rewrite (map_id_Forall _ dropTrailingCR).
  - apply join_split.
  - eapply Forall_impl; [|apply (split_no_cr text H)].
    intros l Hl. apply dropTrailingCR_no_cr. assumption.
Qed.

Lemma lines_round_trip_witness :
  ~ In cr docThreeLines /\
  joinLines nl (lines (new_DocumentAnalyzer docThreeLines exampleUri defaultOptions)) =
    docThreeLines.
Proof.
  assert (H : ~ In cr docThreeLines).
  { intro Hin. vm_compute in Hin.
    repeat (destruct Hin as [Hin|Hin]; [discriminate Hin|]). exact Hin. }
  split; [exact H|]. apply (lines_round_trip docThreeLines exampleUri defaultOptions H).
Defined.

Lemma dropTrailingCR_cons : forall c s,
  c <> cr -> dropTrailingCR (c :: s) = c :: dropTrailingCR s.
Proof.
  intros c s Hc. unfold dropTrailingCR, lastChar. destruct s as [|d s].
  - simpl. replace (c =? cr)%N with false by (symmetry; apply N.eqb_neq; assumption).
    reflexivity.
  - replace (length (c :: d :: s) - 1) with (S (length (d :: s) - 1)) by (simpl; lia).
    cbn [nth_error].
    destruct (nth_error (d :: s) (length (d :: s) - 1)) as [e|]; [|reflexivity].
    destruct (e =? cr)%N; reflexivity.
Qed.

(** Line ends written CR LF give the lines that LF line ends give. *)
Lemma lines_toCRLF : forall t,
  ~ In cr t -> map dropTrailingCR (split nl (toCRLF t)) = map dropTrailingCR (split nl t).
Proof.
  induction t as [|c t IH]; intro H; [reflexivity|].
  assert (Ht : ~ In cr t) by (intro; apply H; right; assumption).
  assert (Hc : c <> cr) by (intro; apply H; left; assumption).
  specialize (IH Ht). cbn [toCRLF]. destruct (c =? nl)%N eqn:Ec.
  - apply N.eqb_eq in Ec. subst c. rewrite (split_cons nl cr).
    change (cr =? nl)%N with false. cbv iota.
    rewrite (split_cons nl nl (toCRLF t)), (split_cons nl nl t), N.eqb_refl.
    cbn [map]. rewrite IH. reflexivity.
  - rewrite (split_cons nl c (toCRLF t)), (split_cons nl c t), Ec.
    destruct (split nl (toCRLF t)) as [|l ls] eqn:E1;
      [destruct (split_nonempty nl (toCRLF t) E1)|].
    destruct (split nl t) as [|l' ls'] eqn:E2; [destruct (split_nonempty nl t E2)|].
    cbn [map] in *. inversion IH as [[Hl Hls]].
    rewrite (dropTrailingCR_cons c l Hc), (dropTrailingCR_cons c l' Hc), Hl. reflexivity.
Qed.

(** X7: Windows line ends do not change the analysis.  A text with LF
    line ends and the same text with CR LF line ends have the same lines,
    and [analyze()] returns the same diagnostics and builds the same symbol
    table for both. *)
Theorem crlf_same_analysis : forall text uri opts,
  ~ In cr text ->
  lines (new_DocumentAnalyzer (toCRLF text) uri opts) =
    lines (new_DocumentAnalyzer text uri opts) /\
  exists ds this1 this2,
    analyze (new_DocumentAnalyzer text uri opts) = Some (ds, this1) /\
    analyze (new_DocumentAnalyzer (toCRLF text) uri opts) = Some (ds, this2) /\
    symbols this1 = symbols this2.
Proof.
  intros text uri opts H.
  assert (Hlines : lines (new_DocumentAnalyzer (toCRLF text) uri opts) =
                   lines (new_DocumentAnalyzer text uri opts)).
  { rewrite !lines_eq. apply lines_toCRLF. assumption. }
  split; [exact Hlines|].
  destruct (analyze_exact (new_DocumentAnalyzer text uri opts)) as [st [sy [E1 [E2 Ha]]]].
  destruct (analyze_exact (new_DocumentAnalyzer (toCRLF text) uri opts))
    as [st' [sy' [E1' [E2' Hb]]]].
  rewrite Hlines in E1', E2', Hb.
  change (options (new_DocumentAnalyzer (toCRLF text) uri opts))
    with (options (new_DocumentAnalyzer text uri opts)) in E1'.
  rewrite E1 in E1'. inversion E1'; subst st'.
  rewrite E2 in E2'. inversion E2'; subst sy'.
  eexists. eexists. eexists. split; [exact Ha|]. split; [exact Hb|]. reflexivity.
Qed.

Lemma crlf_same_analysis_witness :
  ~ In cr docThreeLines /\
  lines (new_DocumentAnalyzer (toCRLF docThreeLines) exampleUri defaultOptions) =
    lines (new_DocumentAnalyzer docThreeLines exampleUri defaultOptions) /\
  exists ds this1 this2,
    analyze (new_DocumentAnalyzer docThreeLines exampleUri defaultOptions) =
      Some (ds, this1) /\
    analyze (new_DocumentAnalyzer (toCRLF docThreeLines) exampleUri defaultOptions) =
      Some (ds, this2) /\
    symbols this1 = symbols this2.
Proof.
  assert (H : ~ In cr docThreeLines).
  { intro Hin. vm_compute in Hin.
    repeat (destruct Hin as [Hin|Hin]; [discriminate Hin|]). exact Hin. }
  split; [exact H|]. apply (crlf_same_analysis docThreeLines exampleUri defaultOptions H).
Defined.

(* ================================================================== *)
(** ** The warnings of [validateSemantics] *)
(* ================================================================== *)

Lemma SyntaxDiag_not_warning : forall options i l k d,
  SyntaxDiag options i l k d -> severity d <> Warning.
Proof. intros options i l k d H. destruct H; discriminate. Qed.

Lemma syntaxPass_not_warning : forall options lines st d,
  forEach (checkLine options) lines (initialSyntaxState []) = Some st ->
  In d (emitted st) -> severity d <> Warning.
Proof.
  intros options lines st d E Hd.
  destruct (syntaxPass_run options lines []) as [st' [E' [_ [[D [HD HF]] _]]]].
  rewrite E in E'. inversion E'; subst st'. rewrite HD in Hd. simpl in Hd.
  rewrite Forall_forall in HF. destruct (HF d Hd) as [j [l [k [_ [_ H]]]]].
  apply (SyntaxDiag_not_warning options j l k d H).
Qed.

(** What it takes for a token to be reported. *)
Lemma identReport_In : forall dv i copy mr d,
  In d (identReport dv i copy mr) <->
  exists v,
    group1 copy mr = Some v /\
    (0 <? index mr) && charAtIs copy (index mr - 1) 46 = false /\
    test (skipn (index mr + length v) copy) reCallParen = false /\
    includes keywords v = false /\ includes typeKeywords v = false /\
    isFunctionName v = false /\ includes dv v = false /\
    d = newDiagnostic (Z.of_nat i) (Z.of_nat (index mr)) (Z.of_nat i)
          (Z.of_nat (index mr + length v)) (msgUndefinedVariable v) Warning.
Proof.
  intros dv i copy mr d. unfold identReport. split.
  - intro H. destruct (group1 copy mr) as [v|]; [|contradiction]. exists v.
    destruct ((0 <? index mr) && charAtIs copy (index mr - 1) 46); [contradiction|].
    destruct (test (skipn (index mr + length v) copy) reCallParen); [contradiction|].
    destruct (includes keywords v); [contradiction|].
    destruct (includes typeKeywords v); [contradiction|].
    destruct (isFunctionName v); [contradiction|].
    destruct (includes dv v); [contradiction|].
    destruct H as [H|[]]. subst d. repeat split; reflexivity.
  - intros [v [Hg [H1 [H2 [H3 [H4 [H5 [H6 Hd]]]]]]]].
    rewrite Hg, H1, H2, H3, H4, H5, H6. simpl. left. symmetry. assumption.
Qed.

Lemma includes_declaredVars : forall syms v,
  includes keywords v = false ->
  (includes (declaredVarsOf syms) v = false <-> ~ In v (map SymbolInfo.name syms)).
Proof.
  intros syms v Hk. unfold declaredVarsOf. split.
  - intros H Hin. assert (Ht : includes (map SymbolInfo.name syms ++ [js "Data"]) v = true)
      by (apply includes_In, in_or_app; left; assumption).
    congruence.
  - intro H. destruct (includes (map SymbolInfo.name syms ++ [js "Data"]) v) eqn:E;
      [|reflexivity].
    apply includes_In in E. apply in_app_or in E. destruct E as [E|[E|[]]].
    + contradiction.
    + subst v. vm_compute in Hk. discriminate.
Qed.

(** The warnings that [analyze] returns, exactly. *)
Lemma warnings_exact : forall this ds this',
  analyze this = Some (ds, this') ->
  forall d,
    In d ds /\ severity d = Warning <->
    exists j x mr v,
      nth_error (lines this) j = Some x /\
      skipped (trim x) = false /\
      In mr (matchAll (semanticCopy x) reIdent) /\
      group1 (semanticCopy x) mr = Some v /\
      (0 <? index mr) && charAtIs (semanticCopy x) (index mr - 1) 46 = false /\
      test (skipn (index mr + length v) (semanticCopy x)) reCallParen = false /\
      includes keywords v = false /\ includes typeKeywords v = false /\
      isFunctionName v = false /\
      ~ In v (map SymbolInfo.name (symbols this')) /\
      d = newDiagnostic (Z.of_nat j) (Z.of_nat (index mr)) (Z.of_nat j)
            (Z.of_nat (index mr + length v)) (msgUndefinedVariable v) Warning.
Proof.
  intros this ds this' Ha d.
  destruct (analyze_exact this) as [st [sy [E1 [E2 Hb]]]].
  rewrite Ha in Hb. injection Hb as Hds Hthis. subst ds this'. cbn [symbols]. split.
  - intros [Hin Hsev]. apply in_app_or in Hin. destruct Hin as [Hin|Hin];
      [destruct (syntaxPass_not_warning _ _ st d E1 Hin Hsev)|].
    apply in_app_or in Hin. destruct Hin as [Hin|Hin];
      [rewrite (unclosedReport_error _ _ d Hin) in Hsev; discriminate|].
    apply undefinedReportsFrom_In in Hin. destruct Hin as [j [x [Hx Hin]]].
    simpl in Hin. unfold undefinedReports in Hin.
    destruct (skipped (trim x)) eqn:Hsk; [contradiction|].
    apply in_flat_map in Hin. destruct Hin as [mr [Hmr Hin]].
    apply identReport_In in Hin.
    destruct Hin as [v [Hg [H1 [H2 [H3 [H4 [H5 [H6 Hd]]]]]]]].
    exists j, x, mr, v. repeat (split; [assumption|]).
    split; [apply (includes_declaredVars _ v H3); assumption | assumption].
  - intros [j [x [mr [v [Hx [Hsk [Hmr [Hg [H1 [H2 [H3 [H4 [H5 [H6 Hd]]]]]]]]]]]]]].
    split; [|subst d; reflexivity].
    apply in_or_app. right. apply in_or_app. right.
    apply (undefinedReportsFrom_nth _ _ 0 j x d Hx). simpl.
    unfold undefinedReports. rewrite Hsk. apply in_flat_map. exists mr.
    split; [assumption|]. apply identReport_In. exists v.
    repeat (split; [assumption|]).
    split; [apply (includes_declaredVars _ v H3); assumption | assumption].
Qed.

(** X8: the Undefined-variable warnings, exactly.  Among the diagnostics
    that [analyze()] returns, the Warnings are those of the identifier-shaped
    tokens that pass every filter of [validateSemantics], and each such token
    has its Warning: the token stands on a line that is not skipped, in the
    copy of the raw line with string literals replaced and the comment
    removed; no dot stands right before it; no parenthesis follows it after
    optional white space; it is no keyword, no type name and, whatever the
    case of its letters, no registry name; and no symbol of the table that
    [extractSymbols] has built from the whole document has its name.  The
    Warning sits at the token's columns in the copy. *)
Theorem undefined_variable_warnings : forall text uri opts,
  exists ds this',
    analyze (new_DocumentAnalyzer text uri opts) = Some (ds, this') /\
    forall d,
      In d ds /\ severity d = Warning <->
      exists j x mr v,
        nth_error (lines this') j = Some x /\
        skipped (trim x) = false /\
        In mr (matchAll (semanticCopy x) reIdent) /\
        group1 (semanticCopy x) mr = Some v /\
        (0 <? index mr) && charAtIs (semanticCopy x) (index mr - 1) 46 = false /\
        test (skipn (index mr + length v) (semanticCopy x)) reCallParen = false /\
        includes keywords v = false /\ includes typeKeywords v = false /\
        isFunctionName v = false /\
        ~ In v (map SymbolInfo.name (symbols this')) /\
        d = newDiagnostic (Z.of_nat j) (Z.of_nat (index mr)) (Z.of_nat j)
              (Z.of_nat (index mr + length v)) (msgUndefinedVariable v) Warning.
Proof.
  intros text uri opts.
  destruct (analyze_exact (new_DocumentAnalyzer text uri opts)) as [st [sy [_ [_ Ha]]]].
  eexists. eexists. split; [exact Ha|]. intro d.
  apply (warnings_exact _ _ _ Ha d).
Qed.

Lemma Warning_dec : forall sv : DiagnosticSeverity, {sv = Warning} + {sv <> Warning}.
Proof. intro sv. destruct sv; (left; reflexivity) || (right; discriminate). Qed.

Lemma msgUndefinedVariable_inj : forall v w,
  msgUndefinedVariable v = msgUndefinedVariable w -> v = w.
Proof.
  intros v w H. unfold msgUndefinedVariable in H.
  apply app_inv_head in H. apply app_inv_head in H. apply app_inv_tail in H. assumption.
Qed.

Lemma SyntaxDiag_message : forall options i l k d v,
  SyntaxDiag options i l k d -> message d <> msgUndefinedVariable v.
Proof.
  intros options i l k d v H. destruct H; cbn; discriminate.
Qed.

Lemma unclosedReport_message : forall lines stack d v,
  In d (unclosedReport lines stack) -> message d <> msgUndefinedVariable v.
Proof.
  intros lines stack d v H. unfold unclosedReport in H.
  destruct (top stack) as [b|]; [|contradiction].
  destruct (nth_error lines (Block.line b)); [|contradiction].
  destruct H as [H|[]]. subst d. cbn. discriminate.
Qed.

Lemma isFunctionName_true : forall v f,
  In f functionNames -> toLowerCase f = toLowerCase v -> isFunctionName v = true.
Proof.
  intros v f Hf He. unfold isFunctionName. apply existsb_exists. exists f.
  split; [assumption|]. apply jseqb_eq. assumption.
Qed.

(** X9: names that are never reported.  No diagnostic that [analyze()]
    returns says Undefined variable of a name that some symbol of the
    document has, wherever in the document the declaration stands, even
    after the use; nor of a keyword, of a type name, or of a name that
    matches a registry name when the case of the letters is ignored. *)
Theorem names_never_reported : forall text uri opts,
  exists ds this',
    analyze (new_DocumentAnalyzer text uri opts) = Some (ds, this') /\
    forall v,
      In v (map SymbolInfo.name (symbols this')) \/ In v keywords \/
      In v typeKeywords \/
      (exists f, In f getAllFunctionNames /\ toLowerCase f = toLowerCase v) ->
      forall d, In d ds -> message d <> msgUndefinedVariable v.
Proof.
  intros text uri opts.
  destruct (analyze_exact (new_DocumentAnalyzer text uri opts)) as [st [sy [E1 [_ Ha]]]].
  eexists. eexists. split; [exact Ha|]. intros v Hv d Hd Hmsg.
  destruct (Warning_dec (severity d)) as [Hsev|Hsev].
  - destruct (proj1 (warnings_exact _ _ _ Ha d) (conj Hd Hsev))
      as [j [x [mr [w [_ [_ [_ [_ [_ [_ [H3 [H4 [H5 [H6 Hdd]]]]]]]]]]]]]].
    subst d. cbn in Hmsg. apply msgUndefinedVariable_inj in Hmsg. subst w.
    destruct Hv as [Hv|[Hv|[Hv|[f [Hf He]]]]].
    + contradiction.
    + apply includes_In in Hv. congruence.
    + apply includes_In in Hv. congruence.
    + rewrite (isFunctionName_true v f Hf He) in H5. discriminate.
  - apply in_app_or in Hd. destruct Hd as [Hd|Hd].
    + destruct (syntaxPass_run (options (new_DocumentAnalyzer text uri opts))
                  (lines (new_DocumentAnalyzer text uri opts)) [])
        as [st' [E' [_ [[D [HD HF]] _]]]].
      rewrite E1 in E'. inversion E'; subst st'. rewrite HD in Hd. simpl in Hd.
      rewrite Forall_forall in HF. destruct (HF d Hd) as [j [l [k [_ [_ H]]]]].
      apply (SyntaxDiag_message _ _ _ _ d v H Hmsg).
    + apply in_app_or in Hd. destruct Hd as [Hd|Hd].
      * apply (unclosedReport_message _ _ d v Hd Hmsg).
      * apply Hsev. apply (undefinedReportsFrom_warning _ _ _ d Hd).
Qed.

(* ------------------------------------------------------------------ *)
(** *** The tokens of the identifier pattern *)

Lemma isIdentStart_word : forall ch, isIdentStart ch = true -> isWordChar ch = true.
Proof.
  intros ch H. unfold isIdentStart in H. unfold isWordChar, isAlnum.
  apply orb_true_iff in H. destruct H as [H|H]; rewrite H; simpl;
    [reflexivity | apply orb_true_r].
Qed.

Lemma iter_chr_caps : forall s p i c j c',
  iter (Span s (Chr p)) i c j c' -> c' = c.
Proof.
  intros s p i c j c' H. induction H as [|i c j c' k c'' HR _ _ IH]; [reflexivity|].
  simpl in HR. destruct HR as [ch [_ [_ [_ Hc]]]]. congruence.
Qed.

Lemma wordAt_nth : forall s k ch,
  nth_error s k = Some ch -> wordAt s k = isWordChar ch.
Proof. intros s k ch H. unfold wordAt. rewrite H. reflexivity. Qed.

Lemma wordAt_length : forall s k, wordAt s k = true -> k < length s.
Proof.
  intros s k H. unfold wordAt in H. destruct (nth_error s k) eqn:E; [|discriminate].
  apply nth_error_Some. congruence.
Qed.

(** Every match of the identifier pattern is a whole word. *)
Lemma reIdent_match : forall s mr,
  IsMatch s reIdent mr ->
  IsWord s (index mr) (stop mr) /\ mr = wordMatch (index mr) (stop mr).
Proof.
  intros s mr [Hi HS]. unfold reIdent in HS. cbn [seqOf Span] in HS.
  destruct HS as [k1 [c1 [[Hwb [Hk1 Hc1]] [k2 [c2 [[c0 [Hin Hset]] [Hwb2 [Hj Hc']]]]]]]].
  subst k1 c1.
  assert (Hb : index mr + 1 <= k2 /\ k2 <= length s)
    by (apply (Span_bounds s (Seq (Chr isIdentStart) (Star wd)) _ _ _ _ Hi Hin)).
  assert (Hch : forall k ch, index mr <= k < k2 -> nth_error s k = Some ch ->
                             isWordChar ch = true).
  { apply (Span_chars s (fun ch => isWordChar ch = true)
             (Seq (Chr isIdentStart) (Star wd)) _ noCaps _ c0); [|exact Hin].
    simpl. split; [apply isIdentStart_word | auto]. }
  assert (Hall : forall k, index mr <= k < k2 -> wordAt s k = true).
  { intros k Hk. destruct (nth_error s k) as [ch|] eqn:E.
    - rewrite (wordAt_nth s k ch E). apply (Hch k ch Hk E).
    - apply nth_error_None in E. lia. }
  destruct Hin as [k3 [c3 [[ch [Hn [Hp [Hk3 Hc3]]]] Hiter]]].
  apply iter_chr_caps in Hiter. subst c3 c0.
  assert (Hcur : wordAt s (index mr) = true) by (apply Hall; lia).
  assert (Hlast : wordAt s (k2 - 1) = true) by (apply Hall; lia).
  subst k2. split.
  - split; [lia|]. split; [assumption|]. split; [|split].
    + unfold wordBoundary in Hwb. rewrite Hcur in Hwb.
      destruct (index mr) as [|i'] eqn:Ei; [left; reflexivity|]. right.
      replace (S i' - 1) with i' by lia. destruct (wordAt s i'); [discriminate | reflexivity].
    + unfold wordBoundary in Hwb2. destruct (stop mr) as [|j'] eqn:Ej; [lia|].
      replace (S j' - 1) with j' in Hlast by lia. rewrite Hlast in Hwb2.
      destruct (wordAt s (S j')); [discriminate | reflexivity].
    + exists ch. auto.
  - destruct mr as [a b g]. simpl in *. unfold wordMatch. f_equal. congruence.
Qed.

Lemma group1_wordMatch : forall s a b,
  group1 s (wordMatch a b) = Some (substring s a b).
Proof. reflexivity. Qed.

Lemma substring_length : forall (s : jsstring) a b,
  a <= b <= length s -> length (substring s a b) = b - a.
Proof.
  intros s a b H. unfold substring. rewrite length_firstn, length_skipn. lia.
Qed.

Lemma no_match_without : forall s r mr x,
  (exists r', r = Seq (Chr (isChar x)) r') -> IsMatch s r mr -> In x s.
Proof.
  intros s r mr x [r' Hr] [_ HS]. subst r. simpl in HS.
  destruct HS as [k [ck [[ch [Hn [Hp _]]] _]]].
  unfold isChar in Hp. apply N.eqb_eq in Hp. subst ch.
  apply (nth_error_In _ _ Hn).
Qed.

(** A line without quotes and without the comment sign is its own copy. *)
Lemma semanticCopy_plain : forall l, ~ In dq l -> ~ In 35%N l -> semanticCopy l = l.
Proof.
  intros l Hq Hc. unfold semanticCopy.
  assert (Hall : replaceAll l reStringLiteral [dq; dq] = l).
  { unfold replaceAll. pose proof (matchAll_IsMatch l reStringLiteral) as HF.
    destruct (matchAll l reStringLiteral) as [|mr ms]; [reflexivity|].
    inversion HF as [|? ? HM _]; subst. exfalso. apply Hq.
    apply (no_match_without l reStringLiteral mr dq); [|exact HM].
    eexists. reflexivity. }
  rewrite Hall. unfold replaceFirst.
  destruct (exec l reComment) as [mr|] eqn:E; [|reflexivity].
  unfold exec in E. apply execFrom_sound in E. destruct E as [_ HM].
  exfalso. apply Hc. apply (no_match_without l reComment mr 35%N); [|exact HM].
  eexists. reflexivity.
Qed.

(** X10: where a Warning points.  Each Warning that [analyze()] returns
    sits on one line of the document; its message names a word [v], a letter
    or an underscore followed by letters, digits and underscores; and its
    range covers, in the line's copy with string literals replaced and the
    comment removed, the characters that spell [v].  On a line without a
    quote and without the comment sign the copy is the raw line, so there the
    range spells [v] in the text of the document. *)
Theorem warning_spells_name : forall text uri opts,
  exists ds this',
    analyze (new_DocumentAnalyzer text uri opts) = Some (ds, this') /\
    forall d, In d ds -> severity d = Warning ->
      exists j x v a,
        nth_error (lines this') j = Some x /\
        d = newDiagnostic (Z.of_nat j) (Z.of_nat a) (Z.of_nat j)
              (Z.of_nat (a + length v)) (msgUndefinedVariable v) Warning /\
        IsWord (semanticCopy x) a (a + length v) /\
        substring (semanticCopy x) a (a + length v) = v /\
        (~ In dq x -> ~ In 35%N x -> substring x a (a + length v) = v).
Proof.
  intros text uri opts.
  destruct (analyze_exact (new_DocumentAnalyzer text uri opts)) as [st [sy [_ [_ Ha]]]].
  eexists. eexists. split; [exact Ha|]. intros d Hd Hsev.
  destruct (proj1 (warnings_exact _ _ _ Ha d) (conj Hd Hsev))
    as [j [x [mr [v [Hx [_ [Hmr [Hg [_ [_ [_ [_ [_ [_ Hdd]]]]]]]]]]]]]].
  pose proof (matchAll_IsMatch (semanticCopy x) reIdent) as HF.
  rewrite Forall_forall in HF. specialize (HF mr Hmr).
  destruct (reIdent_match _ mr HF) as [Hw Hmr'].
  rewrite Hmr', group1_wordMatch in Hg. inversion Hg as [Hv]. clear Hg.
  assert (Hlen : index mr + length v = stop mr).
  { rewrite <- Hv. destruct Hw as [Hb _]. rewrite substring_length; lia. }
  exists j, x, v, (index mr). rewrite Hlen. rewrite Hlen in Hdd.
  split; [exact Hx|]. split; [exact Hdd|]. split; [exact Hw|]. split; [exact Hv|].
  intros Hq Hc. rewrite <- (semanticCopy_plain x Hq Hc) at 1. exact Hv.
Qed.

(* ------------------------------------------------------------------ *)
(** *** Every word is a token *)

Lemma m_chr : forall s p i c (k : K),
  m s (Chr p) i c k =
  match nth_error s i with
  | Some ch => if p ch then k (S i) c else None
  | None => None
  end.
Proof. reflexivity. Qed.

(** The greedy star over a character class reaches every end up to which
    the class holds. *)
Lemma starLoop_chr_greedy : forall s p (k : K) n i j c,
  i <= j -> j - i <= n ->
  (forall x, i <= x < j -> exists ch, nth_error s x = Some ch /\ p ch = true) ->
  k j c <> None ->
  starLoop (m s (Chr p)) k n i c <> None.
Proof.
  intros s p k. induction n as [|n IH]; intros i j c Hij Hn Hp Hk.
  - assert (i = j) by lia. subst j. exact Hk.
  - cbn [starLoop]. rewrite m_chr. destruct (Nat.eq_dec i j) as [->|Hne].
    + destruct (nth_error s j) as [ch|]; [|exact Hk].
      destruct (p ch); [|exact Hk].
      destruct (if j <? S j then starLoop (m s (Chr p)) k n (S j) c else None);
        cbv beta iota; [discriminate | exact Hk].
    + destruct (Hp i) as [ch [Hch Hpc]]; [lia|]. rewrite Hch, Hpc.
      replace (i <? S i) with true by (symmetry; apply Nat.ltb_lt; lia).
      assert (H : starLoop (m s (Chr p)) k n (S i) c <> None).
      { apply (IH (S i) j c); [lia | lia | | exact Hk].
        intros x Hx. apply Hp. lia. }
      destruct (starLoop (m s (Chr p)) k n (S i) c); cbv beta iota;
        [discriminate | contradiction].
Qed.

Lemma IsWord_boundaries : forall s a b,
  IsWord s a b -> wordBoundary s a = true /\ wordBoundary s b = true.
Proof.
  intros s a b [Hab [Hall [Hpre [Hpost _]]]]. unfold wordBoundary. split.
  - rewrite (Hall a) by lia. destruct a as [|a']; [reflexivity|].
    destruct Hpre as [Hpre|Hpre]; [discriminate|].
    replace (S a' - 1) with a' in Hpre by lia. rewrite Hpre. reflexivity.
  - rewrite Hpost. destruct b as [|b']; [lia|]. rewrite (Hall b') by lia. reflexivity.
Qed.

Lemma matchAt_reIdent_complete : forall s a b,
  IsWord s a b -> matchAt s reIdent a <> None.
Proof.
  intros s a b Hw. destruct (IsWord_boundaries s a b Hw) as [Hwa Hwb].
  destruct Hw as [Hab [Hall [_ [_ [ch [Hch Hst]]]]]].
  unfold matchAt, reIdent. cbn [seqOf m]. rewrite Hwa, Hch, Hst.
  apply (starLoop_chr_greedy s isWordChar _ (S (length s)) (S a) b noCaps).
  - lia.
  - lia.
  - intros x Hx. specialize (Hall x). unfold wordAt in Hall.
    destruct (nth_error s x) as [cx|]; [|assert (false = true) by (apply Hall; lia);
                                           discriminate].
    exists cx. split; [reflexivity | apply Hall; lia].
  - rewrite Hwb. discriminate.
Qed.

Lemma search_leftmost : forall s r n i mr,
  search s r i n = Some mr ->
  forall j, i <= j < index mr -> matchAt s r j = None.
Proof.
  intros s r. induction n as [|n IH]; intros i mr H j Hj; simpl in H.
  - destruct (matchAt s r i) as [[e c]|]; [|discriminate].
    inversion H; subst. simpl in Hj. lia.
  - destruct (matchAt s r i) as [[e c]|] eqn:E.
    + inversion H; subst. simpl in Hj. lia.
    + destruct (Nat.eq_dec i j) as [->|Hne]; [assumption|].
      apply (IH (S i) mr H j). lia.
Qed.

Lemma IsWord_end_unique : forall s a b b', IsWord s a b -> IsWord s a b' -> b = b'.
Proof.
  intros s a b b' [Hab [Hall [_ [Hpost _]]]] [Hab' [Hall' [_ [Hpost' _]]]].
  destruct (Nat.lt_trichotomy b b') as [H|[H|H]]; [|assumption|].
  - rewrite (Hall' b) in Hpost by lia. discriminate.
  - rewrite (Hall b') in Hpost' by lia. discriminate.
Qed.

Lemma matchAllFrom_words : forall s f k a b,
  k <= a -> length s < k + f -> IsWord s a b ->
  In (wordMatch a b) (matchAllFrom s reIdent f k).
Proof.
  intros s. induction f as [|f IH]; intros k a b Hk Hf Hw.
  - destruct Hw as [Hab _]. lia.
  - pose proof Hw as [Hab [_ [Hpre _]]]. cbn [matchAllFrom].
    destruct (execFrom s reIdent k) as [mr|] eqn:E.
    + pose proof E as E'. apply execFrom_sound in E'. destruct E' as [Hkm HM].
      destruct (reIdent_match s mr HM) as [Hwm Hmr].
      assert (Hle : index mr <= a).
      { destruct (Nat.le_gt_cases (index mr) a) as [H|H]; [assumption|]. exfalso.
        unfold execFrom in E. destruct (length s <? k); [discriminate|].
        apply (matchAt_reIdent_complete s a b Hw).
        apply (search_leftmost s reIdent _ k mr E a). lia. }
      destruct (Nat.eq_dec (index mr) a) as [Ha|Ha].
      * left. rewrite Hmr, Ha. f_equal. rewrite Ha in Hwm.
        apply (IsWord_end_unique s a _ _ Hwm Hw).
      * right. destruct Hwm as [Hab' [Hall' _]].
        assert (Hstop : stop mr <= a).
        { destruct (Nat.le_gt_cases (stop mr) a) as [H|H]; [assumption|]. exfalso.
          destruct Hpre as [Hpre|Hpre]; [lia|].
          rewrite (Hall' (a - 1)) in Hpre by lia. discriminate. }
        replace (stop mr =? index mr) with false by (symmetry; apply Nat.eqb_neq; lia).
        apply (IH (stop mr) a b Hstop); [lia | assumption].
    + exfalso. unfold execFrom in E.
      destruct (length s <? k) eqn:El; [apply Nat.ltb_lt in El; lia|].
      apply (search_complete s reIdent (length s - k) k a); [lia | | exact E].
      apply (matchAt_reIdent_complete s a b Hw).
Qed.

(** X11: the tokens of the identifier pattern are the whole words.  The
    loop over [varPattern] in [validateSemantics] meets exactly the stretches
    of the subject that are an identifier-shaped word not part of a longer
    one: a letter or an underscore followed by letters, digits and
    underscores, with no such character right before or after.  Capture 1
    of each is the whole match.  So a digit run that ends in letters (as in
    12ab) holds no token. *)
Theorem identifier_tokens : forall s mr,
  In mr (matchAll s reIdent) <->
  IsWord s (index mr) (stop mr) /\ mr = wordMatch (index mr) (stop mr).
Proof.
  intros s mr. split.
  - intro H. apply reIdent_match.
    pose proof (matchAll_IsMatch s reIdent) as HF. rewrite Forall_forall in HF.
    apply HF. assumption.
  - intros [Hw Hmr]. rewrite Hmr. unfold matchAll.
    apply (matchAllFrom_words s (S (length s)) 0 _ _); [lia | lia | assumption].
Qed.

(* ================================================================== *)
(** ** Where the symbols point *)
(* ================================================================== *)

Lemma isPrefixOf_firstn : forall p t, isPrefixOf p t = true -> firstn (length p) t = p.
Proof.
  induction p as [|x p IH]; intros t H; [reflexivity|].
  destruct t as [|y t]; [discriminate|]. simpl in H.
  apply andb_true_iff in H. destruct H as [H1 H2]. apply N.eqb_eq in H1. subst y.
  simpl. rewrite (IH t H2). reflexivity.
Qed.

(** [indexOf] answers -1 or an index at which the needle stands. *)
Lemma indexOfGo_spells : forall needle hay k,
  indexOfGo needle hay k = (-1)%Z \/
  exists n, indexOfGo needle hay k = Z.of_nat (k + n) /\
            isPrefixOf needle (skipn n hay) = true.
Proof.
  intros needle hay. induction hay as [|c t IH]; intro k; rewrite indexOfGo_eq.
  - destruct (isPrefixOf needle []) eqn:E; [|left; reflexivity].
    right. exists 0. rewrite Nat.add_0_r. auto.
  - destruct (isPrefixOf needle (c :: t)) eqn:E.
    + right. exists 0. rewrite Nat.add_0_r. auto.
    + destruct (IH (S k)) as [H|[n [H1 H2]]]; [left; assumption|].
      right. exists (S n). replace (k + S n) with (S k + n) by lia. auto.
Qed.

Lemma indexOfFrom_spells : forall needle s from,
  (0 <= indexOfFrom needle s from)%Z ->
  exists col, indexOfFrom needle s from = Z.of_nat col /\
              substring s col (col + length needle) = needle.
Proof.
  intros needle s from H. unfold indexOfFrom in *. cbv zeta in *.
  destruct (indexOfGo_spells needle (skipn (Nat.min from (length s)) s)
              (Nat.min from (length s))) as [E|[n [E Hp]]]; [lia|].
  exists (Nat.min from (length s) + n). split; [assumption|].
  unfold substring. rewrite skipn_skipn in Hp.
  replace (Nat.min from (length s) + n + length needle - (Nat.min from (length s) + n))
    with (length needle) by lia.
  rewrite (Nat.add_comm (Nat.min from (length s)) n).
  apply isPrefixOf_firstn. assumption.
Qed.

Lemma indexOfFrom_found : forall needle pre post from,
  from <= length pre -> (0 <= indexOfFrom needle (pre ++ needle ++ post) from)%Z.
Proof.
  intros needle pre post from H. unfold indexOfFrom. cbv zeta.
  replace (Nat.min from (length (pre ++ needle ++ post))) with from
    by (rewrite length_app; lia).
  rewrite skipn_app. replace (from - length pre) with 0 by lia. simpl skipn at 2.
  pose proof (indexOfGo_found needle (skipn from pre) post from). lia.
Qed.

(** Capture 1 of a match starts at or after the start of the match and, for
    the patterns of the analyzer, is not empty. *)
Lemma Span_cap1_from : forall s r i c j c',
  G1NonEmpty r -> i <= length s -> Span s r i c j c' ->
  forall a b, cap1 c' = Some (a, b) -> cap1 c = Some (a, b) \/ (i <= a /\ a < b).
Proof.
  intros s. induction r as [|p|x IHx y IHy|x IHx y IHy|x IHx|g x IHx| | |];
    intros i c j c' HG Hi H a b Hc; simpl in H, HG.
  - destruct H; subst. auto.
  - destruct H as [ch [_ [_ [_ Hc']]]]. subst. auto.
  - destruct H as [k [ck [Hx Hy]]]. destruct HG as [HGx HGy].
    pose proof (Span_bounds s x _ _ _ _ Hi Hx) as [Hk1 Hk2].
    destruct (IHy k ck j c' HGy Hk2 Hy a b Hc) as [H|H]; [|right; lia].
    apply (IHx i c k ck HGx Hi Hx a b H).
  - destruct HG as [HGx HGy]. destruct H as [H|H].
    + apply (IHx i c j c' HGx Hi H a b Hc).
    + apply (IHy i c j c' HGy Hi H a b Hc).
  - revert Hi a b Hc. induction H as [i c|i c k ck j c' HR Hlt Hit IH]; intros Hi a b Hc.
    + auto.
    + pose proof (Span_bounds s x _ _ _ _ Hi HR) as [_ Hk].
      destruct (IH Hk a b Hc) as [H|H]; [|right; lia].
      apply (IHx i c k ck HG Hi HR a b H).
  - destruct H as [c0 [Hx Hset]]. subst c'.
    pose proof (Span_bounds s x _ _ _ _ Hi Hx) as [Hj _].
    destruct g; simpl in Hc.
    + inversion Hc; subst. right. lia.
    + apply (IHx i c j c0 HG Hi Hx a b Hc).
  - destruct H as [_ [_ Hc']]. subst. auto.
  - destruct H as [_ [_ Hc']]. subst. auto.
  - destruct H as [_ [_ Hc']]. subst. auto.
Qed.

(** The text of capture 1 stands in the subject at or after the start of
    the match. *)
Lemma IsMatch_group1_occurs : forall s r mr t,
  definesG1 r = true -> G1NonEmpty r -> IsMatch s r mr -> group1 s mr = Some t ->
  t <> [] /\ exists pre post, s = pre ++ t ++ post /\ index mr <= length pre.
Proof.
  intros s r mr t Hd HG HM Hg.
  destruct (IsMatch_group1 s r mr Hd HM) as [a [b [Hc [Hab Hg']]]].
  rewrite Hg in Hg'. inversion Hg'; subst t. clear Hg'.
  destruct HM as [Hi HS].
  destruct (Span_cap1_from s r _ _ _ _ HG Hi HS a b Hc) as [H|[Ha Hlt]]; [discriminate|].
  split.
  - intro E. apply (f_equal (@length char)) in E. unfold substring in E.
    rewrite length_firstn, length_skipn in E. simpl in E. lia.
  - exists (firstn a s), (skipn (b - a) (skipn a s)). split.
    + unfold substring. rewrite firstn_skipn, firstn_skipn. reflexivity.
    + rewrite length_firstn. lia.
Qed.

(** The same in the raw line, of which the subject is the trimmed text. *)
Lemma group1_in_line : forall l r mr t from,
  definesG1 r = true -> G1NonEmpty r -> IsMatch (trim l) r mr ->
  group1 (trim l) mr = Some t -> from <= index mr ->
  t <> [] /\
  exists col, indexOfFrom t l from = Z.of_nat col /\
              substring l col (col + length t) = t.
Proof.
  intros l r mr t from Hd HG HM Hg Hfrom.
  destruct (IsMatch_group1_occurs (trim l) r mr t Hd HG HM Hg)
    as [Hne [pre' [post' [Htrim Hlen]]]].
  split; [assumption|]. apply indexOfFrom_spells.
  destruct (trim_infix l) as [pre [post Hline]].
  rewrite Hline at 1. rewrite Htrim.
  replace (pre ++ (pre' ++ t ++ post') ++ post)
    with ((pre ++ pre') ++ t ++ (post' ++ post))
    by (repeat rewrite <- app_assoc; reflexivity).
  apply indexOfFrom_found. rewrite length_app. lia.
Qed.

Lemma SymbolAt_weaken : forall lines k k' sy,
  k <= k' -> SymbolAt lines k sy -> SymbolAt lines k' sy.
Proof.
  intros lines k k' sy Hk [ln [l [col [H1 [H2 H3]]]]].
  exists ln, l, col. split; [assumption|]. split; [lia | assumption].
Qed.

Lemma SymbolShape_push : forall lines i st sy sp,
  SymbolShape lines (S i) st -> SymbolAt lines (S i) sy ->
  SymbolInfo.line sy = Z.of_nat i ->
  SymbolShape lines (S i) {| table := table st ++ [sy]; seenProps := sp |}.
Proof.
  intros lines i st sy sp [HF HA] Hsy Hline. split; simpl.
  - apply Forall_app. split; [assumption | constructor; [assumption | constructor]].
  - intros p q a b Hpq Ha Hb.
    assert (Hbound : forall n x, nth_error (table st ++ [sy]) n = Some x ->
                                 (SymbolInfo.line x <= Z.of_nat i)%Z).
    { intros n x Hx. apply nth_error_In in Hx. apply in_app_or in Hx.
      destruct Hx as [Hx|[Hx|[]]].
      - rewrite Forall_forall in HF. destruct (HF x Hx) as [ln [_ [_ [E [Hlt _]]]]]. lia.
      - subst x. lia. }
    destruct (Nat.lt_ge_cases q (length (table st))) as [Hq|Hq].
    + rewrite nth_error_app1 in Ha by lia. rewrite nth_error_app1 in Hb by lia.
      apply (HA p q a b Hpq Ha Hb).
    + rewrite nth_error_app2 in Hb by lia.
      destruct (q - length (table st)) as [|n]; [|destruct n; discriminate].
      simpl in Hb. inversion Hb; subst b. rewrite Hline. apply (Hbound p a Ha).
Qed.

Section SymbolLine.

Variable lines : list jsstring.
Variable i : nat.
Variable l : jsstring.
Hypothesis Hl : nth_error lines i = Some l.
Hypothesis Hsk : skipped (trim l) = false.

Lemma SymbolAt_here : forall t ty from r mr,
  definesG1 r = true -> G1NonEmpty r -> IsMatch (trim l) r mr ->
  group1 (trim l) mr = Some t -> from <= index mr ->
  SymbolAt lines (S i) (SymbolInfo.mk t ty (Z.of_nat i) (indexOfFrom t l from)).
Proof.
  intros t ty from r mr Hd HG HM Hg Hfrom.
  destruct (group1_in_line l r mr t from Hd HG HM Hg Hfrom) as [Hne [col [Hcol Hsp]]].
  exists i, l, col. simpl. repeat split; try assumption. lia.
Qed.

Lemma varDeclBody_shape : forall mr st,
  IsMatch (trim l) reVarDecl mr -> SymbolShape lines (S i) st ->
  exists st', varDeclBody i l (trim l) mr st = Some st' /\ SymbolShape lines (S i) st'.
Proof.
  intros mr st HM Hok. unfold varDeclBody.
  destruct (IsMatch_group1 _ reVarDecl mr eq_refl HM) as [a [b [_ [_ Hg]]]].
  rewrite Hg. eexists. split; [reflexivity|]. cbv zeta.
  apply SymbolShape_push; [assumption | | reflexivity].
  apply (SymbolAt_here _ _ (index mr) reVarDecl mr); try assumption; try reflexivity;
    try (simpl; lia).
Qed.

Lemma extractForeach_shape : forall st,
  SymbolShape lines (S i) st ->
  exists st', extractForeach i l (trim l) st = Some st' /\ SymbolShape lines (S i) st'.
Proof.
  intros st Hok. unfold extractForeach.
  destruct (exec (trim l) reForeach) as [mr|] eqn:E; [|exists st; auto].
  unfold exec in E. apply execFrom_sound in E. destruct E as [_ HM].
  destruct (IsMatch_group1 _ reForeach mr eq_refl HM) as [a [b [_ [_ Hg]]]].
  rewrite Hg. eexists. split; [reflexivity|]. cbv zeta.
  apply SymbolShape_push; [assumption | | reflexivity].
  apply (SymbolAt_here _ _ 0 reForeach mr); try assumption; try reflexivity;
    try (simpl; lia).
Qed.

Lemma propAssignBody_shape : forall mr st,
  IsMatch (trim l) rePropAssign mr -> SymbolShape lines (S i) st ->
  exists st', propAssignBody i l (trim l) mr st = Some st' /\ SymbolShape lines (S i) st'.
Proof.
  intros mr st HM Hok. unfold propAssignBody.
  destruct (IsMatch_group1 _ rePropAssign mr eq_refl HM) as [a [b [_ [_ Hg]]]].
  rewrite Hg. cbn [negb]. destruct (includes (seenProps st) (substring (trim l) a b));
    cbn [negb]; [exists st; auto|].
  eexists. split; [reflexivity|].
  apply SymbolShape_push; [assumption | | reflexivity].
  apply (SymbolAt_here _ _ 0 rePropAssign mr); try assumption; try reflexivity;
    try (simpl; lia).
Qed.

End SymbolLine.

Lemma extractLine_shape : forall lines i l st,
  nth_error lines i = Some l -> SymbolShape lines i st ->
  exists st', extractLine l i st = Some st' /\ SymbolShape lines (S i) st'.
Proof.
  intros lines i l st Hl [HF HA].
  assert (Hok : SymbolShape lines (S i) st).
  { split; [|assumption]. eapply Forall_impl; [|exact HF].
    intros sy Hsy. apply (SymbolAt_weaken lines i (S i) sy); [lia | assumption]. }
  unfold extractLine. cbv zeta.
  destruct (skipped (trim l)) eqn:Hsk; [exists st; auto|].
  destruct (whileExec_run SymbolState (SymbolShape lines (S i)) reVarDecl (trim l)
              (varDeclBody i l (trim l)) st) as [st1 [E1 Hok1]].
  - simpl. lia.
  - intros mr a HM Ha. apply (varDeclBody_shape lines i l Hl Hsk mr a HM Ha).
  - assumption.
  - rewrite E1. cbn beta iota.
    destruct (extractForeach_shape lines i l Hl Hsk st1 Hok1) as [st2 [E2 Hok2]].
    rewrite E2.
    apply (whileExec_run SymbolState (SymbolShape lines (S i)) rePropAssign (trim l)).
    + simpl. lia.
    + intros mr a HM Ha. apply (propAssignBody_shape lines i l Hl Hsk mr a HM Ha).
    + assumption.
Qed.

Lemma symbolPass_shape : forall lines,
  exists sy, forEach extractLine lines {| table := []; seenProps := [] |} = Some sy /\
             SymbolShape lines (length lines) sy.
Proof.
  intros lines.
  apply (forEach_run jsstring SymbolState (fun k st => SymbolShape lines k st)).
  - intros k x st Hx Hok. apply extractLine_shape; assumption.
  - split; [constructor|]. intros p q a b _ Ha. destruct p; discriminate.
Qed.

(** X12: where the symbols point.  Every symbol of the table that
    [analyze()] builds sits on a line of the document that is neither a
    comment line nor blank; its name is not empty; its column is never -1;
    and at that column the raw line spells the name.  Along the table the
    line numbers never go down. *)
Theorem symbols_point_at_names : forall text uri opts,
  exists ds this',
    analyze (new_DocumentAnalyzer text uri opts) = Some (ds, this') /\
    Forall (SymbolAt (lines this') (length (lines this'))) (symbols this') /\
    LinesAscend (symbols this').
Proof.
  intros text uri opts.
  destruct (analyze_exact (new_DocumentAnalyzer text uri opts)) as [st [sy [_ [E2 Ha]]]].
  destruct (symbolPass_shape (lines (new_DocumentAnalyzer text uri opts)))
    as [sy' [E2' [HF HA]]].
  rewrite E2 in E2'. inversion E2'; subst sy'.
  eexists. eexists. split; [exact Ha|]. split; assumption.
Qed.

(* ================================================================== *)
(** ** The order of the diagnostics *)
(* ================================================================== *)

Lemma Ascending_app : forall (A : Type) (key : A -> Z) (t u : list A),
  Ascending key t -> Ascending key u ->
  (forall a b, In a t -> In b u -> (key a <= key b)%Z) ->
  Ascending key (t ++ u).
Proof.
  intros A key t u Ht Hu Htu p q a b Hpq Ha Hb.
  destruct (Nat.lt_ge_cases q (length t)) as [Hq|Hq].
  - rewrite nth_error_app1 in Ha by lia. rewrite nth_error_app1 in Hb by lia.
    apply (Ht p q a b Hpq Ha Hb).
  - rewrite nth_error_app2 in Hb by lia.
    destruct (Nat.lt_ge_cases p (length t)) as [Hp|Hp].
    + rewrite nth_error_app1 in Ha by lia.
      apply Htu; [apply (nth_error_In _ _ Ha) | apply (nth_error_In _ _ Hb)].
    + rewrite nth_error_app2 in Ha by lia.
      apply (Hu (p - length t) (q - length t) a b); [lia | assumption | assumption].
Qed.

Lemma Ascending_const : forall (A : Type) (key : A -> Z) (t : list A) n,
  (forall a, In a t -> key a = n) -> Ascending key t.
Proof.
  intros A key t n H p q a b _ Ha Hb.
  rewrite (H a (nth_error_In _ _ Ha)), (H b (nth_error_In _ _ Hb)). lia.
Qed.

Lemma lineReports_line : forall options lines i l st d,
  nth_error lines i = Some l -> In d (lineReports options i l st) ->
  lineOf d = Z.of_nat i.
Proof.
  intros options lines i l st d Hl Hd.
  pose proof (lineReports_shape options lines i l st Hl) as HF.
  rewrite Forall_forall in HF. destruct (HF d Hd) as [j [x [k [Hj [_ H]]]]].
  unfold lineOf. rewrite (SyntaxDiag_line _ _ _ _ _ H). f_equal. lia.
Qed.

Lemma syntaxRun_ascend : forall options lines l i st st',
  (forall j x, nth_error l j = Some x -> nth_error lines (i + j) = Some x) ->
  forEachFrom (checkLine options) l i st = Some st' ->
  DiagsAscend (emitted st) ->
  (forall d, In d (emitted st) -> (lineOf d < Z.of_nat i)%Z) ->
  DiagsAscend (emitted st') /\
  (forall d, In d (emitted st') -> (lineOf d < Z.of_nat (i + length l))%Z).
Proof.
  intros options lines. induction l as [|x l IH]; intros i st st' Hseg E HA Hlt.
  - simpl in E. inversion E; subst st'. rewrite Nat.add_0_r. auto.
  - simpl in E.
    assert (Hx : nth_error lines i = Some x).
    { specialize (Hseg 0 x eq_refl). rewrite Nat.add_0_r in Hseg. assumption. }
    destruct (checkLine_exact options x i st) as [s2 [sB [s1 [_ [_ [E1 [_ [_ He1]]]]]]]].
    rewrite E1 in E.
    replace (i + length (x :: l)) with (S i + length l) by (simpl; lia).
    apply (IH (S i) s1 st'); [| exact E | |].
    + intros j y Hj. replace (S i + j) with (i + S j) by lia. apply Hseg. assumption.
    + rewrite He1. apply Ascending_app; [assumption | |].
      * apply (Ascending_const _ _ _ (Z.of_nat i)). intros d Hd.
        apply (lineReports_line options lines i x st d Hx Hd).
      * intros a b Ha Hb. specialize (Hlt a Ha).
        rewrite (lineReports_line options lines i x st b Hx Hb). lia.
    + intros d Hd. rewrite He1 in Hd. apply in_app_or in Hd. destruct Hd as [Hd|Hd].
      * specialize (Hlt d Hd). lia.
      * rewrite (lineReports_line options lines i x st d Hx Hd). lia.
Qed.

Lemma undefinedReports_line : forall dv i l d,
  In d (undefinedReports dv i l) -> lineOf d = Z.of_nat i.
Proof.
  intros dv i l d H. unfold undefinedReports in H.
  destruct (skipped (trim l)); [contradiction|].
  apply in_flat_map in H. destruct H as [mr [_ H]]. apply identReport_In in H.
  destruct H as [v [_ [_ [_ [_ [_ [_ [_ Hd]]]]]]]]. subst d. reflexivity.
Qed.

Lemma undefinedReportsFrom_ascend : forall dv l i,
  DiagsAscend (undefinedReportsFrom dv l i) /\
  (forall d, In d (undefinedReportsFrom dv l i) -> (Z.of_nat i <= lineOf d)%Z).
Proof.
  intros dv. induction l as [|x l IH]; intro i; simpl.
  - split; [|intros d []]. intros p q a b _ Ha. destruct p; discriminate.
  - destruct (IH (S i)) as [HA Hge]. split.
    + apply Ascending_app; [|assumption|].
      * apply (Ascending_const _ _ _ (Z.of_nat i)). intros d Hd.
        apply (undefinedReports_line dv i x d Hd).
      * intros a b Ha Hb. rewrite (undefinedReports_line dv i x a Ha).
        specialize (Hge b Hb). lia.
    + intros d Hd. apply in_app_or in Hd. destruct Hd as [Hd|Hd].
      * rewrite (undefinedReports_line dv i x d Hd). lia.
      * specialize (Hge d Hd). lia.
Qed.

Lemma unclosedReport_length : forall lines stack, length (unclosedReport lines stack) <= 1.
Proof.
  intros lines stack. unfold unclosedReport.
  destruct (top stack) as [b|]; [|simpl; lia].
  destruct (nth_error lines (Block.line b)); simpl; lia.
Qed.

(** X13: the order of the returned diagnostics.  The list that
    [analyze()] returns is three runs one after the other: the diagnostics
    of the line-by-line syntax pass, none of them a Warning, their lines
    never going down; then at most one Error for a block left open; then
    the Warnings of the semantic pass, their lines never going down.  So a
    Warning for line 0 comes after a syntax Error for the last line. *)
Theorem diagnostics_in_three_runs : forall text uri opts,
  exists ds this' syn unc sem,
    analyze (new_DocumentAnalyzer text uri opts) = Some (ds, this') /\
    ds = syn ++ unc ++ sem /\
    DiagsAscend syn /\ Forall (fun d => severity d <> Warning) syn /\
    length unc <= 1 /\ Forall (fun d => severity d = Error) unc /\
    DiagsAscend sem /\ Forall (fun d => severity d = Warning) sem.
Proof.
  intros text uri opts.
  destruct (analyze_exact (new_DocumentAnalyzer text uri opts)) as [st [sy [E1 [_ Ha]]]].
  eexists. eexists. eexists. eexists. eexists.
  split; [exact Ha|]. split; [reflexivity|].
  split; [|split; [|split; [|split; [|split]]]].
  - apply (syntaxRun_ascend _ (lines (new_DocumentAnalyzer text uri opts)) _ 0 _ st
             (fun j x H => H) E1).
    + intros p q a b _ Hp. destruct p; discriminate.
    + intros d [].
  - apply Forall_forall. intros d Hd. apply (syntaxPass_not_warning _ _ st d E1 Hd).
  - apply unclosedReport_length.
  - apply Forall_forall. intros d Hd. apply (unclosedReport_error _ _ d Hd).
  - apply undefinedReportsFrom_ascend.
  - apply Forall_forall. intros d Hd. apply (undefinedReportsFrom_warning _ _ _ d Hd).
Qed.

(* ================================================================== *)
(** ** The diagnostics of [checkSyntax], line by line *)
(* ================================================================== *)

Lemma SyntaxDiagIn_line : forall options lines lo hi d,
  SyntaxDiagIn options lines lo hi d -> (Z.of_nat lo <= lineOf d < Z.of_nat hi)%Z.
Proof.
  intros options lines lo hi d [j [l [k [Hj [_ H]]]]].
  unfold lineOf. rewrite (SyntaxDiag_line _ _ _ _ _ H). lia.
Qed.

(** A diagnostic of the first loop of [checkSyntax] is one of the reports
    of a line, made in the state that the lines before it lead to. *)
Lemma emitted_iff : forall options lines stN d,
  forEach (checkLine options) lines (initialSyntaxState []) = Some stN ->
  (In d (emitted stN) <->
   exists j x stA,
     nth_error lines j = Some x /\ syntaxStateAt options lines j = Some stA /\
     In d (lineReports options j x stA)).
Proof.
  intros options lines stN d E. split.
  - intro Hd.
    destruct (syntaxPass_run options lines []) as [st' [E' [_ [[D [HD HF]] _]]]].
    rewrite E in E'. inversion E'; subst st'. simpl in HD.
    rewrite Forall_forall in HF. rewrite HD in Hd.
    destruct (HF d Hd) as [j [x [k [_ [Hx Hk]]]]].
    destruct (syntaxSplitExact options lines j x Hx)
      as [stA [stL [stN' [Dpre [Dpost [EA [_ [_ [_ [EN [He [Hpre Hpost]]]]]]]]]]]].
    rewrite E in EN. inversion EN; subst stN'.
    exists j, x, stA. split; [assumption|]. split; [assumption|].
    rewrite <- HD, He in Hd.
    assert (Hline : lineOf d = Z.of_nat j)
      by (unfold lineOf; apply (SyntaxDiag_line _ _ _ _ _ Hk)).
    apply in_app_or in Hd. destruct Hd as [Hd|Hd].
    + rewrite Forall_forall in Hpre. apply Hpre in Hd.
      apply SyntaxDiagIn_line in Hd. lia.
    + apply in_app_or in Hd. destruct Hd as [Hd|Hd]; [assumption|].
      rewrite Forall_forall in Hpost. apply Hpost in Hd.
      apply SyntaxDiagIn_line in Hd. lia.
  - intros [j [x [stA [Hx [EA Hd]]]]].
    destruct (syntaxSplitExact options lines j x Hx)
      as [stA' [stL [stN' [Dpre [Dpost [EA' [_ [_ [_ [EN [He _]]]]]]]]]]].
    rewrite E in EN. inversion EN; subst stN'.
    rewrite EA in EA'. inversion EA'; subst stA'.
    rewrite He. apply in_or_app. right. apply in_or_app. left. assumption.
Qed.

(** The reports of a line, by the check that makes them. *)
Lemma lineReports_In : forall options i l st d,
  In d (lineReports options i l st) <->
  exists st2 stB,
    atEndCheck i l st = Some st2 /\ atLoopCheck i l st = Some stB /\
    (In d (stringReport i l) \/ In d (endReport i l st2) \/
     In d (loopReport i l stB) \/ In d (typeReport i l) \/
     In d (hostReports options i l)).
Proof.
  intros options i l st d. unfold lineReports.
  destruct (checkLine_exact options l i st) as [st2 [stB [st' [E2 [EB _]]]]].
  rewrite E2, EB. split.
  - intro H. exists st2, stB. split; [reflexivity|]. split; [reflexivity|].
    repeat (apply in_app_or in H; destruct H as [H|H]; [tauto|]). tauto.
  - intros [s2 [sB [H2 [HB H]]]]. inversion H2; subst s2. inversion HB; subst sB.
    repeat rewrite in_app_iff. tauto.
Qed.

Lemma stringReport_message : forall i l d,
  In d (stringReport i l) -> message d = msgUnclosedString.
Proof.
  intros i l d H. unfold stringReport in H.
  destruct (skipped (trim l)); [contradiction|].
  destruct (negb (length (matchAll l reQuote) mod 2 =? 0)); [|contradiction].
  destruct H as [H|[]]. subst d. reflexivity.
Qed.

Lemma loopReport_message : forall i l st d,
  In d (loopReport i l st) -> exists kw, message d = msgLoopControl kw.
Proof.
  intros i l st d H. unfold loopReport in H. cbv zeta in H.
  destruct (skipped (trim l)); [contradiction|].
  destruct (test (withoutStrings (trim l)) reBreakContinue && (inLoop st =? 0)%Z);
    [|contradiction].
  destruct H as [H|[]]. subst d. eexists. reflexivity.
Qed.

Lemma typeReport_In : forall i l d,
  In d (typeReport i l) <->
  exists mt ty,
    skipped (trim l) = false /\ test (trim l) reVarStart = true /\
    exec (trim l) reTypeAnnot = Some mt /\ group1 (trim l) mt = Some ty /\
    includes typeKeywords ty = false /\
    d = newDiagnostic (Z.of_nat i) (indexOf ty l) (Z.of_nat i)
          (indexOf ty l + Z.of_nat (length ty)) (msgUnknownType ty) Error.
Proof.
  intros i l d. unfold typeReport. cbv zeta. split.
  - intro H. destruct (skipped (trim l)); [contradiction|].
    destruct (test (trim l) reVarStart); [|contradiction].
    destruct (exec (trim l) reTypeAnnot) as [mt|]; [|contradiction].
    destruct (group1 (trim l) mt) as [ty|] eqn:Hg; [|contradiction].
    destruct (includes typeKeywords ty) eqn:Ht; [contradiction|].
    destruct H as [H|[]]. exists mt, ty. repeat split; auto.
  - intros [mt [ty [H1 [H2 [H3 [H4 [H5 H6]]]]]]].
    rewrite H1, H2, H3, H4, H5. left. symmetry. assumption.
Qed.

Lemma hostReports_message : forall options i l d,
  In d (hostReports options i l) -> exists f, message d = msgHostFunction f.
Proof.
  intros options i l d H.
  pose proof (hostReports_shape options i l) as HF. rewrite Forall_forall in HF.
  specialize (HF d H). inversion HF; subst. eexists. reflexivity.
Qed.

Lemma top_None : forall (A : Type) (l : list A), top l = None <-> l = [].
Proof.
  intros A l. split.
  - destruct l as [|a l] using rev_ind; [reflexivity|]. rewrite top_app. discriminate.
  - intro H. subst l. reflexivity.
Qed.

Lemma endReport_In : forall i l st d,
  In d (endReport i l st) <->
  skipped (trim l) = false /\ test (withoutStrings (trim l)) reEnd = true /\
  blockStack st = [] /\ d = unexpectedEndAt i l.
Proof.
  intros i l st d. unfold endReport, unexpectedEndAt. cbv zeta. split.
  - intro H. destruct (skipped (trim l)); [contradiction|].
    destruct (test (withoutStrings (trim l)) reEnd); [|contradiction].
    destruct (top (blockStack st)) eqn:Et; [contradiction|].
    apply top_None in Et. destruct H as [H|[]]. auto.
  - intros [H1 [H2 [H3 H4]]]. rewrite H1, H2, H3. simpl. left. symmetry. assumption.
Qed.

(** The locals when a line reaches the check of [end]. *)
Lemma atEndCheck_stack : forall i l st,
  skipped (trim l) = false ->
  exists st2, atEndCheck i l st = Some st2 /\
    ((opensBlock l = false /\ blockStack st2 = blockStack st /\ inLoop st2 = inLoop st) \/
     (opensBlock l = true /\ exists ty,
        blockStack st2 = blockStack st ++ [Block.mk ty i] /\
        inLoop st2 = if isLoop ty then (inLoop st + 1)%Z else inLoop st)).
Proof.
  intros i l st Hsk. unfold atEndCheck, opensBlock. cbv zeta. rewrite Hsk.
  destruct (checkUnclosedString_run i l Hsk st) as [Hs [Hi _]].
  unfold checkBlockStart. cbv zeta.
  destruct (negb (test (trim l) reElseif) && test (withoutStrings (trim l)) reBlockOpen)
    eqn:Ec.
  - apply andb_true_iff in Ec. destruct Ec as [_ Ec]. unfold test in Ec.
    destruct (exec (withoutStrings (trim l)) reBlockOpen) as [mt|] eqn:E; [|discriminate].
    unfold exec in E. apply execFrom_sound in E. destruct E as [_ HM].
    destruct (IsMatch_group1 _ reBlockOpen mt eq_refl HM) as [a [b [_ [_ Hg]]]].
    rewrite Hg. eexists. split; [reflexivity|]. right. split; [reflexivity|].
    eexists. simpl. rewrite Hs, Hi. split; reflexivity.
  - exists (checkUnclosedString i l st). split; [reflexivity|]. left. auto.
Qed.

Lemma returned_iff : forall this ds this' d,
  analyze this = Some (ds, this') ->
  (In d ds <->
   (exists j x stA,
      nth_error (lines this) j = Some x /\
      syntaxStateAt (options this) (lines this) j = Some stA /\
      In d (lineReports (options this) j x stA)) \/
   (exists st, forEach (checkLine (options this)) (lines this) (initialSyntaxState []) =
                 Some st /\ In d (unclosedReport (lines this) (blockStack st))) \/
   (In d ds /\ severity d = Warning)).
Proof.
  intros this ds this' d Ha.
  destruct (analyze_exact this) as [st [sy [E1 [E2 Hb]]]].
  rewrite Ha in Hb. injection Hb as Hds Hthis. split.
  - intro Hd. pose proof Hd as Hd'. rewrite Hds in Hd.
    apply in_app_or in Hd. destruct Hd as [Hd|Hd].
    + left. apply (emitted_iff _ _ st d E1). assumption.
    + apply in_app_or in Hd. destruct Hd as [Hd|Hd].
      * right. left. exists st. auto.
      * right. right. split; [assumption|].
        apply (undefinedReportsFrom_warning _ _ _ d Hd).
  - intros [H|[[st' [E' H]]|[H _]]]; [| |assumption].
    + rewrite Hds. apply in_or_app. left. apply (emitted_iff _ _ st d E1). assumption.
    + rewrite E1 in E'. inversion E'; subst st'.
      rewrite Hds. apply in_or_app. right. apply in_or_app. left. assumption.
Qed.

Lemma unclosedReport_msg : forall lines stack d,
  In d (unclosedReport lines stack) -> exists ty, message d = msgUnclosedBlock ty.
Proof.
  intros lines stack d H. unfold unclosedReport in H.
  destruct (top stack) as [b|]; [|contradiction].
  destruct (nth_error lines (Block.line b)); [|contradiction].
  destruct H as [H|[]]. subst d. eexists. reflexivity.
Qed.

(** A returned diagnostic that says Unexpected end is the report of the
    [end] check for some line. *)
Lemma unexpectedEnd_source : forall this ds this' d,
  analyze this = Some (ds, this') -> In d ds -> message d = msgUnexpectedEnd ->
  exists j x stA st2,
    nth_error (lines this) j = Some x /\
    syntaxStateAt (options this) (lines this) j = Some stA /\
    atEndCheck j x stA = Some st2 /\ In d (endReport j x st2).
Proof.
  intros this ds this' d Ha Hd Hmsg.
  apply (returned_iff this ds this' d Ha) in Hd.
  destruct Hd as [[j [x [stA [Hx [EA Hd]]]]]|[[st [_ Hd]]|Hsev]].
  - apply lineReports_In in Hd. destruct Hd as [st2 [stB [E2 [EB Hd]]]].
    exists j, x, stA, st2. repeat (split; [assumption|]).
    destruct Hd as [Hd|[Hd|[Hd|[Hd|Hd]]]].
    + apply stringReport_message in Hd. rewrite Hd in Hmsg. cbn in Hmsg. discriminate.
    + assumption.
    + apply loopReport_message in Hd. destruct Hd as [kw Hd].
      rewrite Hd in Hmsg. cbn in Hmsg. discriminate.
    + apply typeReport_In in Hd. destruct Hd as [mt [ty [_ [_ [_ [_ [_ Hd]]]]]]].
      subst d. cbn in Hmsg. discriminate.
    + apply hostReports_message in Hd. destruct Hd as [f Hd].
      rewrite Hd in Hmsg. cbn in Hmsg. discriminate.
  - apply unclosedReport_msg in Hd. destruct Hd as [ty Hd].
    rewrite Hd in Hmsg. cbn in Hmsg. discriminate.
  - destruct (proj1 (warnings_exact _ _ _ Ha d) Hsev)
      as [j [x [mr [v [_ [_ [_ [_ [_ [_ [_ [_ [_ [_ Hdd]]]]]]]]]]]]]].
    subst d. cbn in Hmsg. discriminate.
Qed.

(** X14: the Error for an [end] with nothing to close.  Line [i] of the
    document gets this Error exactly when it is neither blank nor a comment
    line, its stripped copy holds [end] as a word, no block is open after
    the lines before it, and the line opens no block itself (an [if] and its
    [end] on one line cancel).  Every returned diagnostic with this message
    is such an Error, from column 0 to the length of the trimmed line. *)
Theorem unexpected_end_errors : forall text uri opts i l,
  nth_error (lines (new_DocumentAnalyzer text uri opts)) i = Some l ->
  exists ds this' stA,
    analyze (new_DocumentAnalyzer text uri opts) = Some (ds, this') /\
    syntaxStateAt opts (lines this') i = Some stA /\
    (In (unexpectedEndAt i l) ds <->
     skipped (trim l) = false /\ test (withoutStrings (trim l)) reEnd = true /\
     blockStack stA = [] /\ opensBlock l = false) /\
    (forall d, In d ds -> message d = msgUnexpectedEnd ->
       exists j x, nth_error (lines this') j = Some x /\ d = unexpectedEndAt j x).
Proof.
  intros text uri opts i l Hl.
  set (this := new_DocumentAnalyzer text uri opts) in *.
  destruct (analyze_exact this) as [st [sy [E1 [_ Ha]]]].
  destruct (syntaxSplitExact opts (lines this) i l Hl)
    as [stA [_ [_ [_ [_ [EA _]]]]]].
  eexists. eexists. exists stA. split; [exact Ha|]. split; [exact EA|]. split.
  - split.
    + intro Hd.
      destruct (unexpectedEnd_source this _ _ _ Ha Hd eq_refl)
        as [j [x [sA [s2 [Hx [EA' [E2 Hin]]]]]]].
      apply endReport_In in Hin. destruct Hin as [Hsk [Hend [Hst Heq]]].
      assert (Hj : j = i).
      { apply (f_equal lineOf) in Heq. unfold lineOf, unexpectedEndAt in Heq.
        simpl in Heq. lia. }
      subst j. rewrite Hl in Hx. inversion Hx; subst x.
      change (options this) with opts in EA'. rewrite EA in EA'. inversion EA'; subst sA.
      destruct (atEndCheck_stack i l stA Hsk) as [s2' [E2' Hcase]].
      rewrite E2 in E2'. inversion E2'; subst s2'.
      destruct Hcase as [[Ho [Hs _]]|[_ [ty [Hs _]]]].
      * repeat split; try assumption. congruence.
      * rewrite Hs in Hst. destruct (blockStack stA); discriminate.
    + intros [Hsk [Hend [Hst Ho]]].
      apply (returned_iff this _ _ _ Ha). left. exists i, l, stA.
      split; [assumption|]. split; [assumption|].
      apply lineReports_In.
      destruct (checkLine_exact opts l i stA) as [s2 [sB [s' [E2 [EB _]]]]].
      exists s2, sB. split; [assumption|]. split; [assumption|]. right. left.
      apply endReport_In. repeat split; try assumption.
      destruct (atEndCheck_stack i l stA Hsk) as [s2' [E2' Hcase]].
      rewrite E2 in E2'. inversion E2'; subst s2'.
      destruct Hcase as [[_ [Hs _]]|[Ho' _]]; congruence.
  - intros d Hd Hmsg.
    destruct (unexpectedEnd_source this _ _ _ Ha Hd Hmsg)
      as [j [x [sA [s2 [Hx [_ [_ Hin]]]]]]].
    apply endReport_In in Hin. destruct Hin as [_ [_ [_ Heq]]].
    exists j, x. split; assumption.
Qed.

Lemma unexpected_end_errors_witness :
  nth_error (lines (new_DocumentAnalyzer docStrayEnd exampleUri defaultOptions)) 0 =
    Some (js "end") /\
  exists ds this' stA,
    analyze (new_DocumentAnalyzer docStrayEnd exampleUri defaultOptions) =
      Some (ds, this') /\
    syntaxStateAt defaultOptions (lines this') 0 = Some stA /\
    (In (unexpectedEndAt 0 (js "end")) ds <->
     skipped (trim (js "end")) = false /\
     test (withoutStrings (trim (js "end"))) reEnd = true /\
     blockStack stA = [] /\ opensBlock (js "end") = false) /\
    (forall d, In d ds -> message d = msgUnexpectedEnd ->
       exists j x, nth_error (lines this') j = Some x /\ d = unexpectedEndAt j x).
Proof.
  assert (H : nth_error (lines (new_DocumentAnalyzer docStrayEnd exampleUri
                                  defaultOptions)) 0 = Some (js "end"))
    by (vm_compute; reflexivity).
  split; [exact H|].
  apply (unexpected_end_errors docStrayEnd exampleUri defaultOptions 0 (js "end") H).
Defined.

(* ================================================================== *)
(** ** Unknown types *)
(* ================================================================== *)

Lemma msgUnknownType_inj : forall t u, msgUnknownType t = msgUnknownType u -> t = u.
Proof.
  intros t u H. unfold msgUnknownType in H.
  apply app_inv_head in H. apply app_inv_head in H. apply app_inv_tail in H. assumption.
Qed.

(** A returned diagnostic that says Unknown type is the report of the
    annotation check for some line. *)
Lemma unknownType_source : forall this ds this' d ty,
  analyze this = Some (ds, this') -> In d ds -> message d = msgUnknownType ty ->
  exists j x, nth_error (lines this) j = Some x /\ In d (typeReport j x).
Proof.
  intros this ds this' d ty Ha Hd Hmsg.
  apply (returned_iff this ds this' d Ha) in Hd.
  destruct Hd as [[j [x [stA [Hx [EA Hd]]]]]|[[st [_ Hd]]|Hsev]].
  - apply lineReports_In in Hd. destruct Hd as [st2 [stB [E2 [EB Hd]]]].
    exists j, x. split; [assumption|].
    destruct Hd as [Hd|[Hd|[Hd|[Hd|Hd]]]].
    + apply stringReport_message in Hd. rewrite Hd in Hmsg. cbn in Hmsg. discriminate.
    + apply endReport_In in Hd. destruct Hd as [_ [_ [_ Hd]]]. subst d.
      cbn in Hmsg. discriminate.
    + apply loopReport_message in Hd. destruct Hd as [kw Hd].
      rewrite Hd in Hmsg. cbn in Hmsg. discriminate.
    + assumption.
    + apply hostReports_message in Hd. destruct Hd as [f Hd].
      rewrite Hd in Hmsg. cbn in Hmsg. discriminate.
  - apply unclosedReport_msg in Hd. destruct Hd as [t Hd].
    rewrite Hd in Hmsg. cbn in Hmsg. discriminate.
  - destruct (proj1 (warnings_exact _ _ _ Ha d) Hsev)
      as [j [x [mr [v [_ [_ [_ [_ [_ [_ [_ [_ [_ [_ Hdd]]]]]]]]]]]]]].
    subst d. cbn in Hmsg. discriminate.
Qed.

(** X15: the Errors for unknown types.  A returned diagnostic says
    Unknown type of [ty] exactly when some line, neither blank nor a comment
    line, starts with [var] after optional white space, its trimmed text
    matches the annotation pattern from its first character, the annotated
    type is [ty], and [ty] is none of the five type names.  The Error
    starts at the first place where the raw line spells [ty], which can be
    before the annotation, and covers the length of [ty]. *)
Theorem unknown_type_errors : forall text uri opts,
  exists ds this',
    analyze (new_DocumentAnalyzer text uri opts) = Some (ds, this') /\
    forall d ty,
      In d ds /\ message d = msgUnknownType ty <->
      exists j x mt col,
        nth_error (lines this') j = Some x /\
        skipped (trim x) = false /\ test (trim x) reVarStart = true /\
        exec (trim x) reTypeAnnot = Some mt /\ group1 (trim x) mt = Some ty /\
        includes typeKeywords ty = false /\
        indexOf ty x = Z.of_nat col /\ substring x col (col + length ty) = ty /\
        d = newDiagnostic (Z.of_nat j) (Z.of_nat col) (Z.of_nat j)
              (Z.of_nat (col + length ty)) (msgUnknownType ty) Error.
Proof.
  intros text uri opts.
  set (this := new_DocumentAnalyzer text uri opts).
  destruct (analyze_exact this) as [st [sy [E1 [_ Ha]]]].
  eexists. eexists. split; [exact Ha|]. intros d ty. split.
  - intros [Hd Hmsg].
    destruct (unknownType_source this _ _ d ty Ha Hd Hmsg) as [j [x [Hx Hin]]].
    apply typeReport_In in Hin.
    destruct Hin as [mt [ty' [Hsk [Hv [He [Hg [Hty Hdd]]]]]]].
    assert (ty' = ty).
    { subst d. cbn [message newDiagnostic] in Hmsg. apply msgUnknownType_inj. assumption. }
    subst ty'.
    pose proof He as He'. unfold exec in He'. apply execFrom_sound in He'.
    destruct He' as [_ HM].
    destruct (group1_in_line x reTypeAnnot mt ty 0 eq_refl) as [_ [col [Hcol Hsp]]];
      [simpl; lia | assumption | assumption | lia |].
    exists j, x, mt, col. repeat (split; [assumption|]).
    rewrite Hdd. unfold indexOf. rewrite Hcol. rewrite Nat2Z.inj_add. reflexivity.
  - intros [j [x [mt [col [Hx [Hsk [Hv [He [Hg [Hty [Hcol [Hsp Hdd]]]]]]]]]]]].
    split; [|subst d; reflexivity].
    apply (returned_iff this _ _ d Ha). left.
    destruct (syntaxSplitExact opts (lines this) j x Hx) as [stA [_ [_ [_ [_ [EA _]]]]]].
    exists j, x, stA. split; [assumption|]. split; [assumption|].
    apply lineReports_In.
    destruct (checkLine_exact opts x j stA) as [s2 [sB [s' [E2 [EB _]]]]].
    exists s2, sB. split; [assumption|]. split; [assumption|]. right. right. right. left.
    apply typeReport_In. exists mt, ty. repeat (split; [assumption|]).
    rewrite Hdd, Hcol, Nat2Z.inj_add. reflexivity.
Qed.

(* ================================================================== *)
(** ** The block stack *)
(* ================================================================== *)

Lemma checkLine_stack : forall options l i st st',
  checkLine options l i st = Some st' ->
  blockStack st' = stackAfter i l (blockStack st).
Proof.
  intros options l i st st' E.
  destruct (checkLine_exact options l i st) as [s2 [sB [s' [E2 [EB [E' [Hs _]]]]]]].
  rewrite E in E'. inversion E'; subst s'. rewrite Hs. clear E E' Hs.
  unfold stackAfter. unfold atLoopCheck in EB. cbv zeta in EB.
  destruct (skipped (trim l)) eqn:Hsk; [inversion EB; reflexivity|].
  destruct (checkUnclosedString_run i l Hsk st) as [Hs1 _].
  unfold checkBlockStart in EB. cbv zeta in EB. unfold opensBlock, blockKeyword.
  assert (Hend : forall s, blockStack (checkBlockEnd i (trim l) (withoutStrings (trim l)) s) =
                           if test (withoutStrings (trim l)) reEnd
                           then removelast (blockStack s) else blockStack s).
  { intro s. unfold checkBlockEnd.
    destruct (test (withoutStrings (trim l)) reEnd); [|reflexivity].
    destruct (top (blockStack s)) eqn:Et; [reflexivity|].
    apply top_None in Et. simpl. rewrite Et. reflexivity. }
  destruct (negb (test (trim l) reElseif) && test (withoutStrings (trim l)) reBlockOpen).
  - destruct (exec (withoutStrings (trim l)) reBlockOpen) as [mt|].
    + destruct (group1 (withoutStrings (trim l)) mt) as [ty|]; [|discriminate].
      inversion EB; subst sB. rewrite Hend. simpl. rewrite Hs1. reflexivity.
    + inversion EB; subst sB. rewrite Hend, Hs1. reflexivity.
  - inversion EB; subst sB. rewrite Hend, Hs1. reflexivity.
Qed.

Lemma In_firstn : forall (A : Type) (n : nat) (l : list A) x, In x (firstn n l) -> In x l.
Proof.
  intros A n l x H. rewrite <- (firstn_skipn n l). apply in_or_app. left. assumption.
Qed.

Lemma nth_error_firstn_Some : forall (A : Type) (n : nat) (l : list A) p x,
  nth_error (firstn n l) p = Some x -> nth_error l p = Some x.
Proof.
  intros A n l p x H. rewrite nth_error_firstn in H.
  destruct (p <? n); [assumption | discriminate].
Qed.

Lemma stackAfter_ok : forall i l stack,
  Forall (fun b => Block.line b < i) stack -> StackAscends stack ->
  Forall (fun b => Block.line b < S i) (stackAfter i l stack) /\
  StackAscends (stackAfter i l stack).
Proof.
  intros i l stack HF HA.
  assert (Hweak : Forall (fun b => Block.line b < S i) stack).
  { eapply Forall_impl; [|exact HF]. simpl. intros b Hb. lia. }
  assert (Hpush : forall ty,
            Forall (fun b => Block.line b < S i) (stack ++ [Block.mk ty i]) /\
            StackAscends (stack ++ [Block.mk ty i])).
  { intro ty. split.
    - apply Forall_app. split; [assumption|]. constructor; [simpl; lia | constructor].
    - intros p q a b Hpq Ha Hb.
      destruct (Nat.lt_ge_cases q (length stack)) as [Hq|Hq].
      + rewrite nth_error_app1 in Ha by lia. rewrite nth_error_app1 in Hb by lia.
        apply (HA p q a b Hpq Ha Hb).
      + rewrite nth_error_app2 in Hb by lia.
        destruct (q - length stack) as [|n] eqn:En; [|destruct n; discriminate].
        simpl in Hb. inversion Hb; subst b. simpl.
        rewrite nth_error_app1 in Ha by lia.
        rewrite Forall_forall in HF. apply (HF a). apply (nth_error_In _ _ Ha). }
  assert (Hpop : forall s,
            Forall (fun b => Block.line b < S i) s /\ StackAscends s ->
            Forall (fun b => Block.line b < S i) (removelast s) /\
            StackAscends (removelast s)).
  { intros s [H1 H2]. rewrite removelast_firstn_len. split.
    - apply Forall_forall. intros x Hx. rewrite Forall_forall in H1.
      apply H1. apply (In_firstn _ _ _ _ Hx).
    - intros p q a b Hpq Ha Hb. apply nth_error_firstn_Some in Ha.
      apply nth_error_firstn_Some in Hb. apply (H2 p q a b Hpq Ha Hb). }
  unfold stackAfter. destruct (skipped (trim l)); [auto|]. cbv zeta.
  destruct (opensBlock l); [destruct (blockKeyword l) as [ty|]|];
    destruct (test (withoutStrings (trim l)) reEnd); auto.
Qed.

Lemma stackRun : forall options l i st st',
  forEachFrom (checkLine options) l i st = Some st' ->
  Forall (fun b => Block.line b < i) (blockStack st) -> StackAscends (blockStack st) ->
  Forall (fun b => Block.line b < i + length l) (blockStack st') /\
  StackAscends (blockStack st').
Proof.
  intros options. induction l as [|x l IH]; intros i st st' E HF HA; simpl in E.
  - inversion E; subst st'. rewrite Nat.add_0_r. auto.
  - destruct (checkLine options x i st) as [s1|] eqn:E1; [|discriminate].
    replace (i + length (x :: l)) with (S i + length l) by (simpl; lia).
    destruct (stackAfter_ok i x (blockStack st) HF HA) as [HF1 HA1].
    rewrite <- (checkLine_stack options x i st s1 E1) in HF1, HA1.
    apply (IH (S i) s1 st' E HF1 HA1).
Qed.

(** X16: what [checkSyntax] keeps true of its locals.  After any number
    of lines the pass has not faulted; the counter [inLoop] is the number of
    [while] and [foreach] entries on the block stack, so it is never
    negative; every entry of the stack was pushed for an earlier line that
    is not skipped, does not start with [elseif], and whose first block
    keyword is the entry's type; and the lines of the entries go up
    strictly from the bottom of the stack to its top. *)
Theorem block_stack_invariant : forall text uri opts i,
  exists st,
    syntaxStateAt opts (lines (new_DocumentAnalyzer text uri opts)) i = Some st /\
    inLoop st = Z.of_nat (loopEntries (blockStack st)) /\
    Forall (fun b => Block.line b < i /\
                     OpenedAt (lines (new_DocumentAnalyzer text uri opts)) b)
      (blockStack st) /\
    StackAscends (blockStack st).
Proof.
  intros text uri opts i.
  set (ls := lines (new_DocumentAnalyzer text uri opts)).
  destruct (syntaxRun opts ls (firstn i ls) 0 (initialSyntaxState []))
    as [st [E [[HF Hin] _]]].
  - intros j x Hj. simpl. apply (nth_error_firstn_Some _ _ _ _ _ Hj).
  - apply StackOk_initial.
  - exists st. unfold syntaxStateAt. split; [exact E|]. split; [exact Hin|].
    assert (Hlen : length (firstn i ls) <= i) by (rewrite length_firstn; lia).
    split.
    + eapply Forall_impl; [|exact HF]. simpl. intros b [Hb Ho]. split; [lia | assumption].
    + apply (stackRun opts (firstn i ls) 0 (initialSyntaxState []) st E).
      * constructor.
      * intros p q a b _ Ha. destruct p; discriminate.
Qed.

(** X17: one line's effect on the block stack.  The stack after line
    [i] is a function of the stack before it and of the line alone: a line
    that is blank or a comment leaves it; otherwise an entry for the first
    block keyword of the stripped copy is pushed unless the line starts with
    [elseif], and then, when the copy holds [end] as a word, the top entry
    is removed.  Neither the option nor the diagnostics pushed so far play a
    part, and the depth changes by at most one. *)
Theorem block_stack_step : forall text uri opts i l,
  nth_error (lines (new_DocumentAnalyzer text uri opts)) i = Some l ->
  exists stA stL,
    syntaxStateAt opts (lines (new_DocumentAnalyzer text uri opts)) i = Some stA /\
    syntaxStateAt opts (lines (new_DocumentAnalyzer text uri opts)) (S i) = Some stL /\
    blockStack stL = stackAfter i l (blockStack stA) /\
    length (blockStack stA) - 1 <= length (blockStack stL) <= length (blockStack stA) + 1.
Proof.
  intros text uri opts i l Hl.
  destruct (syntaxSplitExact opts _ i l Hl) as [stA [stL [_ [_ [_ [EA [_ [EL [EC _]]]]]]]]].
  exists stA, stL. split; [exact EA|]. split; [exact EL|].
  pose proof (checkLine_stack opts l i stA stL EC) as Hs. split; [exact Hs|].
  rewrite Hs. unfold stackAfter. destruct (skipped (trim l)); [lia|]. cbv zeta.
  assert (Hrl : forall s : list Block.t, length (removelast s) = length s - 1).
  { intro s. rewrite removelast_firstn_len, length_firstn. lia. }
  destruct (opensBlock l); [destruct (blockKeyword l) as [ty|]|];
    destruct (test (withoutStrings (trim l)) reEnd);
    rewrite ?Hrl, ?length_app; simpl; lia.
Qed.

Lemma block_stack_step_witness :
  nth_error (lines (new_DocumentAnalyzer docBlocks exampleUri defaultOptions)) 1 =
    Some (js "  while b do") /\
  exists stA stL,
    syntaxStateAt defaultOptions
      (lines (new_DocumentAnalyzer docBlocks exampleUri defaultOptions)) 1 = Some stA /\
    syntaxStateAt defaultOptions
      (lines (new_DocumentAnalyzer docBlocks exampleUri defaultOptions)) 2 = Some stL /\
    blockStack stL = stackAfter 1 (js "  while b do") (blockStack stA) /\
    length (blockStack stA) - 1 <= length (blockStack stL) <= length (blockStack stA) + 1.
Proof.
  assert (H : nth_error (lines (new_DocumentAnalyzer docBlocks exampleUri defaultOptions)) 1
              = Some (js "  while b do")) by (vm_compute; reflexivity).
  split; [exact H|].
  apply (block_stack_step docBlocks exampleUri defaultOptions 1 (js "  while b do") H).
Defined.

(* ================================================================== *)
(** ** Where the notes for host functions point *)
(* ================================================================== *)

Lemma trimEnd_suffix : forall t, exists post, t = trimEnd t ++ post.
Proof.
  intro t. unfold trimEnd. destruct (trimStart_spaces (rev t)) as [post [H _]].
  exists (rev post). rewrite <- rev_app_distr, <- H, rev_involutive. reflexivity.
Qed.

Lemma substring_app_l : forall (t post : jsstring) a b,
  b <= length t -> substring (t ++ post) a b = substring t a b.
Proof.
  intros t post a b Hb. unfold substring. rewrite skipn_app, firstn_app.
  replace (b - a - length (skipn a t)) with 0 by (rewrite length_skipn; lia).
  simpl. apply app_nil_r.
Qed.

Lemma substring_app_r : forall (pre t : jsstring) a b,
  substring (pre ++ t) (length pre + a) (length pre + b) = substring t a b.
Proof.
  intros pre t a b. unfold substring. rewrite skipn_app.
  rewrite skipn_all2 by lia. simpl.
  replace (length pre + a - length pre) with a by lia.
  replace (length pre + b - (length pre + a)) with (b - a) by lia. reflexivity.
Qed.

(** What stands in the trimmed line stands in the raw line, further right
    by the leading white space. *)
Lemma substring_trim : forall l a b,
  b <= length (trim l) ->
  substring l (length l - length (trimStart l) + a) (length l - length (trimStart l) + b) =
    substring (trim l) a b.
Proof.
  intros l a b Hb. destruct (trimStart_spaces l) as [pre [Hpre _]].
  destruct (trimEnd_suffix (trimStart l)) as [post Hpost]. fold (trim l) in Hpost.
  assert (Hlen : length l - length (trimStart l) = length pre).
  { rewrite Hpre at 1. rewrite length_app. lia. }
  rewrite Hlen. rewrite Hpre at 1. rewrite substring_app_r.
  rewrite Hpost. apply substring_app_l. assumption.
Qed.

(** Capture 1 of the call pattern starts where the match starts. *)
Lemma reFuncCall_match : forall s mr,
  IsMatch s reFuncCall mr ->
  exists b, group1 s mr = Some (substring s (index mr) b) /\ index mr < b <= length s.
Proof.
  intros s mr [Hi HS]. unfold reFuncCall in HS. cbn [seqOf Span] in HS.
  destruct HS as [k1 [c1 [[_ [Hk1 Hc1]] [k2 [c2 [[c0 [Hin Hset]] Hrest]]]]]].
  subst k1 c1.
  assert (Hb : index mr + 1 <= k2 /\ k2 <= length s)
    by (apply (Span_bounds s (Seq (Chr isUpper) (Star (Chr isAlnum))) _ _ _ _ Hi Hin)).
  destruct Hrest as [k3 [c3 [Hws [ch [_ [_ [_ Hc]]]]]]].
  apply iter_chr_caps in Hws. subst c3.
  exists k2. split; [|lia]. unfold group1. rewrite Hc, Hset. reflexivity.
Qed.

Lemma In_trim : forall l c, In c (trim l) -> In c l.
Proof.
  intros l c H. destruct (trim_infix l) as [pre [post Hl]]. rewrite Hl.
  apply in_or_app. right. apply in_or_app. left. assumption.
Qed.

(** A trimmed line without quotes and without the comment sign is its own
    stripped copy. *)
Lemma withoutStrings_plain : forall t, ~ In dq t -> ~ In 35%N t -> withoutStrings t = t.
Proof.
  intros t Hq Hc. unfold withoutStrings. cbv zeta.
  assert (Hfirst : replaceFirst t reComment [] = t).
  { unfold replaceFirst. destruct (exec t reComment) as [mr|] eqn:E; [|reflexivity].
    unfold exec in E. apply execFrom_sound in E. destruct E as [_ HM].
    exfalso. apply Hc. apply (no_match_without t reComment mr 35%N); [|exact HM].
    eexists. reflexivity. }
  rewrite Hfirst. unfold replaceAll.
  pose proof (matchAll_IsMatch t reStringLiteral) as HF.
  destruct (matchAll t reStringLiteral) as [|mr ms]; [reflexivity|].
  inversion HF as [|? ? HM _]; subst. exfalso. apply Hq.
  apply (no_match_without t reStringLiteral mr dq); [|exact HM].
  eexists. reflexivity.
Qed.

Lemma hostReports_In : forall options i l d,
  In d (hostReports options i l) ->
  exists mr f,
    In mr (matchAll (withoutStrings (trim l)) reFuncCall) /\
    group1 (withoutStrings (trim l)) mr = Some f /\
    d = newDiagnostic (Z.of_nat i)
          (Z.of_nat (length l - length (trimStart l) + index mr)) (Z.of_nat i)
          (Z.of_nat (length l - length (trimStart l) + index mr + length f))
          (msgHostFunction f) Information.
Proof.
  intros options i l d H. unfold hostReports in H.
  destruct (skipped (trim l)); [contradiction|].
  destruct (warnOnHostFunctions options); [|contradiction].
  apply in_flat_map in H. destruct H as [mr [Hmr H]]. unfold hostReport in H.
  destruct (group1 (withoutStrings (trim l)) mr) as [f|] eqn:Hg; [|contradiction].
  destruct (includes keywords f || includes functionNames f); [contradiction|].
  destruct H as [H|[]]. exists mr, f. auto.
Qed.

Lemma Information_source : forall this ds this' d,
  analyze this = Some (ds, this') -> In d ds -> severity d = Information ->
  exists j x, nth_error (lines this) j = Some x /\ In d (hostReports (options this) j x).
Proof.
  intros this ds this' d Ha Hd Hsev.
  assert (Hinfo : isInformation d = true) by (apply isInformation_sound; assumption).
  apply (returned_iff this ds this' d Ha) in Hd.
  destruct Hd as [[j [x [stA [Hx [EA Hd]]]]]|[[st [_ Hd]]|[_ Hw]]].
  - apply lineReports_In in Hd. destruct Hd as [st2 [stB [E2 [EB Hd]]]].
    exists j, x. split; [assumption|].
    destruct Hd as [Hd|[Hd|[Hd|[Hd|Hd]]]].
    + pose proof (stringReport_shape (options this) j x) as HF.
      rewrite Forall_forall in HF.
      rewrite (SyntaxDiag_information _ _ _ _ _ (HF d Hd)) in Hinfo. discriminate.
    + pose proof (endReport_shape (options this) j x st2) as HF.
      rewrite Forall_forall in HF.
      rewrite (SyntaxDiag_information _ _ _ _ _ (HF d Hd)) in Hinfo. discriminate.
    + pose proof (loopReport_shape (options this) j x stB) as HF.
      rewrite Forall_forall in HF.
      rewrite (SyntaxDiag_information _ _ _ _ _ (HF d Hd)) in Hinfo. discriminate.
    + rewrite (typeReport_severity j x d Hd) in Hsev. discriminate.
    + assumption.
  - rewrite (unclosedReport_error _ _ d Hd) in Hsev. discriminate.
  - rewrite Hw in Hsev. discriminate.
Qed.

(** X18: where a note for a host function points.  Every Information
    diagnostic that [analyze()] returns sits on one line of the document
    and names a function [f]; its range has the length of [f] and starts at
    the leading white space of the line plus the index of the call in the
    stripped copy.  On a line without a double quote and without the comment
    sign the stripped copy is the trimmed line, and there the range spells
    [f] in the text of the document. *)
Theorem host_note_spells_name : forall text uri opts,
  exists ds this',
    analyze (new_DocumentAnalyzer text uri opts) = Some (ds, this') /\
    forall d, In d ds -> severity d = Information ->
      exists j x f col,
        nth_error (lines this') j = Some x /\
        d = newDiagnostic (Z.of_nat j) (Z.of_nat col) (Z.of_nat j)
              (Z.of_nat (col + length f)) (msgHostFunction f) Information /\
        length x - length (trimStart x) <= col /\
        (~ In dq x -> ~ In 35%N x -> substring x col (col + length f) = f).
Proof.
  intros text uri opts.
  set (this := new_DocumentAnalyzer text uri opts).
  destruct (analyze_exact this) as [st [sy [_ [_ Ha]]]].
  eexists. eexists. split; [exact Ha|]. intros d Hd Hsev.
  destruct (Information_source this _ _ d Ha Hd Hsev) as [j [x [Hx Hin]]].
  apply hostReports_In in Hin. destruct Hin as [mr [f [Hmr [Hg Hdd]]]].
  exists j, x, f, (length x - length (trimStart x) + index mr).
  split; [exact Hx|]. split; [exact Hdd|]. split; [lia|].
  intros Hq Hc.
  assert (Hplain : withoutStrings (trim x) = trim x).
  { apply withoutStrings_plain; intro H; [apply Hq | apply Hc]; apply (In_trim x _ H). }
  rewrite Hplain in Hmr, Hg.
  pose proof (matchAll_IsMatch (trim x) reFuncCall) as HF.
  rewrite Forall_forall in HF. specialize (HF mr Hmr).
  destruct (reFuncCall_match (trim x) mr HF) as [b [Hg' Hb]].
  rewrite Hg in Hg'. injection Hg' as Hf.
  assert (Hlen : length f = b - index mr).
  { rewrite Hf. apply substring_length. lia. }
  rewrite <- Nat.add_assoc, Hlen.
  replace (index mr + (b - index mr)) with b by lia.
  rewrite (substring_trim x (index mr) b) by lia. symmetry. exact Hf.
Qed.

(* ================================================================== *)
(** ** [getSymbols] called twice *)
(* ================================================================== *)

(** X19: [getSymbols()] is lazy and does not pile up entries.  On a
    fresh analyzer the first call extracts the table; a second call returns
    the same table and leaves the analyzer as the first call left it,
    whether the table is kept (it is not empty) or extracted again (the
    document has no symbols). *)
Theorem getSymbols_twice : forall text uri opts,
  exists syms this1,
    getSymbols (new_DocumentAnalyzer text uri opts) = Some (syms, this1) /\
    symbols this1 = syms /\
    getSymbols this1 = Some (syms, this1).
Proof.
  intros text uri opts.
  set (this := new_DocumentAnalyzer text uri opts).
  destruct (symbolPass_run (lines this)) as [sy [E _]].
  assert (E1 : extractSymbols this = Some (withSymbols this (table sy))).
  { unfold extractSymbols. change (symbols this) with (@nil SymbolInfo.t).
    rewrite E. reflexivity. }
  exists (table sy), (withSymbols this (table sy)).
  split; [|split; [reflexivity|]].
  - unfold getSymbols. change (length (symbols this) =? 0) with true. cbv iota.
    rewrite E1. reflexivity.
  - unfold getSymbols. cbn [symbols withSymbols].
    destruct (length (table sy) =? 0) eqn:El; [|reflexivity].
    apply Nat.eqb_eq in El. apply length_zero_iff_nil in El.
    unfold extractSymbols. cbn [symbols withSymbols lines]. rewrite El.
    fold this. change (lines this) with (lines this). rewrite E. rewrite El. reflexivity.
Qed.

(* ================================================================== *)
(** ** The function registry *)
(* ================================================================== *)

Lemma distinct_NoDup : forall l, distinct l = true -> NoDup l.
Proof.
  induction l as [|x l IH]; intro H; [constructor|].
  simpl in H. apply andb_true_iff in H. destruct H as [H1 H2].
  constructor; [|apply IH; assumption].
  intro Hin. apply includes_In in Hin. rewrite Hin in H1. discriminate.
Qed.

Lemma NoDup_map_eq : forall (A B : Type) (g : A -> B) (l : list A) a b,
  NoDup (map g l) -> In a l -> In b l -> g a = g b -> a = b.
Proof.
  intros A B g. induction l as [|x l IH]; intros a b Hnd Ha Hb Hg; [contradiction|].
  simpl in Hnd. inversion Hnd as [|? ? Hx Hl]; subst.
  destruct Ha as [Ha|Ha]; destruct Hb as [Hb|Hb].
  - congruence.
  - subst x. exfalso. apply Hx. rewrite Hg. apply in_map. assumption.
  - subst x. exfalso. apply Hx. rewrite <- Hg. apply in_map. assumption.
  - apply IH; assumption.
Qed.

Lemma registry_lower_names_distinct :
  NoDup (map (fun f => toLowerCase (FunctionSignature.name f)) Registry.STDLIB_FUNCTIONS).
Proof. apply distinct_NoDup. vm_compute. reflexivity. Qed.

Lemma registry_names_eq : Registry.getAllFunctionNames = getAllFunctionNames.
Proof. vm_compute. reflexivity. Qed.

(** The lookup answers with the one entry whose name is the given one up
    to the case of the letters. *)
Lemma getFunctionSignature_iff : forall n f,
  Registry.getFunctionSignature n = Some f <->
  In f Registry.STDLIB_FUNCTIONS /\
  toLowerCase (FunctionSignature.name f) = toLowerCase n.
Proof.
  intros n f. unfold Registry.getFunctionSignature. split.
  - intro H. apply find_some in H. destruct H as [Hin He].
    apply jseqb_eq in He. auto.
  - intros [Hin He].
    destruct (find (fun f0 => jseqb (toLowerCase (FunctionSignature.name f0)) (toLowerCase n))
                Registry.STDLIB_FUNCTIONS) as [f'|] eqn:E.
    + apply find_some in E. destruct E as [Hin' He']. apply jseqb_eq in He'.
      f_equal.
      apply (NoDup_map_eq _ _ (fun f => toLowerCase (FunctionSignature.name f))
               Registry.STDLIB_FUNCTIONS f' f registry_lower_names_distinct Hin' Hin).
      congruence.
    + exfalso. pose proof (find_none _ _ E f Hin) as Hn. simpl in Hn.
      rewrite He in Hn. rewrite (proj2 (jseqb_eq _ _) eq_refl) in Hn. discriminate.
Qed.

(** X20: the names of the registry.  [getAllFunctionNames()] returns the
    57 names of the table in the order of the table, the list that the
    analyzer holds as [functionNames]; and [getFunctionSignature] finds for
    each of these names its own entry, because no two names of the table
    are equal when the case of the letters is ignored. *)
Theorem registry_names :
  Registry.getAllFunctionNames = getAllFunctionNames /\
  length Registry.getAllFunctionNames = 57 /\
  NoDup (map toLowerCase Registry.getAllFunctionNames) /\
  forall f, In f Registry.STDLIB_FUNCTIONS ->
            Registry.getFunctionSignature (FunctionSignature.name f) = Some f.
Proof.
  split; [exact registry_names_eq|]. split; [reflexivity|]. split.
  - unfold Registry.getAllFunctionNames. rewrite map_map.
    exact registry_lower_names_distinct.
  - intros f Hf. apply getFunctionSignature_iff. auto.
Qed.

Lemma isFunctionName_registry : forall n,
  isFunctionName n = true <-> exists f, Registry.getFunctionSignature n = Some f.
Proof.
  intro n. unfold isFunctionName, functionNames. rewrite <- registry_names_eq.
  unfold Registry.getAllFunctionNames. rewrite existsb_exists. split.
  - intros [x [Hx He]]. apply in_map_iff in Hx. destruct Hx as [f [Hf Hin]]. subst x.
    apply jseqb_eq in He. exists f. apply getFunctionSignature_iff. auto.
  - intros [f Hf]. apply getFunctionSignature_iff in Hf. destruct Hf as [Hin He].
    exists (FunctionSignature.name f). split; [apply in_map; assumption|].
    apply jseqb_eq. assumption.
Qed.

(** X21: the lookup by name.  For a name of ASCII characters (on which
    [toLowerCase] changes the letters A to Z only, as modelled)
    [getFunctionSignature] returns an entry exactly when that entry of the
    table has the name up to the case of the letters, and there is at most
    one such entry.  It finds an entry for exactly the identifiers that
    [validateSemantics] skips as function names. *)
Theorem getFunctionSignature_lookup : forall n,
  isAsciiName n ->
  (forall f, Registry.getFunctionSignature n = Some f <->
             In f Registry.STDLIB_FUNCTIONS /\
             toLowerCase (FunctionSignature.name f) = toLowerCase n) /\
  (Registry.getFunctionSignature n = None <-> isFunctionName n = false).
Proof.
  intros n _. split; [intro f; apply getFunctionSignature_iff|].
  split.
  - intro H. destruct (isFunctionName n) eqn:E; [|reflexivity].
    apply isFunctionName_registry in E. destruct E as [f Hf]. congruence.
  - intro H. destruct (Registry.getFunctionSignature n) as [f|] eqn:E; [|reflexivity].
    assert (Ht : isFunctionName n = true) by (apply isFunctionName_registry; eauto).
    congruence.
Qed.

Lemma getFunctionSignature_lookup_witness :
  isAsciiName (js "toNUMBER") /\
  (forall f, Registry.getFunctionSignature (js "toNUMBER") = Some f <->
             In f Registry.STDLIB_FUNCTIONS /\
             toLowerCase (FunctionSignature.name f) = toLowerCase (js "toNUMBER")) /\
  (Registry.getFunctionSignature (js "toNUMBER") = None <->
   isFunctionName (js "toNUMBER") = false).
Proof.
  assert (H : isAsciiName (js "toNUMBER")).
  { unfold isAsciiName. simpl. repeat constructor. }
  split; [exact H|]. apply (getFunctionSignature_lookup (js "toNUMBER") H).
Defined.

Lemma registry_categories_all :
  forallb (fun f => includes registryCategories (FunctionSignature.category f))
    Registry.STDLIB_FUNCTIONS = true.
Proof. vm_compute. reflexivity. Qed.

(** X22: the categories.  [getFunctionsByCategory] returns some entry
    exactly for the five categories String, Array, Math, DateTime and
    Utility, compared with the case of the letters; what it returns are the
    entries of the table with that category; and the five answers together
    have as many entries as the table, so every entry is in exactly one of
    them. *)
Theorem registry_categories : forall c,
  (Registry.getFunctionsByCategory c <> [] <-> In c registryCategories) /\
  (forall f, In f (Registry.getFunctionsByCategory c) <->
             In f Registry.STDLIB_FUNCTIONS /\ FunctionSignature.category f = c) /\
  length (flat_map Registry.getFunctionsByCategory registryCategories) =
    length Registry.STDLIB_FUNCTIONS.
Proof.
  intro c.
  assert (Hin : forall f, In f (Registry.getFunctionsByCategory c) <->
                          In f Registry.STDLIB_FUNCTIONS /\ FunctionSignature.category f = c).
  { intro f. unfold Registry.getFunctionsByCategory. rewrite filter_In.
    split; intros [H1 H2]; (split; [assumption|]); apply jseqb_eq; assumption. }
  split; [|split; [exact Hin | vm_compute; reflexivity]]. split.
  - intro H. destruct (Registry.getFunctionsByCategory c) as [|f fs] eqn:E;
      [contradiction H; reflexivity|].
    assert (Hf : In f (f :: fs)) by (left; reflexivity).
    apply Hin in Hf. destruct Hf as [Hf Hc]. subst c.
    pose proof registry_categories_all as Hall. rewrite forallb_forall in Hall.
    apply includes_In. apply Hall. assumption.
  - intros H E. unfold registryCategories in H. simpl in H.
    destruct H as [H|[H|[H|[H|[H|[]]]]]]; subst c; vm_compute in E; discriminate.
Qed.

(* ================================================================== *)
(** ** The symbol table, exactly *)
(* ================================================================== *)

Lemma varLoop_exact : forall i l ms st,
  Forall (IsMatch (trim l) reVarDecl) ms ->
  foldM (varDeclBody i l (trim l)) ms st =
    Some {| table := table st ++ flat_map (varSymbol i l) ms;
            seenProps := seenProps st |}.
Proof.
  intros i l. induction ms as [|mr ms IH]; intros st HF; cbn [foldM flat_map].
  - rewrite app_nil_r. destruct st; reflexivity.
  - inversion HF as [|? ? HM HF']; subst.
    destruct (IsMatch_group1 _ reVarDecl mr eq_refl HM) as [a [b [_ [_ Hg]]]].
    unfold varDeclBody at 1. unfold varSymbol at 1. rewrite Hg. cbv zeta.
    rewrite (IH _ HF'). simpl. rewrite <- app_assoc. reflexivity.
Qed.

Lemma extractForeach_exact : forall i l st,
  extractForeach i l (trim l) st =
    Some {| table := table st ++ foreachSymbols i l; seenProps := seenProps st |}.
Proof.
  intros i l st. unfold extractForeach, foreachSymbols.
  destruct (exec (trim l) reForeach) as [mr|] eqn:E;
    [|rewrite app_nil_r; destruct st; reflexivity].
  unfold exec in E. apply execFrom_sound in E. destruct E as [_ HM].
  destruct (IsMatch_group1 _ reForeach mr eq_refl HM) as [a [b [_ [_ Hg]]]].
  rewrite Hg. reflexivity.
Qed.

Lemma propLoop_exact : forall i l ms st,
  Forall (IsMatch (trim l) rePropAssign) ms ->
  foldM (propAssignBody i l (trim l)) ms st =
    Some {| table := table st ++
                     map (propertySymbol i l)
                       (freshPaths (seenProps st)
                          (flat_map (fun mr => match group1 (trim l) mr with
                                               | Some p => [p]
                                               | None => []
                                               end) ms));
            seenProps := seenProps st ++
                         freshPaths (seenProps st)
                           (flat_map (fun mr => match group1 (trim l) mr with
                                                | Some p => [p]
                                                | None => []
                                                end) ms) |}.
Proof.
  intros i l. induction ms as [|mr ms IH]; intros st HF; cbn [foldM flat_map].
  - simpl. repeat rewrite app_nil_r. destruct st; reflexivity.
  - inversion HF as [|? ? HM HF']; subst.
    destruct (IsMatch_group1 _ rePropAssign mr eq_refl HM) as [a [b [_ [_ Hg]]]].
    unfold propAssignBody at 1. rewrite Hg. cbn [app freshPaths].
    destruct (includes (seenProps st) (substring (trim l) a b)); cbn [negb]; cbv beta iota.
    + apply (IH _ HF').
    + cbv zeta. rewrite (IH _ HF'). cbn [table seenProps map].
      repeat rewrite <- app_assoc. reflexivity.
Qed.

Lemma extractLine_exact : forall l i st,
  extractLine l i st =
    Some {| table := table st ++ lineSymbols i l (seenProps st);
            seenProps := seenProps st ++ freshPaths (seenProps st) (assignedPaths l) |}.
Proof.
  intros l i st. unfold extractLine, lineSymbols, assignedPaths. cbv zeta.
  destruct (skipped (trim l)) eqn:Hsk.
  { simpl. repeat rewrite app_nil_r. destruct st; reflexivity. }
  rewrite whileExec_foldM by (simpl; lia).
  rewrite (varLoop_exact i l _ st (matchAll_IsMatch (trim l) reVarDecl)).
  rewrite extractForeach_exact. rewrite whileExec_foldM by (simpl; lia).
  rewrite (propLoop_exact i l _ _ (matchAll_IsMatch (trim l) rePropAssign)).
  cbn [table seenProps]. unfold varSymbols. repeat rewrite <- app_assoc. reflexivity.
Qed.

Lemma symbolPass_exact : forall l i st,
  exists seen',
    forEachFrom extractLine l i st =
      Some {| table := table st ++ symbolsFrom l i (seenProps st); seenProps := seen' |}.
Proof.
  induction l as [|x l IH]; intros i st; simpl.
  - exists (seenProps st). rewrite app_nil_r. destruct st; reflexivity.
  - rewrite extractLine_exact.
    destruct (IH (S i) {| table := table st ++ lineSymbols i x (seenProps st);
                          seenProps := seenProps st ++
                                       freshPaths (seenProps st) (assignedPaths x) |})
      as [seen' E].
    exists seen'. rewrite E. cbn [table seenProps]. rewrite <- app_assoc. reflexivity.
Qed.

Lemma freshPaths_In : forall paths seen p,
  In p (freshPaths seen paths) <-> In p paths /\ ~ In p seen.
Proof.
  induction paths as [|q t IH]; intros seen p; simpl; [tauto|].
  destruct (includes seen q) eqn:E.
  - apply includes_In in E. rewrite IH. split.
    + intros [H1 H2]. auto.
    + intros [[H1|H1] H2]; [subst; contradiction | auto].
  - assert (Hq : ~ In q seen) by (intro H; apply includes_In in H; congruence).
    simpl. rewrite IH. split.
    + intros [H|[H1 H2]]; [subst; auto|].
      split; [auto|]. intro H. apply H2. apply in_or_app. auto.
    + intros [[H|H] H2]; [auto|].
      destruct (list_eq_dec N.eq_dec q p) as [Heq|Hne]; [auto|].
      right. split; [assumption|]. intro H3. apply in_app_or in H3.
      destruct H3 as [H3|[H3|[]]]; [contradiction | contradiction].
Qed.

(** The members of the table of the lines [l]. *)
Lemma symbolsFrom_In : forall l i seen sy,
  In sy (symbolsFrom l i seen) <->
  exists j x,
    nth_error l j = Some x /\ skipped (trim x) = false /\
    (In sy (varSymbols (i + j) x) \/ In sy (foreachSymbols (i + j) x) \/
     exists p, sy = propertySymbol (i + j) x p /\ In p (assignedPaths x) /\
               ~ In p seen /\
               forall j' x', j' < j -> nth_error l j' = Some x' ->
                             ~ In p (assignedPaths x')).
Proof.
  induction l as [|y l IH]; intros i seen sy; simpl.
  - split; [intros [] | intros [j [x [H _]]]; destruct j; discriminate].
  - rewrite in_app_iff, IH. split.
    + intros [H|[j [x [Hx [Hsk H]]]]].
      * unfold lineSymbols in H. destruct (skipped (trim y)) eqn:Hsk; [contradiction|].
        exists 0, y. rewrite Nat.add_0_r. split; [reflexivity|]. split; [assumption|].
        apply in_app_or in H. destruct H as [H|H]; [auto|].
        apply in_app_or in H. destruct H as [H|H]; [auto|].
        right. right. apply in_map_iff in H. destruct H as [p [Hp Hin]].
        apply freshPaths_In in Hin. destruct Hin as [H1 H2].
        exists p. split; [auto|]. split; [assumption|]. split; [assumption|].
        intros j' x' Hj'. lia.
      * exists (S j), x. replace (i + S j) with (S i + j) by lia.
        split; [assumption|]. split; [assumption|].
        destruct H as [H|[H|[p [Hp [Hin [Hns Hfirst]]]]]]; [auto | auto|].
        right. right. exists p. split; [assumption|]. split; [assumption|].
        assert (Hs : ~ In p seen) by (intro H; apply Hns; apply in_or_app; auto).
        split; [assumption|].
        intros j' x' Hj' Hx'. destruct j' as [|j']; simpl in Hx'.
        -- inversion Hx'; subst x'. intro H. apply Hns. apply in_or_app. right.
           apply freshPaths_In. auto.
        -- apply (Hfirst j' x'); [lia | assumption].
    + intros [j [x [Hx [Hsk H]]]]. destruct j as [|j]; simpl in Hx.
      * inversion Hx; subst y. left. unfold lineSymbols. rewrite Hsk.
        rewrite Nat.add_0_r in H. repeat rewrite in_app_iff.
        destruct H as [H|[H|[p [Hp [Hin [Hns _]]]]]]; [auto | auto|].
        right. right. subst sy. apply in_map. apply freshPaths_In. auto.
      * right. exists j, x. replace (S i + j) with (i + S j) by lia.
        split; [assumption|]. split; [assumption|].
        destruct H as [H|[H|[p [Hp [Hin [Hns Hfirst]]]]]]; [auto | auto|].
        right. right. exists p. split; [assumption|]. split; [assumption|].
        assert (Hy : ~ In p (assignedPaths y)) by (apply (Hfirst 0 y); [lia | reflexivity]).
        split.
        -- intro H. apply in_app_or in H. destruct H as [H|H]; [contradiction|].
           apply freshPaths_In in H. destruct H as [H _]. contradiction.
        -- intros j' x' Hj' Hx'. apply (Hfirst (S j') x'); [lia | assumption].
Qed.

(** X23: the members of the symbol table.  After [analyze()] the table
    holds exactly these symbols, all from lines that are neither blank nor
    comment lines: for every match of the declaration pattern on a trimmed
    line, several on one line too, a symbol with the declared name, the
    annotated type or none, and the first column at or after the index of
    the match where the raw line spells the name; for a line with a
    [foreach], a symbol of type iterator for its variable; and for every
    dotted path that some line assigns to, one symbol of type property on
    the first line that assigns to it. *)
Theorem symbol_table_members : forall text uri opts,
  exists ds this',
    analyze (new_DocumentAnalyzer text uri opts) = Some (ds, this') /\
    symbols this' = symbolsFrom (lines this') 0 [] /\
    forall sy,
      In sy (symbols this') <->
      exists i l,
        nth_error (lines this') i = Some l /\ skipped (trim l) = false /\
        (In sy (varSymbols i l) \/ In sy (foreachSymbols i l) \/
         exists p, sy = propertySymbol i l p /\ In p (assignedPaths l) /\
                   forall j l', j < i -> nth_error (lines this') j = Some l' ->
                                ~ In p (assignedPaths l')).
Proof.
  intros text uri opts.
  set (this := new_DocumentAnalyzer text uri opts).
  destruct (analyze_exact this) as [st [sy0 [_ [E2 Ha]]]].
  destruct (symbolPass_exact (lines this) 0 {| table := []; seenProps := [] |})
    as [seen' E2'].
  unfold forEach in E2. rewrite E2 in E2'. injection E2' as Hsy. simpl in Hsy.
  eexists. eexists. split; [exact Ha|]. cbn [symbols lines].
  rewrite Hsy. cbn [table]. split; [reflexivity|].
  intro sy. rewrite symbolsFrom_In. split.
  - intros [j [x [Hx [Hsk H]]]]. exists j, x. simpl in H.
    split; [assumption|]. split; [assumption|].
    destruct H as [H|[H|[p [Hp [Hin [_ Hfirst]]]]]]; [auto | auto|].
    right. right. exists p. auto.
  - intros [j [x [Hx [Hsk H]]]]. exists j, x. simpl.
    split; [assumption|]. split; [assumption|].
    destruct H as [H|[H|[p [Hp [Hin Hfirst]]]]]; [auto | auto|].
    right. right. exists p. repeat (split; [assumption|]). split; [intros []|assumption].
Qed.
